(** * NovaCare fall-detection dashboards: the client-side JavaScript

    A shallow embedding of the dashboard scripts (the role API modules, the
    role UI controllers and [main.js]), the properties of them that the
    specification states, and further properties of the code.

    Conventions of the embedding
    - JSON and JavaScript values are [jsval]; numbers are integers ([Z]).
    - A function of the scripts is a computation [M A] over the page state
      [World] that either returns or throws a [JsError].
    - An [async] function runs to completion in one piece; the outcome of each
      [fetch] is given by the environment ([net]).  Interleavings of pending
      promises are not part of the model.
    - Output that leaves the page (console, toasts, network requests, audio)
      is recorded, in order, in the [log] of the world.
    - Markup built from a template literal is kept as the tree it denotes when
      the interpolated fields are plain text.
    - The shared [NovaBot] helper object ([showToast], [showLoading],
      [formatRelativeTime]) is not among the scripts: its toasts and loading
      indicator are recorded in the log, its time formatting comes from the
      environment.
    - The string methods ([toLowerCase], [substring], [padStart]) act on
      ASCII text; where a callback reads the clock, the reading is a
      parameter. *)

From stdpp Require Import base option list strings gmap pretty.
From Stdlib Require Import ZArith QArith Ascii.
Local Open Scope Z_scope.
Set Warnings "-register-all".

(** ** JavaScript values *)

Inductive jsval : Type :=
| VUndefined
| VNull
| VBool (b : bool)
| VNum (z : Z)
| VStr (s : string)
| VArr (l : list jsval)
| VObj (fields : list (string * jsval)).

Inductive ErrorKind := Error | TypeError | SyntaxError | ReferenceError.

Record JsError := mkError { ekind : ErrorKind; emessage : string }.

Inductive Res (A : Type) : Type :=
| Ok (a : A)
| Throw (e : JsError).
Arguments Ok {A} a.
Arguments Throw {A} e.

(** ToBoolean. *)
Definition truthy (v : jsval) : bool :=
  match v with
  | VUndefined | VNull => false
  | VBool b => b
  | VNum z => negb (z =? 0)
  | VStr s => negb (String.eqb s "")
  | VArr _ | VObj _ => true
  end.

(** ToString, as a template literal [`${v}`] applies it. *)
Fixpoint toString (v : jsval) : string :=
  match v with
  | VUndefined => "undefined"
  | VNull => "null"
  | VBool true => "true"
  | VBool false => "false"
  | VNum z => pretty z
  | VStr s => s
  | VArr l =>
      (fix join (l : list jsval) : string :=
         match l with
         | [] => ""
         | x :: r =>
             let sx := match x with
                       | VUndefined | VNull => ""
                       | _ => toString x
                       end in
             match r with
             | [] => sx
             | _ => sx +:+ "," +:+ join r
             end
         end) l
  | VObj _ => "[object Object]"
  end.

(** The last binding of a key wins, as in [JSON.parse]. *)
Fixpoint own_property (fields : list (string * jsval)) (k : string) : option jsval :=
  match fields with
  | [] => None
  | (k', v) :: rest =>
      match own_property rest k with
      | Some v' => Some v'
      | None => if String.eqb k' k then Some v else None
      end
  end.

(** Property read [v.k]: a [TypeError] on [undefined] and [null], [undefined]
    for a missing property.  ([length] is read with [js_length].) *)
Definition get (v : jsval) (k : string) : Res jsval :=
  match v with
  | VUndefined =>
      Throw (mkError TypeError ("Cannot read properties of undefined (reading '" +:+ k +:+ "')"))
  | VNull =>
      Throw (mkError TypeError ("Cannot read properties of null (reading '" +:+ k +:+ "')"))
  | VObj fields => Ok (default VUndefined (own_property fields k))
  | _ => Ok VUndefined
  end.

Definition js_length (v : jsval) : Res jsval :=
  match v with
  | VArr l => Ok (VNum (Z.of_nat (List.length l)))
  | VStr s => Ok (VNum (Z.of_nat (String.length s)))
  | _ => get v "length"
  end.

(** ToNumber; [None] is NaN.  Of the string numerals only the decimal
    integers are read (the numbers of the model are integers). *)
Definition is_digit (c : ascii) : bool :=
  let n := nat_of_ascii c in (48 <=? n)%nat && (n <=? 57)%nat.

Definition is_space (c : ascii) : bool :=
  let n := nat_of_ascii c in
  (n =? 32)%nat || ((9 <=? n)%nat && (n <=? 13)%nat).

Fixpoint digits_value (s : string) (acc : Z) : option Z :=
  match s with
  | EmptyString => Some acc
  | String c r =>
      if is_digit c
      then digits_value r (10 * acc + Z.of_nat (nat_of_ascii c - 48))
      else None
  end.

Fixpoint trim_left (s : string) : string :=
  match s with
  | String c r => if is_space c then trim_left r else s
  | EmptyString => s
  end.

Definition trim (s : string) : string :=
  String.rev (trim_left (String.rev (trim_left s))).

Definition string_to_number (s : string) : option Z :=
  match trim s with
  | EmptyString => Some 0
  | String "-" (String c r) => Z.opp <$> digits_value (String c r) 0
  | String "+" (String c r) => digits_value (String c r) 0
  | String c r => digits_value (String c r) 0
  end.

Definition toNumber (v : jsval) : option Z :=
  match v with
  | VUndefined => None
  | VNull => Some 0
  | VBool b => Some (if b then 1 else 0)
  | VNum z => Some z
  | VStr s => string_to_number s
  | VArr _ => string_to_number (toString v)
  | VObj _ => None
  end.

(** [v > n] and [v < n] against a number literal: false on NaN. *)
Definition js_gt (v : jsval) (n : Z) : bool :=
  match toNumber v with Some x => n <? x | None => false end.

Definition js_lt (v : jsval) (n : Z) : bool :=
  match toNumber v with Some x => x <? n | None => false end.

Definition js_le (v : jsval) (n : Z) : bool :=
  match toNumber v with Some x => x <=? n | None => false end.

(** [v === n] against a number literal. *)
Definition strict_eq_num (v : jsval) (n : Z) : bool :=
  match v with VNum z => z =? n | _ => false end.

(** [v === s] against a string literal. *)
Definition strict_eq_str (v : jsval) (s : string) : bool :=
  match v with VStr s' => String.eqb s' s | _ => false end.

(** The own entries of a table of strings (an object literal, a header
    table), by key. *)
Fixpoint table_lookup (table : list (string * string)) (key : string) : option string :=
  match table with
  | [] => None
  | (k, v) :: rest => if String.eqb k key then Some v else table_lookup rest key
  end.

(** What every object literal inherits from [Object.prototype]: the name of
    each property and the text a template literal shows for its value (a
    built-in function the way V8 prints one; behind [__proto__] is the
    prototype object itself). *)
Definition object_prototype : list (string * string) :=
  [("constructor", "function Object() { [native code] }");
   ("__defineGetter__", "function __defineGetter__() { [native code] }");
   ("__defineSetter__", "function __defineSetter__() { [native code] }");
   ("hasOwnProperty", "function hasOwnProperty() { [native code] }");
   ("__lookupGetter__", "function __lookupGetter__() { [native code] }");
   ("__lookupSetter__", "function __lookupSetter__() { [native code] }");
   ("isPrototypeOf", "function isPrototypeOf() { [native code] }");
   ("propertyIsEnumerable", "function propertyIsEnumerable() { [native code] }");
   ("toString", "function toString() { [native code] }");
   ("valueOf", "function valueOf() { [native code] }");
   ("__proto__", "[object Object]");
   ("toLocaleString", "function toLocaleString() { [native code] }")].


(** What [table[key]] finds on an object literal: an entry of its own, or
    else an inherited property (a function or an object, so truthy). *)
Inductive Entry :=
| Own (v : string)
| Inherited (text : string).

Definition table_index (table : list (string * string)) (key : string) : option Entry :=
  match table_lookup table key with
  | Some v => Some (Own v)
  | None =>
      match table_lookup object_prototype key with
      | Some text => Some (Inherited text)
      | None => None
      end
  end.

(** [`${table[key] || fallback}`]: the fallback replaces a missing or empty
    entry, not an inherited property. *)
Definition lookup_or (table : list (string * string)) (key : jsval) (fallback : string) : string :=
  match table_index table (toString key) with
  | Some (Own v) => if String.eqb v "" then fallback else v
  | Some (Inherited text) => text
  | None => fallback
  end.




(** [s.toLowerCase()], on the ASCII letters.  (The scripts compare the result
    with ASCII words only.) *)
Definition lower_ascii (c : ascii) : ascii :=
  let n := nat_of_ascii c in
  if (65 <=? n)%nat && (n <=? 90)%nat then ascii_of_nat (n + 32) else c.

Fixpoint toLowerCase (s : string) : string :=
  match s with
  | EmptyString => EmptyString
  | String c r => String (lower_ascii c) (toLowerCase r)
  end.

(** The method call [v.toLowerCase()]: only strings have the method. *)
Definition call_toLowerCase (v : jsval) : Res string :=
  match v with
  | VStr s => Ok (toLowerCase s)
  | VUndefined =>
      Throw (mkError TypeError "Cannot read properties of undefined (reading 'toLowerCase')")
  | VNull =>
      Throw (mkError TypeError "Cannot read properties of null (reading 'toLowerCase')")
  | _ => Throw (mkError TypeError "status.toLowerCase is not a function")
  end.

(** The method call [v.substring(0, n)], on ASCII text. *)
Definition call_substring (v : jsval) (n : nat) : Res string :=
  match v with
  | VStr s => Ok (String.substring 0 n s)
  | VUndefined =>
      Throw (mkError TypeError "Cannot read properties of undefined (reading 'substring')")
  | VNull =>
      Throw (mkError TypeError "Cannot read properties of null (reading 'substring')")
  | _ => Throw (mkError TypeError "report.id.substring is not a function")
  end.


(** [s.padStart(targetLength, c)] with a one-character filler. *)
Fixpoint padding (k : nat) (c : ascii) (s : string) : string :=
  match k with
  | O => s
  | S k' => String c (padding k' c s)
  end.

Definition padStart (targetLength : nat) (c : ascii) (s : string) : string :=
  padding (targetLength - String.length s) c s.

(** ** The page: DOM, controller fields, timers and the output log *)

(** An alert entry of the caregiver's alert list, as the template of
    [renderAlerts] lays it out.  Interpolated fields are kept as text: the
    model is of payloads whose fields carry no markup of their own. *)
Inductive Listener := OnClickMarkAlertRead.

Record AlertItem := mkAlertItem {
  class_attr : string;
  data_alert_id : string;
  data_unread : option string;
  badge_class_attr : string;
  severity_text : string;
  type_text : string;
  message_text : string;
  unread_dot : bool;
  location_text : string;
  time_text : string;
  listeners : list Listener
}.

Inductive Node :=
| NoAlertsParagraph
| AlertItemNode (item : AlertItem).

(** An element found by its id.  [textContent] is the text last assigned and
    [nodes] the children built by the last [innerHTML] assignment; each
    assignment replaces the other. *)
Record Element := mkElement {
  textContent : string;
  classList : list string;
  style_width : string;
  nodes : list Node
}.

Definition set_textContent (s : string) (e : Element) : Element :=
  {| textContent := s; classList := classList e;
     style_width := style_width e; nodes := [] |}.

Definition set_innerHTML (ns : list Node) (e : Element) : Element :=
  {| textContent := ""; classList := classList e;
     style_width := style_width e; nodes := ns |}.

Definition set_classList (cl : list string) (e : Element) : Element :=
  {| textContent := textContent e; classList := cl;
     style_width := style_width e; nodes := nodes e |}.

Definition set_style_width (wd : string) (e : Element) : Element :=
  {| textContent := textContent e; classList := classList e;
     style_width := wd; nodes := nodes e |}.

(** [DOMTokenList]: [add] skips a token already there, [remove] drops it. *)
Definition token_in (t : string) (cl : list string) : bool :=
  existsb (String.eqb t) cl.

Definition classList_add1 (t : string) (cl : list string) : list string :=
  if token_in t cl then cl else cl ++ [t].

Definition classList_remove1 (t : string) (cl : list string) : list string :=
  filter (fun c => c <> t) cl.

Definition classList_add (ts : list string) (cl : list string) : list string :=
  foldl (fun acc t => classList_add1 t acc) cl ts.

Definition classList_remove (ts : list string) (cl : list string) : list string :=
  foldl (fun acc t => classList_remove1 t acc) cl ts.

(** An entry of [.activity-list]; an entry counts as an item when its class
    attribute carries [activity-item]. *)
Record ActivityNode := mkActivityNode {
  node_class : list string;
  icon_color : string;
  icon : string;
  title_text : string;
  time_label : string
}.

(** Requests handed to [fetch]. *)
Inductive Body :=
| JsonStringify (v : jsval)
| RawData (data : string).

Record Options := mkOptions {
  opt_method : option string;
  opt_headers : option (list (string * string));
  opt_body : option Body
}.

Definition no_options : Options :=
  {| opt_method := None; opt_headers := None; opt_body := None |}.

Record Request := mkRequest {
  url : string;
  method : option string;
  headers : list (string * string);
  body : option Body
}.

(** What [fetch] resolves to.  [json_body = None] is a body that is not JSON
    (for instance the empty body of a 204). *)
Record Response := mkResponse {
  status : Z;
  statusText : string;
  json_body : option jsval
}.

Inductive FetchOutcome :=
| Rejected (e : JsError)
| Responded (r : Response).

(** [response.ok]: the status is in the range 200-299. *)
Definition ok (r : Response) : bool :=
  (200 <=? status r) && (status r <=? 299).

(** Closures handed to [setInterval]. [AlarmTick] carries the [beepCount] its
    callback closes over. *)
Inductive Controller := Caregiver | PrimaryUser | HealthProfessional | Emergency.

Inductive Callback :=
| UpdateTime
| LoadDashboardStats
| AlarmTick (beepCount : Z)
| LoadPatientStatus
| LoadLocation
| LoadBattery
| LoadAlerts
| LoadVisualFeedback
| LoadNextMedication
| LoadCurrentVitals
| RefreshTrends
| ElapsedTimer.

Record Timer := mkTimer {
  handle : positive;
  period : Z;
  callback : Callback
}.

Inductive Event :=
| Console (level : string) (message : string)
| Toast (message : string) (type : string)
| Loading (show : bool)
| Fetch (req : Request)
| Beep (frequency : Z) (duration : Q)
| ShowNotification (title : string)
| RequestPermission
| SetInterval (h : positive) (ms : Z) (cb : Callback)
| ClearInterval (h : positive).

Record World := mkWorld {
  dom : gmap string Element;
  activity_list : option (list ActivityNode);
  followModeActive : jsval;
  currentFilter : jsval;
  timers : list Timer;
  nextHandle : positive;
  alarmInterval : option positive;
  log : list Event
}.

Definition with_dom (d : gmap string Element) (w : World) : World :=
  {| dom := d; activity_list := activity_list w;
     followModeActive := followModeActive w; currentFilter := currentFilter w;
     timers := timers w; nextHandle := nextHandle w;
     alarmInterval := alarmInterval w; log := log w |}.

Definition with_activity_list (a : option (list ActivityNode)) (w : World) : World :=
  {| dom := dom w; activity_list := a;
     followModeActive := followModeActive w; currentFilter := currentFilter w;
     timers := timers w; nextHandle := nextHandle w;
     alarmInterval := alarmInterval w; log := log w |}.

Definition with_followModeActive (v : jsval) (w : World) : World :=
  {| dom := dom w; activity_list := activity_list w;
     followModeActive := v; currentFilter := currentFilter w;
     timers := timers w; nextHandle := nextHandle w;
     alarmInterval := alarmInterval w; log := log w |}.

Definition with_currentFilter (v : jsval) (w : World) : World :=
  {| dom := dom w; activity_list := activity_list w;
     followModeActive := followModeActive w; currentFilter := v;
     timers := timers w; nextHandle := nextHandle w;
     alarmInterval := alarmInterval w; log := log w |}.

Definition with_timers (ts : list Timer) (w : World) : World :=
  {| dom := dom w; activity_list := activity_list w;
     followModeActive := followModeActive w; currentFilter := currentFilter w;
     timers := ts; nextHandle := nextHandle w;
     alarmInterval := alarmInterval w; log := log w |}.

Definition with_nextHandle (h : positive) (w : World) : World :=
  {| dom := dom w; activity_list := activity_list w;
     followModeActive := followModeActive w; currentFilter := currentFilter w;
     timers := timers w; nextHandle := h;
     alarmInterval := alarmInterval w; log := log w |}.

Definition with_alarmInterval (a : option positive) (w : World) : World :=
  {| dom := dom w; activity_list := activity_list w;
     followModeActive := followModeActive w; currentFilter := currentFilter w;
     timers := timers w; nextHandle := nextHandle w;
     alarmInterval := a; log := log w |}.

Definition with_log (l : list Event) (w : World) : World :=
  {| dom := dom w; activity_list := activity_list w;
     followModeActive := followModeActive w; currentFilter := currentFilter w;
     timers := timers w; nextHandle := nextHandle w;
     alarmInterval := alarmInterval w; log := l |}.

(** What the browser and the server contribute. [formatRelativeTime] is the
    helper of the shared [NovaBot] utility object. *)
Inductive Permission := Granted | Denied | DefaultPermission.

Record Env := mkEnv {
  net : Request -> FetchOutcome;
  audioContext : bool;
  notification : option Permission;
  formatRelativeTime : jsval -> string
}.

(** ** Computations: state and exceptions *)

Definition M (A : Type) : Type := World -> Res A * World.

Definition ret {A} (a : A) : M A := fun w => (Ok a, w).

Definition throw {A} (e : JsError) : M A := fun w => (Throw e, w).

Definition bind {A B} (c : M A) (k : A -> M B) : M B :=
  fun w => match c w with
           | (Ok a, w') => k a w'
           | (Throw e, w') => (Throw e, w')
           end.

Declare Scope js_scope.
Delimit Scope js_scope with js.
Notation "x <- c ;; k" := (bind c (fun x => k))
  (at level 100, c at next level, right associativity) : js_scope.
Notation "c ;; k" := (bind c (fun _ => k))
  (at level 100, right associativity) : js_scope.
Local Open Scope js_scope.

Definition lift {A} (r : Res A) : M A := fun w => (r, w).

(** [try { c } catch (error) { handler error }] *)
Definition try_catch {A} (c : M A) (handler : JsError -> M A) : M A :=
  fun w => match c w with
           | (Ok a, w') => (Ok a, w')
           | (Throw e, w') => handler e w'
           end.

(** [try { c } finally { f }] *)
Definition try_finally {A} (c : M A) (f : M unit) : M A :=
  fun w => match c w with
           | (r, w') =>
               match f w' with
               | (Ok _, w'') => (r, w'')
               | (Throw e, w'') => (Throw e, w'')
               end
           end.

(** A call of an [async] function that is not awaited: a rejection of its
    promise does not reach the caller. *)
Definition not_awaited {A} (c : M A) : M unit :=
  fun w => match c w with (_, w') => (Ok tt, w') end.

Definition modify (f : World -> World) : M unit := fun w => (Ok tt, f w).

Definition read {A} (f : World -> A) : M A := fun w => (Ok (f w), w).

Definition record (e : Event) (w : World) : World :=
  with_log (log w ++ [e]) w.

Definition emit (e : Event) : M unit := modify (record e).

Definition when (b : bool) (c : M unit) : M unit := if b then c else ret tt.

Fixpoint mapM {A B} (f : A -> M B) (l : list A) : M (list B) :=
  match l with
  | [] => ret []
  | x :: r => y <- f x ;; ys <- mapM f r ;; ret (y :: ys)
  end.

Definition exec {A} (c : M A) (w : World) : World := snd (c w).
Definition result {A} (c : M A) (w : World) : Res A := fst (c w).

(** *** DOM access *)

(** A use of [document.getElementById(id)] on a page that has no such
    element: a [TypeError], for the assignment to [textContent] or
    [innerHTML] as for the read of [classList], [style] or a method. *)
Definition null_element {A} (prop : string) : M A :=
  throw (mkError TypeError
           (if String.eqb prop "textContent" || String.eqb prop "innerHTML"
            then "Cannot set properties of null (setting '" +:+ prop +:+ "')"
            else "Cannot read properties of null (reading '" +:+ prop +:+ "')")).

Definition update_element (id prop : string) (f : Element -> Element) : M unit :=
  fun w => match dom w !! id with
           | Some e => (Ok tt, with_dom (<[id := f e]> (dom w)) w)
           | None => null_element prop w
           end.

(** [el.textContent = v]: [null] and [undefined] are written as the empty
    string. *)
Definition dom_string (v : jsval) : string :=
  match v with VNull | VUndefined => "" | _ => toString v end.

Definition setTextContent (id : string) (v : jsval) : M unit :=
  update_element id "textContent" (set_textContent (dom_string v)).

Definition setStyleWidth (id : string) (wd : string) : M unit :=
  update_element id "style" (set_style_width wd).

Definition setInnerHTML (id : string) (ns : list Node) : M unit :=
  update_element id "innerHTML" (set_innerHTML ns).

Definition classListAdd (id : string) (ts : list string) : M unit :=
  update_element id "classList" (fun e => set_classList (classList_add ts (classList e)) e).

Definition classListRemove (id : string) (ts : list string) : M unit :=
  update_element id "classList" (fun e => set_classList (classList_remove ts (classList e)) e).

(** *** Console and the NovaBot helpers *)

Definition console_error (label : string) (e : JsError) : M unit :=
  emit (Console "error" (label +:+ " " +:+ emessage e)).

Definition console_log (message : string) : M unit :=
  emit (Console "log" message).

Definition showToast (message : jsval) (type : string) : M unit :=
  emit (Toast (toString message) type).

Definition showLoading (show : bool) : M unit := emit (Loading show).

(** *** Timers *)

(** [setInterval(callback, ms)]: a fresh handle, greater than zero.  (The
    handles that [setTimeout] draws from the same pool are not modelled.) *)
Definition register_timer (cb : Callback) (ms : Z) (w : World) : World :=
  let h := nextHandle w in
  record (SetInterval h ms cb)
    (with_nextHandle (Pos.succ h)
       (with_timers (timers w ++ [mkTimer h ms cb]) w)).

Definition setInterval (cb : Callback) (ms : Z) : M positive :=
  fun w => (Ok (nextHandle w), register_timer cb ms w).

(** [clearInterval(h)]: the timer with that handle, if any, is removed. *)
Definition unregister_timer (h : positive) (w : World) : World :=
  record (ClearInterval h)
    (with_timers (filter (fun t => handle t <> h) (timers w)) w).

Definition clearInterval (h : positive) : M unit := modify (unregister_timer h).

(** ** The role API modules *)

(** Object spread [{...base, ...extra}] on header tables. *)
Definition spread (base extra : list (string * string)) : list (string * string) :=
  filter (fun kv => table_lookup extra (fst kv) = None) base ++ extra.

(** The second argument of [fetch] in the wrappers:
    [{ headers: {'Content-Type': 'application/json', ...options.headers}, ...options }]
    where the spread of [options] comes last and so replaces [headers] when
    [options] has its own. *)
Definition fetch_init (u : string) (options : Options) : Request :=
  let merged := spread [("Content-Type", "application/json")]
                       (default [] (opt_headers options)) in
  {| url := u;
     method := opt_method options;
     headers := default merged (opt_headers options);
     body := opt_body options |}.

(** A default parameter value applies to a missing ([undefined]) argument. *)
Definition default_param (d v : jsval) : jsval :=
  match v with VUndefined => d | _ => v end.

Section Browser.
Context (env : Env).

Definition fetch (req : Request) : M Response :=
  emit (Fetch req) ;;
  match net env req with
  | Rejected e => throw e
  | Responded r => ret r
  end.

(** [response.json()] *)
Definition json (r : Response) : M jsval :=
  match json_body r with
  | Some v => ret v
  | None => throw (mkError SyntaxError "Unexpected end of JSON input")
  end.
End Browser.

Module CaregiverAPI.
Definition baseURL : string := "/caregiver/api".
Definition patientId : string := "patient_001".

Section Methods.
Context (env : Env).

Definition _fetch (u : string) (options : Options) : M jsval :=
  try_catch
    (response <- fetch env (fetch_init u options) ;;
     (if negb (ok response)
      then throw (mkError Error ("HTTP error! status: " +:+ pretty (status response)))
      else ret tt) ;;
     json response)
    (fun error => console_error "API Error:" error ;; throw error).

Definition getPatientStatus : M jsval :=
  _fetch (baseURL +:+ "/patient/status/" +:+ patientId) no_options.

Definition getLocation : M jsval :=
  _fetch (baseURL +:+ "/patient/location/" +:+ patientId) no_options.

Definition getAlerts (limit severity : jsval) : M jsval :=
  let limit := default_param (VNum 50) limit in
  let severity := default_param VNull severity in
  let u := baseURL +:+ "/alerts/" +:+ patientId +:+ "?limit=" +:+ toString limit in
  let u := if truthy severity then u +:+ ("&severity=" +:+ toString severity) else u in
  _fetch u no_options.

Definition markAlertRead (alertId : jsval) : M jsval :=
  _fetch (baseURL +:+ "/alerts/" +:+ toString alertId +:+ "/read")
         {| opt_method := Some "POST"; opt_headers := None; opt_body := None |}.

Definition getBattery : M jsval :=
  _fetch (baseURL +:+ "/device/battery/" +:+ patientId) no_options.

Definition getVideoStream : M jsval :=
  _fetch (baseURL +:+ "/video/stream/" +:+ patientId) no_options.

Inductive Call :=
| GetPatientStatus
| GetLocation
| GetAlerts (limit severity : jsval)
| MarkAlertRead (alertId : jsval)
| GetBattery
| GetVideoStream.

Definition invoke (c : Call) : M jsval :=
  match c with
  | GetPatientStatus => getPatientStatus
  | GetLocation => getLocation
  | GetAlerts limit severity => getAlerts limit severity
  | MarkAlertRead alertId => markAlertRead alertId
  | GetBattery => getBattery
  | GetVideoStream => getVideoStream
  end.
End Methods.
End CaregiverAPI.

Module PrimaryUserAPI.
Definition baseURL : string := "/primary/api".

Section Methods.
Context (env : Env).

Definition _fetch (u : string) (options : Options) : M jsval :=
  try_catch
    (response <- fetch env (fetch_init u options) ;;
     (if negb (ok response)
      then throw (mkError Error ("HTTP error! status: " +:+ pretty (status response)))
      else ret tt) ;;
     json response)
    (fun error => console_error "API Error:" error ;; throw error).

Definition post (b : Body) : Options :=
  {| opt_method := Some "POST"; opt_headers := None; opt_body := Some b |}.

Definition post_image (imageData : string) : Options :=
  {| opt_method := Some "POST";
     opt_headers := Some [("Content-Type", "application/octet-stream")];
     opt_body := Some (RawData imageData) |}.

Definition getInputMode : M jsval :=
  _fetch (baseURL +:+ "/input-mode") no_options.

Definition setInputMode (mode : jsval) : M jsval :=
  _fetch (baseURL +:+ "/input-mode")
         (post (JsonStringify (VObj [("mode", mode)]))).

Definition getVisualFeedback : M jsval :=
  _fetch (baseURL +:+ "/visual-feedback") no_options.

Definition sendVisualFeedback (text duration : jsval) : M jsval :=
  let duration := default_param (VNum 5) duration in
  _fetch (baseURL +:+ "/visual-feedback")
         (post (JsonStringify (VObj [("text", text); ("duration", duration)]))).

Definition getNextMedication (userId : jsval) : M jsval :=
  let userId := default_param (VStr "default_user") userId in
  _fetch (baseURL +:+ "/medication/next?user_id=" +:+ toString userId) no_options.

Definition getMedicationSchedules (userId : jsval) : M jsval :=
  let userId := default_param (VStr "default_user") userId in
  _fetch (baseURL +:+ "/medication/schedules?user_id=" +:+ toString userId) no_options.

Definition queryMedical (question context : jsval) : M jsval :=
  let context := default_param (VObj []) context in
  _fetch (baseURL +:+ "/medical-query")
         (post (JsonStringify (VObj [("question", question); ("context", context)]))).

Definition getFollowModeStatus : M jsval :=
  _fetch (baseURL +:+ "/navigation/follow-mode") no_options.

Definition toggleFollowMode (activate personId : jsval) : M jsval :=
  let personId := default_param VNull personId in
  _fetch (baseURL +:+ "/navigation/follow-mode")
         (post (JsonStringify (VObj [("activate", activate); ("person_id", personId)]))).

Definition identifyObject (imageData : string) : M jsval :=
  _fetch (baseURL +:+ "/vision/identify") (post_image imageData).

Definition readText (imageData : string) : M jsval :=
  _fetch (baseURL +:+ "/vision/read-text") (post_image imageData).

Definition describeScene (imageData : string) : M jsval :=
  _fetch (baseURL +:+ "/vision/describe-scene") (post_image imageData).

Definition getSettings (userId : jsval) : M jsval :=
  let userId := default_param (VStr "default_user") userId in
  _fetch (baseURL +:+ "/settings?user_id=" +:+ toString userId) no_options.

Definition updateAccessibility (mode userId : jsval) : M jsval :=
  let userId := default_param (VStr "default_user") userId in
  _fetch (baseURL +:+ "/settings/accessibility")
         (post (JsonStringify (VObj [("user_id", userId); ("mode", mode)]))).

Definition updatePrivacy (sharingLevel userId : jsval) : M jsval :=
  let userId := default_param (VStr "default_user") userId in
  _fetch (baseURL +:+ "/settings/privacy")
         (post (JsonStringify (VObj [("user_id", userId); ("sharing_level", sharingLevel)]))).

Inductive Call :=
| GetInputMode
| SetInputMode (mode : jsval)
| GetVisualFeedback
| SendVisualFeedback (text duration : jsval)
| GetNextMedication (userId : jsval)
| GetMedicationSchedules (userId : jsval)
| QueryMedical (question context : jsval)
| GetFollowModeStatus
| ToggleFollowMode (activate personId : jsval)
| IdentifyObject (imageData : string)
| ReadText (imageData : string)
| DescribeScene (imageData : string)
| GetSettings (userId : jsval)
| UpdateAccessibility (mode userId : jsval)
| UpdatePrivacy (sharingLevel userId : jsval).

Definition invoke (c : Call) : M jsval :=
  match c with
  | GetInputMode => getInputMode
  | SetInputMode mode => setInputMode mode
  | GetVisualFeedback => getVisualFeedback
  | SendVisualFeedback text duration => sendVisualFeedback text duration
  | GetNextMedication userId => getNextMedication userId
  | GetMedicationSchedules userId => getMedicationSchedules userId
  | QueryMedical question context => queryMedical question context
  | GetFollowModeStatus => getFollowModeStatus
  | ToggleFollowMode activate personId => toggleFollowMode activate personId
  | IdentifyObject imageData => identifyObject imageData
  | ReadText imageData => readText imageData
  | DescribeScene imageData => describeScene imageData
  | GetSettings userId => getSettings userId
  | UpdateAccessibility mode userId => updateAccessibility mode userId
  | UpdatePrivacy sharingLevel userId => updatePrivacy sharingLevel userId
  end.
End Methods.
End PrimaryUserAPI.

Module EmergencyAPI.
Definition baseURL : string := "/emergency/api".

(** [init(emergencyId)]: the identifier the later calls use,
    [emergencyId || 'emg_001']. *)
Definition init (emergencyId : jsval) : jsval :=
  if truthy emergencyId then emergencyId else VStr "emg_001".

Section Methods.
Context (env : Env) (emergencyId : jsval).

Definition _fetch (u : string) (options : Options) : M jsval :=
  try_catch
    (response <- fetch env (fetch_init u options) ;;
     (if negb (ok response)
      then throw (mkError Error ("HTTP error! status: " +:+ pretty (status response)))
      else ret tt) ;;
     json response)
    (fun error => console_error "API Error:" error ;; throw error).

Definition post (b : Body) : Options :=
  {| opt_method := Some "POST"; opt_headers := None; opt_body := Some b |}.

Definition getEmergencyDetails : M jsval :=
  _fetch (baseURL +:+ "/emergency/" +:+ toString emergencyId) no_options.

Definition getCriticalData : M jsval :=
  _fetch (baseURL +:+ "/emergency/" +:+ toString emergencyId +:+ "/critical") no_options.

Definition updateStatus (status responderId notes : jsval) : M jsval :=
  let notes := default_param (VStr "") notes in
  _fetch (baseURL +:+ "/emergency/" +:+ toString emergencyId +:+ "/status")
         (post (JsonStringify (VObj [("status", status);
                                     ("responder_id", responderId);
                                     ("notes", notes)]))).

Definition getEnvironmentalData : M jsval :=
  _fetch (baseURL +:+ "/emergency/" +:+ toString emergencyId +:+ "/environmental") no_options.

Definition sendReassurance (message : jsval) : M jsval :=
  _fetch (baseURL +:+ "/emergency/" +:+ toString emergencyId +:+ "/reassure")
         (post (JsonStringify (VObj [("message", message)]))).

Definition getNearbyFacilities (lat lng : jsval) : M jsval :=
  _fetch (baseURL +:+ "/facilities?lat=" +:+ toString lat +:+ "&lng=" +:+ toString lng)
         no_options.

Inductive Call :=
| GetEmergencyDetails
| GetCriticalData
| UpdateStatus (status responderId notes : jsval)
| GetEnvironmentalData
| SendReassurance (message : jsval)
| GetNearbyFacilities (lat lng : jsval).

Definition invoke (c : Call) : M jsval :=
  match c with
  | GetEmergencyDetails => getEmergencyDetails
  | GetCriticalData => getCriticalData
  | UpdateStatus status responderId notes => updateStatus status responderId notes
  | GetEnvironmentalData => getEnvironmentalData
  | SendReassurance message => sendReassurance message
  | GetNearbyFacilities lat lng => getNearbyFacilities lat lng
  end.
End Methods.
End EmergencyAPI.

Module HealthProfessionalAPI.
Definition baseURL : string := "/health-professional/api".
Definition patientId : string := "patient_001".

Section Methods.
Context (env : Env).

Definition _fetch (u : string) (options : Options) : M jsval :=
  try_catch
    (response <- fetch env (fetch_init u options) ;;
     (if negb (ok response)
      then throw (mkError Error ("HTTP error! status: " +:+ pretty (status response)))
      else ret tt) ;;
     json response)
    (fun error => console_error "API Error:" error ;; throw error).

Definition getCurrentVitals : M jsval :=
  _fetch (baseURL +:+ "/patient/vitals/" +:+ patientId) no_options.

Definition getVitalsHistory (type hours : jsval) : M jsval :=
  let type := default_param VNull type in
  let hours := default_param (VNum 24) hours in
  let u := baseURL +:+ "/patient/vitals/" +:+ patientId +:+ "/history?hours=" +:+ toString hours in
  let u := if truthy type then u +:+ ("&type=" +:+ toString type) else u in
  _fetch u no_options.

Definition getHealthTrends : M jsval :=
  _fetch (baseURL +:+ "/patient/trends/" +:+ patientId) no_options.

Definition generateReport (reportType : jsval) : M jsval :=
  let reportType := default_param (VStr "comprehensive") reportType in
  _fetch (baseURL +:+ "/patient/report/" +:+ patientId)
         {| opt_method := Some "POST"; opt_headers := None;
            opt_body := Some (JsonStringify (VObj [("type", reportType)])) |}.

Definition getMedicationAdherence : M jsval :=
  _fetch (baseURL +:+ "/patient/medication-adherence/" +:+ patientId) no_options.

Definition getFallIncidents (days : jsval) : M jsval :=
  let days := default_param (VNum 30) days in
  _fetch (baseURL +:+ "/patient/falls/" +:+ patientId +:+ "?days=" +:+ toString days) no_options.

Inductive Call :=
| GetCurrentVitals
| GetVitalsHistory (type hours : jsval)
| GetHealthTrends
| GenerateReport (reportType : jsval)
| GetMedicationAdherence
| GetFallIncidents (days : jsval).

Definition invoke (c : Call) : M jsval :=
  match c with
  | GetCurrentVitals => getCurrentVitals
  | GetVitalsHistory type hours => getVitalsHistory type hours
  | GetHealthTrends => getHealthTrends
  | GenerateReport reportType => generateReport reportType
  | GetMedicationAdherence => getMedicationAdherence
  | GetFallIncidents days => getFallIncidents days
  end.
End Methods.
End HealthProfessionalAPI.


(** ** The caregiver dashboard controller *)

(** The tokens of a [class] attribute. *)
Fixpoint split_tokens (s : string) (cur : string) : list string :=
  match s with
  | EmptyString => if String.eqb cur "" then [] else [cur]
  | String c r =>
      if is_space c
      then (if String.eqb cur "" then split_tokens r "" else cur :: split_tokens r "")
      else split_tokens r (cur +:+ String c EmptyString)
  end.

Definition class_tokens (s : string) : list string := split_tokens s "".

Definition alert_items (ns : list Node) : list AlertItem :=
  omap (fun n => match n with AlertItemNode it => Some it | _ => None end) ns.

(** The selector [.alert-item[data-unread="true"]]. *)
Definition unread_item (it : AlertItem) : bool :=
  token_in "alert-item" (class_tokens (class_attr it)) &&
  bool_decide (data_unread it = Some "true").

Definition addEventListener (l : Listener) (it : AlertItem) : AlertItem :=
  {| class_attr := class_attr it; data_alert_id := data_alert_id it;
     data_unread := data_unread it; badge_class_attr := badge_class_attr it;
     severity_text := severity_text it; type_text := type_text it;
     message_text := message_text it; unread_dot := unread_dot it;
     location_text := location_text it; time_text := time_text it;
     listeners := listeners it ++ [l] |}.

Module CaregiverUI.

Definition severityColors : list (string * string) :=
  [("critical", "bg-red-50 border-red-300");
   ("high", "bg-orange-50 border-orange-300");
   ("medium", "bg-yellow-50 border-yellow-300");
   ("low", "bg-blue-50 border-blue-300")].

Definition severityBadges : list (string * string) :=
  [("critical", "bg-red-500");
   ("high", "bg-orange-500");
   ("medium", "bg-yellow-500");
   ("low", "bg-blue-500")].

Section Controller.
Context (env : Env).

Definition loadPatientStatus : M unit :=
  try_catch
    (result <- CaregiverAPI.getPatientStatus env ;;
     success <- lift (get result "success") ;;
     if truthy success then
       status <- lift (get result "status") ;;
       current_activity <- lift (get status "current_activity") ;;
       setTextContent "currentActivity" current_activity ;;
       location <- lift (get status "location") ;;
       setTextContent "currentLocation" location ;;
       last_movement <- lift (get status "last_movement") ;;
       setTextContent "lastMovement" last_movement ;;
       wellbeing_score <- lift (get status "wellbeing_score") ;;
       setTextContent "wellbeingScore" (VStr (toString wellbeing_score +:+ "/10"))
     else ret tt)
    (fun error =>
       console_error "Failed to load patient status:" error ;;
       showToast (VStr "Failed to load patient status") "error").

Definition loadBattery : M unit :=
  try_catch
    (result <- CaregiverAPI.getBattery env ;;
     success <- lift (get result "success") ;;
     if truthy success then
       battery <- lift (get result "battery") ;;
       level <- lift (get battery "level") ;;
       setTextContent "batteryLevel" (VStr (toString level +:+ "%")) ;;
       setStyleWidth "batteryBar" (toString level +:+ "%") ;;
       classListRemove "batteryBar" ["bg-green-500"; "bg-yellow-500"; "bg-red-500"] ;;
       (if js_gt level 50 then classListAdd "batteryBar" ["bg-green-500"]
        else if js_gt level 20 then classListAdd "batteryBar" ["bg-yellow-500"]
        else classListAdd "batteryBar" ["bg-red-500"]) ;;
       when (js_lt level 20)
            (showToast (VStr ("Warning: Battery low (" +:+ toString level +:+ "%)")) "warning")
     else ret tt)
    (fun error => console_error "Failed to load battery:" error).

(** The markup one alert maps to in [renderAlerts].  Each interpolated field
    is held as the text the template prints for it; [innerHTML] parses that
    text, so the entry is the one the page gets only for fields that are
    plain text ([plain_value]): markup in a field would become elements. *)
Definition alertTemplate (alert : jsval) : M AlertItem :=
  severity <- lift (get alert "severity") ;;
  let colorClass := lookup_or severityColors severity "bg-gray-50 border-gray-300" in
  let badgeClass := lookup_or severityBadges severity "bg-gray-500" in
  read_flag <- lift (get alert "read") ;;
  let opacity := if truthy read_flag then "opacity-50" else "" in
  id <- lift (get alert "id") ;;
  type <- lift (get alert "type") ;;
  message <- lift (get alert "message") ;;
  location <- lift (get alert "location") ;;
  timestamp <- lift (get alert "timestamp") ;;
  ret {| class_attr :=
           "alert-item " +:+ colorClass +:+ " " +:+ opacity +:+
           " border-2 rounded-lg p-4 cursor-pointer hover:shadow-md transition-all";
         data_alert_id := toString id;
         data_unread := if negb (truthy read_flag) then Some "true" else None;
         badge_class_attr :=
           badgeClass +:+ " text-white px-2 py-1 rounded text-xs font-bold uppercase";
         severity_text := toString severity;
         type_text := toString type;
         message_text := toString message;
         unread_dot := negb (truthy read_flag);
         location_text := "📍 " +:+ toString location;
         time_text := formatRelativeTime env timestamp;
         listeners := [] |}.

Definition renderAlerts (alerts : jsval) : M unit :=
  len <- lift (js_length alerts) ;;
  if strict_eq_num len 0 then
    setInnerHTML "alertsList" [NoAlertsParagraph]
  else
    items <- match alerts with
             | VArr l => mapM alertTemplate l
             | _ => throw (mkError TypeError "alerts.map is not a function")
             end ;;
    setInnerHTML "alertsList" (map AlertItemNode items) ;;
    (* Add click handlers *)
    update_element "alertsList" "querySelectorAll"
      (fun e => set_innerHTML
         (map (fun n => match n with
                        | AlertItemNode it =>
                            AlertItemNode (if unread_item it
                                           then addEventListener OnClickMarkAlertRead it
                                           else it)
                        | _ => n
                        end) (nodes e)) e).

Definition loadAlerts : M unit :=
  try_catch
    (filter <- read currentFilter ;;
     let severity := if strict_eq_str filter "all" then VNull else filter in
     result <- CaregiverAPI.getAlerts env (VNum 50) severity ;;
     success <- lift (get result "success") ;;
     if truthy success then
       alerts <- lift (get result "alerts") ;;
       renderAlerts alerts ;;
       unread <- lift (get result "unread") ;;
       setTextContent "unreadCount" unread ;;
       (* Hide badge if no unread *)
       if strict_eq_num unread 0
       then classListAdd "unreadCount" ["hidden"]
       else classListRemove "unreadCount" ["hidden"]
     else ret tt)
    (fun error => console_error "Failed to load alerts:" error).

Definition markAlertRead (alertId : jsval) : M unit :=
  try_catch
    (result <- CaregiverAPI.markAlertRead env alertId ;;
     success <- lift (get result "success") ;;
     if truthy success then
       (* Reload alerts *)
       not_awaited loadAlerts
     else ret tt)
    (fun error => console_error "Failed to mark alert as read:" error).

(** A click on the [i]-th entry of the alert list runs its listeners. *)
Definition run_listener (it : AlertItem) (l : Listener) : M unit :=
  match l with
  | OnClickMarkAlertRead =>
      let alertId := VStr (data_alert_id it) in
      not_awaited (markAlertRead alertId)
  end.

Definition click_alert (i : nat) : M unit :=
  container <- read (fun w => dom w !! "alertsList") ;;
  match container with
  | Some e =>
      match alert_items (nodes e) !! i with
      | Some it => mapM (run_listener it) (listeners it) ;; ret tt
      | None => ret tt
      end
  | None => ret tt
  end.

Definition startPolling : M unit :=
  (* Poll patient status every 10 seconds *)
  setInterval LoadPatientStatus 10000 ;;
  (* Poll location every 30 seconds *)
  setInterval LoadLocation 30000 ;;
  (* Poll battery every 60 seconds *)
  setInterval LoadBattery 60000 ;;
  (* Poll alerts every 15 seconds *)
  setInterval LoadAlerts 15000 ;;
  ret tt.

End Controller.
End CaregiverUI.

(** ** The primary user dashboard controller *)

Module PrimaryUserUI.
Section Controller.
Context (env : Env).

Definition updateFollowModeUI (active : bool) : M unit :=
  if active then
    classListRemove "followModeToggle" ["bg-gray-300"] ;;
    classListAdd "followModeToggle" ["bg-green-500"] ;;
    classListRemove "followModeSlider" ["translate-x-2"] ;;
    classListAdd "followModeSlider" ["translate-x-18"] ;;
    setTextContent "followModeStatus" (VStr "âœ“ Following active") ;;
    classListRemove "followModeStatus" ["text-gray-600"] ;;
    classListAdd "followModeStatus" ["text-green-600"]
  else
    classListRemove "followModeToggle" ["bg-green-500"] ;;
    classListAdd "followModeToggle" ["bg-gray-300"] ;;
    classListRemove "followModeSlider" ["translate-x-18"] ;;
    classListAdd "followModeSlider" ["translate-x-2"] ;;
    setTextContent "followModeStatus" (VStr "Following inactive") ;;
    classListRemove "followModeStatus" ["text-green-600"] ;;
    classListAdd "followModeStatus" ["text-gray-600"].

Definition loadFollowMode : M unit :=
  try_catch
    (result <- PrimaryUserAPI.getFollowModeStatus env ;;
     success <- lift (get result "success") ;;
     if truthy success then
       status <- lift (get result "status") ;;
       is_active <- lift (get status "is_active") ;;
       modify (with_followModeActive is_active) ;;
       updateFollowModeUI (truthy is_active)
     else ret tt)
    (fun error => console_error "Failed to load follow mode:" error).

Definition toggleFollowMode : M unit :=
  try_finally
    (try_catch
       (showLoading true ;;
        flag <- read followModeActive ;;
        let activate := negb (truthy flag) in
        let personId := if activate then VStr "primary_caregiver" else VNull in
        result <- PrimaryUserAPI.toggleFollowMode env (VBool activate) personId ;;
        success <- lift (get result "success") ;;
        if truthy success then
          modify (with_followModeActive (VBool activate)) ;;
          updateFollowModeUI activate ;;
          message <- lift (get result "message") ;;
          showToast message "success"
        else
          message <- lift (get result "message") ;;
          showToast message "error")
       (fun error => showToast (VStr "Failed to toggle follow mode") "error"))
    (showLoading false).

Definition loadNextMedication : M unit :=
  let nothing_scheduled :=
    setTextContent "medName" (VStr "No medications scheduled") ;;
    setTextContent "medDosage" (VStr "") ;;
    setTextContent "medTime" (VStr "") in
  try_catch
    (result <- PrimaryUserAPI.getNextMedication env VUndefined ;;
     success <- lift (get result "success") ;;
     if truthy success then
       next_medication <- lift (get result "next_medication") ;;
       if truthy next_medication then
         let med := next_medication in
         name <- lift (get med "name") ;;
         setTextContent "medName" name ;;
         dosage <- lift (get med "dosage") ;;
         setTextContent "medDosage" (VStr ("Dosage: " +:+ toString dosage)) ;;
         scheduled_time <- lift (get med "scheduled_time") ;;
         time_until <- lift (get med "time_until") ;;
         setTextContent "medTime"
           (VStr ("Scheduled: " +:+ toString scheduled_time +:+
                  " (" +:+ toString time_until +:+ ")"))
       else nothing_scheduled
     else nothing_scheduled)
    (fun error =>
       console_error "Failed to load medication:" error ;;
       setTextContent "medName" (VStr "Error loading medication")).

Definition startPolling : M unit :=
  (* Poll for visual feedback every 5 seconds *)
  setInterval LoadVisualFeedback 5000 ;;
  (* Poll for medication updates every 30 seconds *)
  setInterval LoadNextMedication 30000 ;;
  ret tt.

End Controller.
End PrimaryUserUI.

(** ** The health professional and emergency controllers *)

Module HealthProfessionalUI.

Definition updateStatusBadge (elementId : string) (status : jsval) : M unit :=
  classListRemove elementId
    ["bg-accent-green/20"; "text-accent-green"; "bg-accent-orange/20";
     "text-accent-orange"; "bg-accent-red/20"; "text-accent-red"] ;;
  lowered <- lift (call_toLowerCase status) ;;
  if String.eqb lowered "normal" then
    classListAdd elementId ["bg-accent-green/20"; "text-accent-green"]
  else
    lowered <- lift (call_toLowerCase status) ;;
    if String.eqb lowered "warning" then
      classListAdd elementId ["bg-accent-orange/20"; "text-accent-orange"]
    else
      classListAdd elementId ["bg-accent-red/20"; "text-accent-red"].

Section Controller.
Context (env : Env).


Definition generateReport : M unit :=
  try_finally
    (try_catch
       (showLoading true ;;
        result <- HealthProfessionalAPI.generateReport env (VStr "comprehensive") ;;
        success <- lift (get result "success") ;;
        if truthy success then
          showToast (VStr "Report generated successfully!") "success" ;;
          (* Show download link *)
          report <- lift (get result "report") ;;
          type <- lift (get report "type") ;;
          id <- lift (get report "id") ;;
          prefix <- lift (call_substring id 8) ;;
          let message :=
            "Report ready: " +:+ toString type +:+ " (ID: " +:+ prefix +:+ "...)" in
          showToast (VStr message) "info" ;;
          download_url <- lift (get report "download_url") ;;
          console_log ("Download URL: " +:+ toString download_url)
        else ret tt)
       (fun error => showToast (VStr "Failed to generate report") "error"))
    (showLoading false).

End Controller.

Definition startPolling : M unit :=
  (* Poll vitals every 30 seconds *)
  setInterval LoadCurrentVitals 30000 ;;
  (* Refresh trends every 5 minutes *)
  setInterval RefreshTrends 300000 ;;
  ret tt.

End HealthProfessionalUI.

Module EmergencyUI.

Definition startTimer : M unit :=
  setInterval ElapsedTimer 1000 ;;
  ret tt.

(** The callback of [startTimer], at the clock reading [now]; [startTime] is
    the reading the constructor took (both in milliseconds). *)
Definition timer_callback (startTime now : Z) : M unit :=
  let elapsed := (now - startTime) / 1000 in
  let hours := padStart 2 "0" (pretty (elapsed / 3600)) in
  let minutes := padStart 2 "0" (pretty (Z.rem elapsed 3600 / 60)) in
  let seconds := padStart 2 "0" (pretty (Z.rem elapsed 60)) in
  setTextContent "timeElapsed" (VStr (hours +:+ ":" +:+ minutes +:+ ":" +:+ seconds)).

Section Controller.
Context (env : Env) (emergencyId : jsval).

Definition sendReassurance : M unit :=
  try_finally
    (try_catch
       (let message :=
          VStr "Help is on the way. Please stay calm. Emergency responders will be with you shortly." in
        showLoading true ;;
        result <- EmergencyAPI.sendReassurance env emergencyId message ;;
        success <- lift (get result "success") ;;
        if truthy success
        then showToast (VStr "Reassurance message sent to patient") "success"
        else ret tt)
       (fun error => showToast (VStr "Failed to send reassurance") "error"))
    (showLoading false).

End Controller.
End EmergencyUI.

(** ** main.js: the operator dashboard *)

(** [element.remove()] on the last entry that satisfies [p]. *)
Fixpoint remove_last {A} (p : A -> bool) (l : list A) : list A :=
  match l with
  | [] => []
  | x :: r =>
      if existsb p r then x :: remove_last p r
      else if p x then r else x :: r
  end.

Definition is_activity_item (n : ActivityNode) : bool :=
  token_in "activity-item" (node_class n).

Module Main.

Definition iconColors : list (string * string) :=
  [("success", "bg-success-soft");
   ("danger", "bg-danger-soft");
   ("warning", "bg-warning-soft");
   ("info", "bg-info-soft")].

Definition icons : list (string * string) :=
  [("success", "fa-check text-success");
   ("danger", "fa-exclamation-triangle text-danger");
   ("warning", "fa-bell text-warning");
   ("info", "fa-info-circle text-info")].

Definition selectors : list (string * string) :=
  [("alerts", ".bg-primary-gradient .kpi-value");
   ("uptime", ".bg-success-gradient .kpi-value");
   ("camera", ".bg-warning-gradient .kpi-value");
   ("mqtt", ".bg-info-gradient .kpi-value")].

(** The elements [updateKPICard] looks up are kept in [dom] under their
    selector; a card that is not on the page is skipped, and so is a type
    the table does not know ([querySelector(undefined)] finds nothing).  An
    inherited property is no selector. *)
Definition updateKPICard (type : string) (value : jsval) : M unit :=
  match table_index selectors type with
  | Some (Own selector) =>
      element <- read (fun w => dom w !! selector) ;;
      match element with
      | Some _ => setTextContent selector value
      | None => ret tt
      end
  | Some (Inherited text) =>
      throw (mkError SyntaxError
               ("Failed to execute 'querySelector' on 'Document': '" +:+ text +:+
                "' is not a valid selector."))
  | None => ret tt
  end.

(** The title and the time are held as the text the template prints;
    [insertAdjacentHTML] parses it, so the node is the one the page gets for
    plain text (the callers in this script pass literals). *)
Definition addActivityItem (title time type : jsval) : M unit :=
  let type := default_param (VStr "info") type in
  activityList <- read activity_list ;;
  match activityList with
  | None => ret tt
  | Some children =>
      let html :=
        {| node_class := ["activity-item"];
           icon_color := lookup_or iconColors type "bg-info-soft";
           icon := lookup_or icons type "fa-info-circle text-info";
           title_text := toString title;
           time_label := toString time |} in
      let children := html :: children in
      (* Keep only last 5 items *)
      let items := filter (fun n => is_activity_item n = true) children in
      let children :=
        if (5 <? Z.of_nat (List.length items))
        then remove_last is_activity_item children
        else children in
      modify (with_activity_list (Some children))
  end.

Definition maxBeeps : Z := 9.

(** [playBeep(frequency, duration)]: one oscillator, started now and stopped
    after [duration] seconds. *)
Definition playBeep (frequency : Z) (duration : Q) : M unit :=
  emit (Beep frequency duration).

Definition find_timer (h : positive) (ts : list Timer) : option Timer :=
  List.find (fun t => Pos.eqb (handle t) h) ts.

Definition set_callback (h : positive) (cb : Callback) (ts : list Timer) : list Timer :=
  map (fun t => if Pos.eqb (handle t) h then mkTimer (handle t) (period t) cb else t) ts.

(** The callback of the alarm interval with handle [h], whose closure holds
    [beepCount]. *)
Definition alarm_callback (h : positive) (beepCount : Z) : M unit :=
  if (maxBeeps <=? beepCount) then
    a <- read alarmInterval ;;
    match a with
    | Some h' => clearInterval h'
    | None => ret tt
    end ;;
    modify (with_alarmInterval None)
  else
    (* Alternate between high and low frequency for siren effect *)
    let freq := if (beepCount mod 2 =? 0) then 880 else 660 in
    playBeep freq 0.15 ;;
    modify (fun w => with_timers (set_callback h (AlarmTick (beepCount + 1)) (timers w)) w).

(** One firing of the interval [h], when it is an alarm interval that is
    still registered. *)
Definition alarm_tick (h : positive) : M unit :=
  t <- read (fun w => find_timer h (timers w)) ;;
  match t with
  | Some {| callback := AlarmTick beepCount |} => alarm_callback h beepCount
  | _ => ret tt
  end.

Fixpoint alarm_ticks (n : nat) (h : positive) : M unit :=
  match n with
  | O => ret tt
  | S n' => alarm_tick h ;; alarm_ticks n' h
  end.

Section Page.
Context (env : Env).

Definition loadDashboardStats : M unit :=
  try_catch
    (response <- fetch env {| url := "/api/stats"; method := None; headers := []; body := None |} ;;
     (if negb (ok response)
      then throw (mkError Error "Failed to fetch stats")
      else ret tt) ;;
     data <- json response ;;
     (* Update KPI cards *)
     unacknowledged_alerts <- lift (get data "unacknowledged_alerts") ;;
     updateKPICard "alerts" unacknowledged_alerts ;;
     device_uptime <- lift (get data "device_uptime") ;;
     updateKPICard "uptime" (VStr (toString device_uptime +:+ "%")) ;;
     camera_status <- lift (get data "camera_status") ;;
     updateKPICard "camera"
       (VStr (if strict_eq_str camera_status "active" then "Active" else "Inactive")) ;;
     mqtt_status <- lift (get data "mqtt_status") ;;
     updateKPICard "mqtt"
       (VStr (if strict_eq_str mqtt_status "connected" then "Connected" else "Offline")))
    (fun error => console_log ("Stats API not available: " +:+ emessage error)).

Definition loadAlerts : M jsval :=
  try_catch
    (response <- fetch env {| url := "/api/alerts?per_page=10"; method := None;
                              headers := []; body := None |} ;;
     (if negb (ok response)
      then throw (mkError Error "Failed to fetch alerts")
      else ret tt) ;;
     data <- json response ;;
     lift (get data "alerts"))
    (fun error =>
       console_log ("Alerts API not available: " +:+ emessage error) ;;
       ret (VArr [])).

Definition playAlertSound : M unit :=
  try_catch
    ((if audioContext env then ret tt
      else throw (mkError TypeError "window.AudioContext is not a constructor")) ;;
     let beepCount := 0 in
     (* Clear any existing alarm *)
     a <- read alarmInterval ;;
     match a with
     | Some h => clearInterval h
     | None => ret tt
     end ;;
     (* Play repeating alarm pattern *)
     playBeep 880 0.15 ;;
     let beepCount := beepCount + 1 in
     h <- setInterval (AlarmTick beepCount) 200 ;;
     modify (with_alarmInterval (Some h)) ;;
     (* Also show browser notification if permitted *)
     match notification env with
     | None => throw (mkError ReferenceError "Notification is not defined")
     | Some Granted => emit (ShowNotification "🚨 FALL DETECTED!")
     | Some Denied => ret tt
     | Some DefaultPermission => emit RequestPermission
     end)
    (fun e => console_log ("Audio not supported: " +:+ emessage e)).

(** The timers of the [DOMContentLoaded] handler, after the first
    [loadDashboardStats()].  (Its other calls, [initSocketIO], [initCharts],
    [initSidebar] and [updateTime], register no interval.) *)
Definition DOMContentLoaded : M unit :=
  not_awaited loadDashboardStats ;;
  setInterval UpdateTime 60000 ;;
  setInterval LoadDashboardStats 30000 ;;
  ret tt.

End Page.

Definition stopAlarm : M unit :=
  a <- read alarmInterval ;;
  match a with
  | Some h => clearInterval h ;; modify (with_alarmInterval None)
  | None => ret tt
  end.

End Main.

(** The older dashboard script that ships next to the caregiver API. *)
Module Dashboard.

Definition DOMContentLoaded : M unit :=
  setInterval UpdateTime 60000 ;;
  ret tt.

End Dashboard.

(** ** Initial page and views of the log *)

Definition empty_page : World :=
  {| dom := ∅; activity_list := None;
     followModeActive := VBool false; currentFilter := VStr "all";
     timers := []; nextHandle := 1%positive;
     alarmInterval := None; log := [] |}.

Definition fetches (l : list Event) : list Request :=
  omap (fun e => match e with Fetch r => Some r | _ => None end) l.

Definition beeps (l : list Event) : list Z :=
  omap (fun e => match e with Beep f _ => Some f | _ => None end) l.

Definition toasts (l : list Event) : list (string * string) :=
  omap (fun e => match e with Toast m t => Some (m, t) | _ => None end) l.

Definition cleared (l : list Event) : list positive :=
  omap (fun e => match e with ClearInterval h => Some h | _ => None end) l.

Definition registered (l : list Event) : list (positive * Z * Callback) :=
  omap (fun e => match e with SetInterval h ms cb => Some (h, ms, cb) | _ => None end) l.

(** ** The four roles side by side *)

Definition api_baseURL (c : Controller) : string :=
  match c with
  | Caregiver => CaregiverAPI.baseURL
  | PrimaryUser => PrimaryUserAPI.baseURL
  | HealthProfessional => HealthProfessionalAPI.baseURL
  | Emergency => EmergencyAPI.baseURL
  end.

Definition api_fetch (c : Controller) (env : Env) : string -> Options -> M jsval :=
  match c with
  | Caregiver => CaregiverAPI._fetch env
  | PrimaryUser => PrimaryUserAPI._fetch env
  | HealthProfessional => HealthProfessionalAPI._fetch env
  | Emergency => EmergencyAPI._fetch env
  end.

(** A call of a method of one of the API objects. *)
Inductive ApiCall :=
| CaregiverCall (c : CaregiverAPI.Call)
| PrimaryUserCall (c : PrimaryUserAPI.Call)
| HealthProfessionalCall (c : HealthProfessionalAPI.Call)
| EmergencyCall (emergencyId : jsval) (c : EmergencyAPI.Call).

Definition api_of (c : ApiCall) : Controller :=
  match c with
  | CaregiverCall _ => Caregiver
  | PrimaryUserCall _ => PrimaryUser
  | HealthProfessionalCall _ => HealthProfessional
  | EmergencyCall _ _ => Emergency
  end.

Definition api_invoke (env : Env) (c : ApiCall) : M jsval :=
  match c with
  | CaregiverCall c => CaregiverAPI.invoke env c
  | PrimaryUserCall c => PrimaryUserAPI.invoke env c
  | HealthProfessionalCall c => HealthProfessionalAPI.invoke env c
  | EmergencyCall emergencyId c => EmergencyAPI.invoke env emergencyId c
  end.

Definition ends_with (suffix s : string) : bool :=
  String.prefix (String.rev suffix) (String.rev s).

(** [startPolling] of a controller; the emergency controller has none (its
    only interval is the one of [startTimer]). *)
Definition startPolling (c : Controller) : M unit :=
  match c with
  | Caregiver => CaregiverUI.startPolling
  | PrimaryUser => PrimaryUserUI.startPolling
  | HealthProfessional => HealthProfessionalUI.startPolling
  | Emergency => ret tt
  end.

(** The timers a computation adds to the ones that are running. *)
Definition started {A} (c : M A) (w : World) : list Timer :=
  drop (List.length (timers w)) (timers (exec c w)).

(** The events a computation adds to the log. *)
Definition emitted {A} (c : M A) (w : World) : list Event :=
  drop (List.length (log w)) (log (exec c w)).

(** Whether the response to a request is a success envelope: a 2xx status and
    a JSON body with a truthy [success]. *)
Definition succeeds (env : Env) (req : Request) : bool :=
  match net env req with
  | Responded r =>
      ok r &&
      match json_body r with
      | Some payload =>
          match get payload "success" with
          | Ok s => truthy s
          | Throw _ => false
          end
      | None => false
      end
  | Rejected _ => false
  end.

(** ** The page over time *)

Definition is_alarm (cb : Callback) : bool :=
  match cb with AlarmTick _ => true | _ => false end.

Definition timer_event (e : Event) : bool :=
  match e with SetInterval _ _ _ | ClearInterval _ => true | _ => false end.

Definition no_timer_event (e : Event) : bool := negb (timer_event e).

(** [quiet P w w']: from [w] to [w'] no timer is started or cleared,
    [alarmInterval] is not assigned, and every event added to the log
    satisfies [P]. *)
Definition quiet (P : Event -> bool) (w w' : World) : Prop :=
  timers w' = timers w /\
  nextHandle w' = nextHandle w /\
  alarmInterval w' = alarmInterval w /\
  exists evs : list Event, log w' = log w ++ evs /\ forallb P evs = true.

(** The effect of code that has no [setInterval], no [clearInterval] and no
    assignment to [alarmInterval]: the polling callbacks, the event handlers
    and the rendering functions. *)
Definition timer_free : World -> World -> Prop := quiet no_timer_event.

Inductive step : World -> World -> Prop :=
| step_startPolling c w :
    step w (exec (startPolling c) w)
| step_startTimer w :
    step w (exec EmergencyUI.startTimer w)
| step_DOMContentLoaded env w :
    step w (exec (Main.DOMContentLoaded env) w)
| step_Dashboard_DOMContentLoaded w :
    step w (exec Dashboard.DOMContentLoaded w)
| step_playAlertSound env w :
    step w (exec (Main.playAlertSound env) w)
| step_stopAlarm w :
    step w (exec Main.stopAlarm w)
| step_alarm_tick h w :
    step w (exec (Main.alarm_tick h) w)
| step_other w w' :
    timer_free w w' -> step w w'.

Definition reachable (w : World) : Prop := rtc step empty_page w.

(** The siren: [880] on even beeps, [660] on odd ones. *)
Definition tone (k : nat) : Z := if Nat.even k then 880 else 660.

Definition siren (n : nat) : list Z := map tone (seq 0 n).

(** ** Vocabulary of the statements *)

(** What a fetch wrapper hands back for one call, read off the network. *)
Definition fetch_outcome (env : Env) (u : string) (options : Options) : Res jsval :=
  match net env (fetch_init u options) with
  | Rejected e => Throw e
  | Responded r =>
      if ok r then
        match json_body r with
        | Some v => Ok v
        | None => Throw (mkError SyntaxError "Unexpected end of JSON input")
        end
      else Throw (mkError Error ("HTTP error! status: " +:+ pretty (status r)))
  end.

Definition throws {A} (r : Res A) : Prop := exists e, r = Throw e.

(** The request is answered with a 2xx status and the JSON body [payload]. *)
Definition responds (env : Env) (req : Request) (payload : jsval) : Prop :=
  exists r, net env req = Responded r /\ ok r = true /\ json_body r = Some payload.

(** The envelope [{ success: true, ... }]. *)
Definition success (payload : jsval) : Prop :=
  exists s, get payload "success" = Ok s /\ truthy s = true.

(** A field of a record of a payload. *)
Definition field (a : jsval) (k : string) : jsval :=
  match get a k with Ok v => v | Throw _ => VUndefined end.

Definition is_object (a : jsval) : Prop := exists fields, a = VObj fields.

(** No request goes out and the controller fields stay as they are. *)
Definition no_fetch (w w' : World) : Prop :=
  followModeActive w' = followModeActive w /\
  currentFilter w' = currentFilter w /\
  exists evs : list Event, log w' = log w ++ evs /\ fetches evs = [].

(** Every run of [c] relates the world before to the world after by [R]. *)
Definition framed (R : World -> World -> Prop) {A} (c : M A) : Prop :=
  forall w, R w (exec c w).

(** *** Timers *)

(** [h] was handed out by the [setInterval] of [playAlertSound]. *)
Definition alarm_handle (w : World) (h : positive) : Prop :=
  exists ms cb, SetInterval h ms cb ∈ log w /\ is_alarm cb = true.

(** What holds of the timers of every page the scripts can reach. *)
Record Inv (w : World) : Prop := mkInv {
  inv_log_fresh : forall h ms cb,
    SetInterval h ms cb ∈ log w -> (h < nextHandle w)%positive;
  inv_timers_logged : forall t,
    t ∈ timers w ->
    exists ms cb, SetInterval (handle t) ms cb ∈ log w /\ is_alarm cb = is_alarm (callback t);
  inv_alarmInterval : forall h, alarmInterval w = Some h -> alarm_handle w h;
  inv_cleared : forall h, ClearInterval h ∈ log w -> alarm_handle w h;
  inv_kind : forall h ms cb ms' cb',
    SetInterval h ms cb ∈ log w -> SetInterval h ms' cb' ∈ log w ->
    is_alarm cb = is_alarm cb';
  inv_running : forall h ms cb,
    SetInterval h ms cb ∈ log w -> is_alarm cb = false -> mkTimer h ms cb ∈ timers w
}.

(** The alarm interval [h] is the last timer, its closure holds
    [beepCount = k], and [alarmInterval] points to it. *)
Definition alarm_state (ts : list Timer) (h : positive) (k : Z) (w : World) : Prop :=
  timers w = ts ++ [mkTimer h 200 (AlarmTick k)] /\
  alarmInterval w = Some h /\
  Forall (fun t => handle t <> h) ts.

(** *** Caregiver dashboard *)

Definition battery_color (n : Z) : string :=
  if 50 <? n then "bg-green-500"
  else if 20 <? n then "bg-yellow-500"
  else "bg-red-500".

Definition battery_warning (n : Z) : list Event :=
  if n <? 20 then [Toast ("Warning: Battery low (" +:+ pretty n +:+ "%)") "warning"] else [].

Definition severity_color (severity : jsval) : string :=
  lookup_or CaregiverUI.severityColors severity "bg-gray-50 border-gray-300".

Definition severity_badge (severity : jsval) : string :=
  lookup_or CaregiverUI.severityBadges severity "bg-gray-500".

(** The requests the statements name are written out in full: address,
    method, headers and body. *)
Definition json_headers : list (string * string) :=
  [("Content-Type", "application/json")].

(** [GET u] *)
Definition get_request (u : string) : Request :=
  {| url := u; method := None; headers := json_headers; body := None |}.

(** [POST u] with the JSON text of [payload] as its body. *)
Definition post_request (u : string) (payload : jsval) : Request :=
  {| url := u; method := Some "POST"; headers := json_headers;
     body := Some (JsonStringify payload) |}.


(** The request of [loadAlerts] under the filter [filter]. *)
Definition alerts_request (filter : jsval) : Request :=
  let severity := if strict_eq_str filter "all" then VNull else filter in
  get_request
    (if truthy severity
     then "/caregiver/api/alerts/patient_001?limit=50" +:+ ("&severity=" +:+ toString severity)
     else "/caregiver/api/alerts/patient_001?limit=50").


(** The entry [it] of the alert list shows the alert [a]. *)
Record alert_rendered (env : Env) (a : jsval) (it : AlertItem) : Prop := {
  rendered_class :
    class_attr it =
      "alert-item " +:+ severity_color (field a "severity") +:+ " " +:+
      (if truthy (field a "read") then "opacity-50" else "") +:+
      " border-2 rounded-lg p-4 cursor-pointer hover:shadow-md transition-all";
  rendered_badge :
    badge_class_attr it =
      severity_badge (field a "severity") +:+
      " text-white px-2 py-1 rounded text-xs font-bold uppercase";
  rendered_id : data_alert_id it = toString (field a "id");
  rendered_unread_attr : data_unread it = Some "true" <-> truthy (field a "read") = false;
  rendered_unread_dot : unread_dot it = true <-> truthy (field a "read") = false;
  rendered_listeners :
    listeners it = if truthy (field a "read") then [] else [OnClickMarkAlertRead]
}.

Definition attach_click (it : AlertItem) : AlertItem :=
  if unread_item it then addEventListener OnClickMarkAlertRead it else it.

(** *** Primary user dashboard *)

(** [POST /primary/api/navigation/follow-mode] with the body
    [{"activate": ..., "person_id": ...}]. *)
Definition follow_mode_request (activate : bool) : Request :=
  {| url := "/primary/api/navigation/follow-mode";
     method := Some "POST";
     headers := [("Content-Type", "application/json")];
     body := Some (JsonStringify
                     (VObj [("activate", VBool activate);
                            ("person_id",
                             if activate then VStr "primary_caregiver" else VNull)])) |}.

(** *** Operator dashboard *)

Definition activity_items (l : list ActivityNode) : list ActivityNode :=
  filter (fun n => is_activity_item n = true) l.

Definition stats_request : Request :=
  {| url := "/api/stats"; method := None; headers := []; body := None |}.

Definition recent_alerts_request : Request :=
  {| url := "/api/alerts?per_page=10"; method := None; headers := []; body := None |}.

(** *** Sample servers and pages *)

(** A server that answers every request with [status] and the JSON [payload]. *)
Definition replying (status : Z) (payload : option jsval) : Env :=
  {| net := fun _ => Responded {| status := status; statusText := ""; json_body := payload |};
     audioContext := true;
     notification := Some Granted;
     formatRelativeTime := fun _ => "just now" |}.

Definition no_content : Env := replying 204 None.

(** No server at all, audio available, notifications denied. *)
Definition silent : Env :=
  {| net := fun _ => Rejected (mkError TypeError "Failed to fetch");
     audioContext := true;
     notification := Some Denied;
     formatRelativeTime := fun _ => "just now" |}.

Definition blank : Element :=
  {| textContent := ""; classList := []; style_width := ""; nodes := [] |}.

(** The caregiver page as its template provides it. *)
Definition caregiver_view : World :=
  with_dom (list_to_map
              [("currentActivity", blank); ("currentLocation", blank);
               ("lastMovement", blank); ("wellbeingScore", blank);
               ("batteryLevel", blank); ("batteryBar", blank);
               ("alertsList", blank); ("unreadCount", blank)])
           empty_page.

Definition caregiver_page : World := exec (startPolling Caregiver) empty_page.

Definition alarm_over : World :=
  exec (Main.alarm_ticks 9 1) (exec (Main.playAlertSound silent) empty_page).



Definition battery_record (level : Z) : jsval := VObj [("level", VNum level)].

Definition battery_payload (level : Z) : jsval :=
  VObj [("success", VBool true); ("battery", battery_record level)].

Definition fall_alert : jsval :=
  VObj [("id", VStr "a1"); ("severity", VStr "critical"); ("read", VBool false);
        ("type", VStr "fall"); ("message", VStr "Fall detected");
        ("location", VStr "Kitchen"); ("timestamp", VStr "2025-01-01T10:00:00")].

Definition activity_entry (title : string) : ActivityNode :=
  {| node_class := ["activity-item"]; icon_color := "bg-info-soft";
     icon := "fa-info-circle text-info"; title_text := title; time_label := "Just now" |}.

Definition five_entries : list ActivityNode :=
  [activity_entry "e"; activity_entry "d"; activity_entry "c";
   activity_entry "b"; activity_entry "a"].

Definition operator_view : World := with_activity_list (Some five_entries) empty_page.

(** ** Vocabulary of the further properties *)

(** *** The alarm interval *)

(** What holds of the alarm interval on every page the scripts can reach:
    handles are not shared, a running alarm interval is the one
    [alarmInterval] names, and [alarmInterval] names a running one. *)
Record AlarmInv (w : World) : Prop := mkAlarmInv {
  alarm_nodup : NoDup (handle <$> timers w);
  alarm_fresh : forall t, t ∈ timers w -> (handle t < nextHandle w)%positive;
  alarm_tracked : forall t,
    t ∈ timers w -> is_alarm (callback t) = true -> alarmInterval w = Some (handle t);
  alarm_live : forall h,
    alarmInterval w = Some h ->
    exists t, t ∈ timers w /\ handle t = h /\ is_alarm (callback t) = true
}.

(** The running intervals whose callback is the alarm's. *)
Definition alarm_timers (w : World) : list Timer :=
  filter (fun t => is_alarm (callback t) = true) (timers w).

(** The page after [clearInterval(alarmInterval)]. *)
Definition clear_alarm (w : World) : World :=
  match alarmInterval w with Some h => unregister_timer h w | None => w end.

(** *** Loads that fail, lists that are rendered again *)

(** The computation returns normally from every page. *)
Definition returns {A} (c : M A) : Prop :=
  forall w, exists a, result c w = Ok a.

(** The requests of the caregiver's status and battery polls. *)
Definition patient_status_request : Request :=
  get_request "/caregiver/api/patient/status/patient_001".

Definition battery_request : Request :=
  get_request "/caregiver/api/device/battery/patient_001".

(** The children [renderAlerts] builds for the alerts [l]. *)
Definition alert_nodes (items : list AlertItem) : list Node :=
  match items with
  | [] => [NoAlertsParagraph]
  | _ => map (fun it => AlertItemNode (attach_click it)) items
  end.

(** An alerts envelope of the caregiver API. *)
Definition alerts_payload (alerts unread : jsval) : jsval :=
  VObj [("success", VBool true); ("alerts", alerts); ("unread", unread)].

(** *** Follow mode *)

(** Only the DOM differs between the two pages. *)
Definition dom_change (w w' : World) : Prop := exists d, w' = with_dom d w.

(** The follow-mode switch as [updateFollowModeUI] leaves it. *)
Definition follow_toggle (active : bool) (e : Element) : Element :=
  if active
  then set_classList (classList_add ["bg-green-500"]
                        (classList_remove ["bg-gray-300"] (classList e))) e
  else set_classList (classList_add ["bg-gray-300"]
                        (classList_remove ["bg-green-500"] (classList e))) e.

Definition follow_slider (active : bool) (e : Element) : Element :=
  if active
  then set_classList (classList_add ["translate-x-18"]
                        (classList_remove ["translate-x-2"] (classList e))) e
  else set_classList (classList_add ["translate-x-2"]
                        (classList_remove ["translate-x-18"] (classList e))) e.

Definition follow_status (active : bool) (e : Element) : Element :=
  if active
  then set_classList (classList_add ["text-green-600"]
                        (classList_remove ["text-gray-600"] (classList e)))
         (set_textContent "âœ“ Following active" e)
  else set_classList (classList_add ["text-gray-600"]
                        (classList_remove ["text-green-600"] (classList e)))
         (set_textContent "Following inactive" e).

Definition follow_status_request : Request :=
  get_request "/primary/api/navigation/follow-mode".

(** A server that accepts everything. *)
Definition agreeable : Env :=
  replying 200 (Some (VObj [("success", VBool true); ("message", VStr "Done")])).

(** The primary user's page as its template provides it. *)
Definition primary_view : World :=
  with_dom (list_to_map
              [("followModeToggle", blank); ("followModeSlider", blank);
               ("followModeStatus", blank); ("medName", blank);
               ("medDosage", blank); ("medTime", blank)])
           empty_page.

(** *** The medication card *)



(** *** Sample browsers and the operator's requests *)

(** The alarm raised twice in a row. *)
Definition alarm_raised_twice : World :=
  exec (Main.playAlertSound silent) (exec (Main.playAlertSound silent) empty_page).

(** A browser without the Web Audio API. *)
Definition no_audio : Env :=
  {| net := fun _ => Rejected (mkError TypeError "Failed to fetch");
     audioContext := false;
     notification := Some Granted;
     formatRelativeTime := fun _ => "just now" |}.

(** A browser with audio but without the Notification API. *)
Definition no_notifications : Env :=
  {| net := fun _ => Rejected (mkError TypeError "Failed to fetch");
     audioContext := true;
     notification := None;
     formatRelativeTime := fun _ => "just now" |}.

(** The operator dashboard with its four KPI cards. *)
Definition kpi_view : World :=
  with_dom (list_to_map
              [(".bg-primary-gradient .kpi-value", blank);
               (".bg-success-gradient .kpi-value", blank);
               (".bg-warning-gradient .kpi-value", blank);
               (".bg-info-gradient .kpi-value", blank)])
           empty_page.


(** What [loadDashboardStats] and [loadAlerts] of the operator dashboard get
    from a request: the parsed body of a 2xx answer, or the error they
    raise. *)
Definition plain_outcome (env : Env) (req : Request) (failure : string) : Res jsval :=
  match net env req with
  | Rejected e => Throw e
  | Responded r =>
      if ok r then
        match json_body r with
        | Some v => Ok v
        | None => Throw (mkError SyntaxError "Unexpected end of JSON input")
        end
      else Throw (mkError Error failure)
  end.

(** *** The emergency page *)

(** [n.toString().padStart(2, '0')] *)
Definition two_digits (n : Z) : string := padStart 2 "0" (pretty n).

(** [POST /emergency/api/emergency/<id>/reassure] with the fixed message. *)
Definition reassure_url (emergencyId : jsval) : string :=
  "/emergency/api/emergency/" +:+ toString emergencyId +:+ "/reassure".

Definition reassurance : jsval :=
  VObj [("message",
         VStr "Help is on the way. Please stay calm. Emergency responders will be with you shortly.")].

Definition reassure_options : Options :=
  {| opt_method := Some "POST"; opt_headers := None;
     opt_body := Some (JsonStringify reassurance) |}.

Definition reassure_request (emergencyId : jsval) : Request :=
  post_request (reassure_url emergencyId) reassurance.

(** The emergency page as its template provides it. *)
Definition emergency_view : World :=
  with_dom (list_to_map [("timeElapsed", blank); ("hrStatus", blank)]) empty_page.

(** *** Health professional dashboard *)














(** * Properties *)

(** ** Strings *)

Lemma prefix_append (p s : string) : String.prefix p (p +:+ s) = true.
Proof.
  induction p as [|c p IH]; simpl.
  - by destruct s.
  - destruct (ascii_dec c c) as [_|n]; [exact IH | by destruct n].
Qed.

Lemma append_assoc (a b c : string) : (a +:+ b) +:+ c = a +:+ (b +:+ c).
Proof.
  induction a as [|x a IH]; [reflexivity|].
  change (String x ((a +:+ b) +:+ c) = String x (a +:+ (b +:+ c))).
  by rewrite IH.
Qed.

(** ** Running computations *)

Lemma exec_bind {A B} (c : M A) (k : A -> M B) w :
  exec (bind c k) w =
    match c w with
    | (Ok a, w') => exec (k a) w'
    | (Throw _, w') => w'
    end.
Proof. unfold exec, bind. by destruct (c w) as [[a|e] w']. Qed.

Lemma exec_try_catch_bind {A B} (c : M A) (k : A -> M B) (h : JsError -> M B) w :
  exec (try_catch (bind c k) h) w =
    match c w with
    | (Ok a, w1) => exec (try_catch (k a) h) w1
    | (Throw e, w1) => exec (h e) w1
    end.
Proof. unfold exec, try_catch, bind. by destruct (c w) as [[a|e] w1]. Qed.

Lemma emitted_app {A} (c : M A) w evs :
  log (exec c w) = log w ++ evs -> emitted c w = evs.
Proof. intros H. unfold emitted. by rewrite H, drop_app_length. Qed.

Lemma update_element_run id prop f w e :
  dom w !! id = Some e ->
  update_element id prop f w = (Ok tt, with_dom (<[id := f e]> (dom w)) w).
Proof. intros H. unfold update_element. by rewrite H. Qed.

Ltac update_with e H :=
  rewrite (update_element_run _ _ _ _ e)
    by (cbn [dom with_dom record with_log]; rewrite ?lookup_insert_ne by done; exact H).


(** ** The fetch wrappers *)

Lemma api_fetch_run c env u options w :
  api_fetch c env u options w =
    (fetch_outcome env u options,
     with_log (log w ++ Fetch (fetch_init u options) ::
                 match fetch_outcome env u options with
                 | Ok _ => []
                 | Throw e => [Console "error" ("API Error: " +:+ emessage e)]
                 end) w).
Proof.
  destruct c; unfold api_fetch, fetch_outcome,
    CaregiverAPI._fetch, PrimaryUserAPI._fetch, HealthProfessionalAPI._fetch,
    EmergencyAPI._fetch, try_catch, bind, fetch, json, console_error, emit, modify, record, throw, ret;
    simpl;
    destruct (net env (fetch_init u options)) as [e|r]; simpl;
    try destruct (ok r); simpl; try destruct (json_body r); simpl;
    unfold with_log; simpl; rewrite <- ?app_assoc; reflexivity.
Qed.

Lemma fetch_run env req w :
  fetch env req w =
    (match net env req with Rejected e => Throw e | Responded r => Ok r end,
     record (Fetch req) w).
Proof. unfold fetch, bind, emit, modify. by destruct (net env req). Qed.

Lemma api_fetch_responds c env u options payload w :
  responds env (fetch_init u options) payload ->
  api_fetch c env u options w = (Ok payload, record (Fetch (fetch_init u options)) w).
Proof.
  intros (r & Hnet & Hok & Hbody). rewrite api_fetch_run.
  unfold fetch_outcome. by rewrite Hnet, Hok, Hbody.
Qed.

Lemma fetch_outcome_succeeds env u options :
  succeeds env (fetch_init u options) =
    match fetch_outcome env u options with
    | Ok payload =>
        match get payload "success" with Ok s => truthy s | Throw _ => false end
    | Throw _ => false
    end.
Proof.
  unfold succeeds, fetch_outcome.
  destruct (net env (fetch_init u options)) as [e|r]; [done|].
  destruct (ok r); [|done]. by destruct (json_body r).
Qed.

Lemma emitted_api_fetch c env u options w :
  fetches (emitted (api_fetch c env u options) w) = [fetch_init u options].
Proof.
  unfold emitted, exec. rewrite api_fetch_run. simpl.
  rewrite drop_app_length. simpl.
  by destruct (fetch_outcome env u options).
Qed.

(** C1 (amended).  For each of the four API modules, [_fetch] hands back the
    parsed JSON body of a 2xx response whose body is JSON; it throws on every
    non-2xx response, with an error whose message is built from the status
    code alone ([statusText] and the body of the response do not enter it);
    and it also throws, passing the error on, when [fetch] itself is rejected
    or when the body of a 2xx response is not JSON. *)
Theorem fetch_wrapper_outcome (c : Controller) (env : Env) (u : string)
    (options : Options) (w : World) :
  result (api_fetch c env u options) w =
    match net env (fetch_init u options) with
    | Rejected e => Throw e
    | Responded r =>
        if ok r then
          match json_body r with
          | Some v => Ok v
          | None => Throw (mkError SyntaxError "Unexpected end of JSON input")
          end
        else Throw (mkError Error ("HTTP error! status: " +:+ pretty (status r)))
    end.
Proof. unfold result. rewrite api_fetch_run. reflexivity. Qed.

(** C1 as stated fails: a 204 response has no JSON body, and [_fetch] throws
    on it although the status is 2xx. *)
Lemma fetch_wrapper_throws_on_2xx :
  ~ (forall c env u options w r,
       net env (fetch_init u options) = Responded r ->
       (throws (result (api_fetch c env u options) w) <-> ok r = false)).
Proof.
  intros H.
  specialize (H Caregiver no_content "/caregiver/api/alerts/a1/read" no_options empty_page _ eq_refl).
  destruct H as [H _].
  assert (Hth : throws (result (api_fetch Caregiver no_content
                          "/caregiver/api/alerts/a1/read" no_options) empty_page)).
  { eexists. vm_compute. reflexivity. }
  apply H in Hth. vm_compute in Hth. discriminate.
Qed.

(** ** Framing: what a computation leaves alone *)

(** Rules for a relation [R] that is reflexive, transitive and insensitive to
    DOM updates; they are used with [quiet P] and with [no_fetch]. *)
Section Framed.
Context (R : World -> World -> Prop).
Context (R_refl : forall w, R w w).
Context (R_trans : forall w1 w2 w3, R w1 w2 -> R w2 w3 -> R w1 w3).
Context (R_dom : forall d w, R w (with_dom d w)).

Lemma framed_ret {A} (a : A) : framed R (ret a).
Proof. intros w. apply R_refl. Qed.

Lemma framed_throw {A} e : framed R (@throw A e).
Proof. intros w. apply R_refl. Qed.

Lemma framed_lift {A} (r : Res A) : framed R (lift r).
Proof. intros w. apply R_refl. Qed.

Lemma framed_read {A} (f : World -> A) : framed R (read f).
Proof. intros w. apply R_refl. Qed.

Lemma framed_bind {A B} (c : M A) (k : A -> M B) :
  framed R c -> (forall a, framed R (k a)) -> framed R (bind c k).
Proof.
  intros Hc Hk w. rewrite exec_bind. specialize (Hc w). unfold exec in Hc.
  destruct (c w) as [[a|e] w1]; simpl in Hc; [|done].
  eapply R_trans; [exact Hc | apply Hk].
Qed.

Lemma framed_try_catch {A} (c : M A) (h : JsError -> M A) :
  framed R c -> (forall e, framed R (h e)) -> framed R (try_catch c h).
Proof.
  intros Hc Hh w. specialize (Hc w). unfold exec, try_catch in *.
  destruct (c w) as [[a|e] w1]; simpl in *; [done|].
  eapply R_trans; [exact Hc | apply Hh].
Qed.

Lemma framed_try_finally {A} (c : M A) (f : M unit) :
  framed R c -> framed R f -> framed R (try_finally c f).
Proof.
  intros Hc Hf w. specialize (Hc w). unfold exec, try_finally in *.
  destruct (c w) as [r w1]; simpl in *.
  specialize (Hf w1). unfold exec in Hf.
  destruct (f w1) as [[[]|e] w2]; simpl in *; eapply R_trans; eauto.
Qed.

Lemma framed_not_awaited {A} (c : M A) : framed R c -> framed R (not_awaited c).
Proof.
  intros Hc w. specialize (Hc w). unfold exec, not_awaited in *.
  by destruct (c w) as [r w1].
Qed.

Lemma framed_modify f : (forall w, R w (f w)) -> framed R (modify f).
Proof. intros Hf w. apply Hf. Qed.

Lemma framed_emit e : (forall w, R w (record e w)) -> framed R (emit e).
Proof. apply framed_modify. Qed.

Lemma framed_update_element id prop f : framed R (update_element id prop f).
Proof.
  intros w. unfold exec, update_element, null_element, throw.
  destruct (dom w !! id); simpl; [apply R_dom | apply R_refl].
Qed.

Lemma framed_mapM {A B} (f : A -> M B) (l : list A) :
  (forall a, framed R (f a)) -> framed R (mapM f l).
Proof.
  intros Hf. induction l as [|x l IH]; simpl.
  - apply framed_ret.
  - apply framed_bind; [apply Hf|]. intros y.
    apply framed_bind; [apply IH|]. intros ys. apply framed_ret.
Qed.

Lemma framed_json r : framed R (json r).
Proof. unfold json. destruct (json_body r); [apply framed_ret | apply framed_throw]. Qed.

Lemma framed_fetch env req :
  (forall w, R w (record (Fetch req) w)) -> framed R (fetch env req).
Proof.
  intros HR. unfold fetch. apply framed_bind; [by apply framed_emit|].
  intros _. destruct (net env req); [apply framed_throw | apply framed_ret].
Qed.

Lemma framed_api_fetch c env u options :
  (forall e w, timer_event e = false -> fetches [e] = [] -> R w (record e w)) ->
  (forall w, R w (record (Fetch (fetch_init u options)) w)) ->
  framed R (api_fetch c env u options).
Proof.
  intros HC HF w. unfold exec. rewrite api_fetch_run. cbn [snd].
  destruct (fetch_outcome env u options) as [v|e]; [apply HF|].
  eapply R_trans; [apply HF|].
  replace (with_log _ w)
    with (record (Console "error" ("API Error: " +:+ emessage e))
            (record (Fetch (fetch_init u options)) w)).
  - by apply HC.
  - unfold record, with_log. simpl. by rewrite <- app_assoc.
Qed.

End Framed.

Lemma quiet_refl P w : quiet P w w.
Proof. repeat split. exists []. by rewrite app_nil_r. Qed.

Lemma quiet_trans P w1 w2 w3 : quiet P w1 w2 -> quiet P w2 w3 -> quiet P w1 w3.
Proof.
  intros (Ht & Hn & Ha & evs & Hl & Hp) (Ht' & Hn' & Ha' & evs' & Hl' & Hp').
  repeat split; try congruence.
  exists (evs ++ evs'). split.
  - by rewrite Hl', Hl, app_assoc.
  - rewrite forallb_app, Hp, Hp'. done.
Qed.

Lemma quiet_same P w w' :
  timers w' = timers w -> nextHandle w' = nextHandle w ->
  alarmInterval w' = alarmInterval w -> log w' = log w -> quiet P w w'.
Proof. intros ? ? ? Hl. repeat split; try done. exists []. by rewrite Hl, app_nil_r. Qed.

Lemma quiet_record P e w : P e = true -> quiet P w (record e w).
Proof. intros He. repeat split. exists [e]. split; [done|]. simpl. by rewrite He. Qed.

Lemma no_fetch_refl w : no_fetch w w.
Proof. repeat split. exists []. by rewrite app_nil_r. Qed.

Lemma no_fetch_trans w1 w2 w3 : no_fetch w1 w2 -> no_fetch w2 w3 -> no_fetch w1 w3.
Proof.
  intros (Hf & Hc & evs & Hl & Hp) (Hf' & Hc' & evs' & Hl' & Hp').
  repeat split; try congruence.
  exists (evs ++ evs'). split.
  - by rewrite Hl', Hl, app_assoc.
  - unfold fetches in *. by rewrite omap_app, Hp, Hp'.
Qed.

Lemma no_fetch_same w w' :
  followModeActive w' = followModeActive w -> currentFilter w' = currentFilter w ->
  log w' = log w -> no_fetch w w'.
Proof. intros ? ? Hl. repeat split; try done. exists []. by rewrite Hl, app_nil_r. Qed.

Lemma no_fetch_record e w : fetches [e] = [] -> no_fetch w (record e w).
Proof. intros He. repeat split. by exists [e]. Qed.

Ltac framed_side :=
  first
    [ apply quiet_refl | apply no_fetch_refl
    | apply quiet_trans | apply no_fetch_trans
    | intros; apply quiet_same; reflexivity
    | intros; apply no_fetch_same; reflexivity
    | intros; apply quiet_record; reflexivity
    | intros; apply no_fetch_record; reflexivity
    | intros ? ? Ht Hf; apply quiet_record; unfold no_timer_event; by rewrite Ht
    | intros ? ? Ht Hf; by apply no_fetch_record ].

Ltac framed_step :=
  lazymatch goal with
  | |- framed _ (bind _ _) => apply framed_bind; [framed_side | | intros ?]
  | |- framed _ (ret _) => apply framed_ret; framed_side
  | |- framed _ (throw _) => apply framed_throw; framed_side
  | |- framed _ (lift _) => apply framed_lift; framed_side
  | |- framed _ (read _) => apply framed_read; framed_side
  | |- framed _ (try_catch _ _) => apply framed_try_catch; [framed_side | | intros ?]
  | |- framed _ (try_finally _ _) => apply framed_try_finally; [framed_side | | ]
  | |- framed _ (not_awaited _) => apply framed_not_awaited
  | |- framed _ (mapM _ _) => apply framed_mapM; [framed_side | framed_side | intros ?]
  | |- framed _ (emit _) => apply framed_emit; framed_side
  | |- framed _ (modify _) => apply framed_modify; framed_side
  | |- framed _ (update_element _ _ _) =>
      apply framed_update_element; framed_side
  | |- framed _ (json _) => apply framed_json; framed_side
  | |- framed _ (fetch _ _) => apply framed_fetch; framed_side
  | |- framed _ (api_fetch _ _ _ _) => apply framed_api_fetch; framed_side
  | |- framed _ (when ?b _) => destruct b; unfold when
  | |- framed _ (if ?b then _ else _) => destruct b
  | |- framed _ (match ?x with _ => _ end) => destruct x
  end.

Ltac framed_unfold :=
  unfold setTextContent, setStyleWidth, setInnerHTML, classListAdd, classListRemove,
    console_error, console_log, showToast, showLoading.

Ltac solve_framed := framed_unfold; repeat framed_step.

(** The callbacks and handlers of the model are timer-free: a firing of a
    polling timer, a click or a toggle is a [step_other]. *)
Lemma loadPatientStatus_timer_free env :
  framed timer_free (CaregiverUI.loadPatientStatus env).
Proof.
  unfold timer_free, CaregiverUI.loadPatientStatus, CaregiverAPI.getPatientStatus.
  change (CaregiverAPI._fetch env) with (api_fetch Caregiver env).
  solve_framed.
Qed.

Lemma loadBattery_timer_free env : framed timer_free (CaregiverUI.loadBattery env).
Proof.
  unfold timer_free, CaregiverUI.loadBattery, CaregiverAPI.getBattery.
  change (CaregiverAPI._fetch env) with (api_fetch Caregiver env).
  solve_framed.
Qed.

Lemma renderAlerts_timer_free env alerts :
  framed timer_free (CaregiverUI.renderAlerts env alerts).
Proof.
  unfold timer_free, CaregiverUI.renderAlerts, CaregiverUI.alertTemplate. solve_framed.
Qed.

Lemma loadAlerts_timer_free env : framed timer_free (CaregiverUI.loadAlerts env).
Proof.
  unfold CaregiverUI.loadAlerts, CaregiverAPI.getAlerts.
  change (CaregiverAPI._fetch env) with (api_fetch Caregiver env).
  unfold timer_free. solve_framed. apply renderAlerts_timer_free.
Qed.

Lemma click_alert_timer_free env i : framed timer_free (CaregiverUI.click_alert env i).
Proof.
  unfold CaregiverUI.click_alert, CaregiverUI.run_listener, CaregiverUI.markAlertRead,
    CaregiverAPI.markAlertRead.
  change (CaregiverAPI._fetch env) with (api_fetch Caregiver env).
  unfold timer_free. solve_framed. apply loadAlerts_timer_free.
Qed.

Lemma toggleFollowMode_timer_free env :
  framed timer_free (PrimaryUserUI.toggleFollowMode env).
Proof.
  unfold PrimaryUserUI.toggleFollowMode, PrimaryUserAPI.toggleFollowMode,
    PrimaryUserUI.updateFollowModeUI.
  change (PrimaryUserAPI._fetch env) with (api_fetch PrimaryUser env).
  unfold timer_free. solve_framed.
Qed.

Lemma addActivityItem_timer_free title time type :
  framed timer_free (Main.addActivityItem title time type).
Proof. unfold timer_free, Main.addActivityItem. solve_framed. Qed.

Lemma loadDashboardStats_quiet env :
  framed (quiet no_timer_event) (Main.loadDashboardStats env).
Proof. unfold Main.loadDashboardStats, Main.updateKPICard. solve_framed. Qed.

Lemma updateFollowModeUI_no_fetch b : framed no_fetch (PrimaryUserUI.updateFollowModeUI b).
Proof. unfold PrimaryUserUI.updateFollowModeUI. solve_framed. Qed.

Lemma alertTemplate_no_fetch env a : framed no_fetch (CaregiverUI.alertTemplate env a).
Proof. unfold CaregiverUI.alertTemplate. solve_framed. Qed.

Lemma renderAlerts_no_fetch env alerts : framed no_fetch (CaregiverUI.renderAlerts env alerts).
Proof.
  unfold CaregiverUI.renderAlerts. solve_framed. apply alertTemplate_no_fetch.
Qed.

(** ** Request namespaces *)

Lemma namespaces_disjoint (c c' : Controller) (rest : string) :
  c' <> c -> String.prefix (api_baseURL c') (api_baseURL c +:+ rest) = false.
Proof. destruct c, c'; intros H; try done; reflexivity. Qed.

Lemma api_invoke_is_fetch env (c : ApiCall) :
  exists rest options,
    api_invoke env c = api_fetch (api_of c) env (api_baseURL (api_of c) +:+ rest) options.
Proof.
  destruct c as [c|c|c|eid c]; destruct c;
    cbn [api_invoke api_of api_baseURL api_fetch CaregiverAPI.invoke PrimaryUserAPI.invoke
         HealthProfessionalAPI.invoke EmergencyAPI.invoke];
    try (eexists _, _; reflexivity).
  - unfold CaregiverAPI.getAlerts.
    destruct (truthy (default_param VNull severity)); cbv beta iota zeta;
      [ rewrite append_assoc | ]; eexists _, _; reflexivity.
  - unfold HealthProfessionalAPI.getVitalsHistory.
    destruct (truthy (default_param VNull type)); cbv beta iota zeta;
      [ rewrite append_assoc | ]; eexists _, _; reflexivity.
Qed.

Lemma fetch_then_no_fetch {B} env req (k : Response -> M B) (h : JsError -> M B) w :
  (forall r, framed no_fetch (try_catch (k r) h)) ->
  (forall e, framed no_fetch (h e)) ->
  fetches (emitted (try_catch (bind (fetch env req) k) h) w) = [req].
Proof.
  intros Hk Hh.
  assert (H : exists evs,
            log (exec (try_catch (bind (fetch env req) k) h) w) =
              log (record (Fetch req) w) ++ evs /\ fetches evs = []).
  { rewrite exec_try_catch_bind, fetch_run.
    destruct (net env req) as [e|r].
    - destruct (Hh e (record (Fetch req) w)) as (_ & _ & evs & ? & ?). eauto.
    - destruct (Hk r (record (Fetch req) w)) as (_ & _ & evs & ? & ?). eauto. }
  destruct H as (evs & Hlog & Hevs).
  rewrite (emitted_app _ _ (Fetch req :: evs)).
  - unfold fetches in *. cbn. by rewrite Hevs.
  - rewrite Hlog. cbn [log record with_log]. by rewrite <- app_assoc.
Qed.

Lemma loadDashboardStats_fetches env w :
  fetches (emitted (Main.loadDashboardStats env) w) = [stats_request].
Proof.
  unfold Main.loadDashboardStats, Main.updateKPICard.
  apply fetch_then_no_fetch; intros; solve_framed.
Qed.

Lemma main_loadAlerts_fetches env w :
  fetches (emitted (Main.loadAlerts env) w) = [recent_alerts_request].
Proof.
  unfold Main.loadAlerts.
  apply fetch_then_no_fetch; intros; solve_framed.
Qed.

(** C7 (amended).  Every request of a role API module goes to a URL that
    begins with the [baseURL] of that module, every [baseURL] ends in [/api],
    and the URL begins with the [baseURL] of no other role.  The loaders of
    [main.js], which has no role module, fetch from the plain [/api/] paths
    [/api/stats] and [/api/alerts?per_page=10]. *)
Theorem api_requests_in_namespace (env : Env) (c : ApiCall) (w : World) :
  (exists r,
     fetches (emitted (api_invoke env c) w) = [r] /\
     String.prefix (api_baseURL (api_of c)) (url r) = true /\
     ends_with "/api" (api_baseURL (api_of c)) = true /\
     (forall c', c' <> api_of c -> String.prefix (api_baseURL c') (url r) = false)) /\
  (exists r,
     fetches (emitted (Main.loadDashboardStats env) w) = [r] /\
     String.prefix "/api/" (url r) = true) /\
  (exists r,
     fetches (emitted (Main.loadAlerts env) w) = [r] /\
     String.prefix "/api/" (url r) = true).
Proof.
  split; [|split].
  - destruct (api_invoke_is_fetch env c) as (rest & options & ->).
    exists (fetch_init (api_baseURL (api_of c) +:+ rest) options).
    split; [apply emitted_api_fetch|].
    split; [apply prefix_append|].
    split; [by destruct c|].
    intros c' Hc'. by apply namespaces_disjoint.
  - exists stats_request. split; [apply loadDashboardStats_fetches | reflexivity].
  - exists recent_alerts_request. split; [apply main_loadAlerts_fetches | reflexivity].
Qed.

(** C7 as stated fails: [loadDashboardStats] of [main.js] requests
    [/api/stats], which is under the prefix of no role. *)
Lemma stats_request_has_no_role :
  ~ (forall env w r,
       r ∈ fetches (emitted (Main.loadDashboardStats env) w) ->
       exists c, String.prefix (api_baseURL c) (url r) = true).
Proof.
  intros H.
  destruct (H silent empty_page stats_request) as [c Hc].
  - rewrite loadDashboardStats_fetches. by apply list_elem_of_singleton.
  - destruct c; vm_compute in Hc; discriminate.
Qed.

(** ** Polling periods *)

Lemma started_startPolling c w :
  started (startPolling c) w =
    match c with
    | Caregiver =>
        [mkTimer (nextHandle w) 10000 LoadPatientStatus;
         mkTimer (Pos.succ (nextHandle w)) 30000 LoadLocation;
         mkTimer (Pos.succ (Pos.succ (nextHandle w))) 60000 LoadBattery;
         mkTimer (Pos.succ (Pos.succ (Pos.succ (nextHandle w)))) 15000 LoadAlerts]
    | PrimaryUser =>
        [mkTimer (nextHandle w) 5000 LoadVisualFeedback;
         mkTimer (Pos.succ (nextHandle w)) 30000 LoadNextMedication]
    | HealthProfessional =>
        [mkTimer (nextHandle w) 30000 LoadCurrentVitals;
         mkTimer (Pos.succ (nextHandle w)) 300000 RefreshTrends]
    | Emergency => []
    end.
Proof.
  unfold started, exec. destruct c; simpl; rewrite <- ?app_assoc;
    try rewrite drop_app_length; try reflexivity.
  by rewrite drop_all.
Qed.

(** C2 (amended).  Every timer that a controller's [startPolling] starts has a
    period of at least 5 seconds; the period is at most 60 seconds, except for
    the trends refresh of the health professional dashboard, whose period is
    300 seconds. *)
Theorem polling_periods (c : Controller) (w : World) (t : Timer) :
  t ∈ started (startPolling c) w ->
  5000 <= period t /\
  (period t <= 60000 \/
   (c = HealthProfessional /\ callback t = RefreshTrends /\ period t = 300000)).
Proof.
  rewrite started_startPolling.
  destruct c; intros Ht;
    repeat (apply elem_of_cons in Ht as [-> | Ht];
            [simpl; split; [lia | first [left; lia | by right]] |]);
    by apply elem_of_nil in Ht.
Qed.

Lemma polling_periods_witness :
  5000 <= 15000 /\ (15000 <= 60000 \/
    (Caregiver = HealthProfessional /\ LoadAlerts = RefreshTrends /\ 15000 = 300000)).
Proof.
  apply (polling_periods Caregiver empty_page (mkTimer 4 15000 LoadAlerts)).
  vm_compute. repeat constructor.
Defined.

(** C2 as stated fails: the health professional dashboard refreshes its
    trends every 300000 ms. *)
Lemma trends_timer_exceeds_minute :
  ~ (forall c w t, t ∈ started (startPolling c) w -> 5000 <= period t <= 60000).
Proof.
  intros H.
  specialize (H HealthProfessional empty_page (mkTimer 2 300000 RefreshTrends)).
  assert (Hin : mkTimer 2 300000 RefreshTrends ∈ started (startPolling HealthProfessional) empty_page).
  { vm_compute. repeat constructor. }
  apply H in Hin. simpl in Hin. lia.
Qed.

(** ** Timers over the life of the page *)

Lemma Inv_empty_page : Inv empty_page.
Proof.
  split; simpl; intros; try discriminate;
    repeat match goal with H : _ ∈ [] |- _ => by apply elem_of_nil in H end.
Qed.

Lemma quiet_timer_event w w' e :
  quiet no_timer_event w w' -> timer_event e = true -> e ∈ log w' <-> e ∈ log w.
Proof.
  intros (_ & _ & _ & evs & -> & Hevs) He. rewrite elem_of_app. split; [|auto].
  intros [H|H]; [done|].
  rewrite forallb_forall in Hevs. apply list_elem_of_In, Hevs in H.
  unfold no_timer_event in H. rewrite He in H. discriminate.
Qed.

Lemma Inv_quiet w w' : quiet no_timer_event w w' -> Inv w -> Inv w'.
Proof.
  intros Hq [H1 H2 H3 H4 H5 H6].
  assert (HS : forall h ms cb, SetInterval h ms cb ∈ log w' <-> SetInterval h ms cb ∈ log w)
    by (intros; by apply quiet_timer_event).
  assert (HC : forall h, ClearInterval h ∈ log w' <-> ClearInterval h ∈ log w)
    by (intros; by apply quiet_timer_event).
  assert (HA : forall h, alarm_handle w h -> alarm_handle w' h).
  { intros h (ms & cb & Hin & Hcb). exists ms, cb. by rewrite HS. }
  destruct Hq as (Ht & Hn & Ha & _).
  split.
  - intros h ms cb Hin. rewrite Hn. apply HS in Hin. eauto.
  - intros t Hin. rewrite Ht in Hin. destruct (H2 t Hin) as (ms & cb & ? & ?).
    exists ms, cb. by rewrite HS.
  - intros h Hh. rewrite Ha in Hh. eauto.
  - intros h Hin. apply HC in Hin. eauto.
  - intros h ms cb ms' cb' Hi Hi'. apply HS in Hi, Hi'. eauto.
  - intros h ms cb Hin Hcb. rewrite Ht. apply HS in Hin. eauto.
Qed.

Lemma alarm_handle_mono w w' h :
  (forall e, e ∈ log w -> e ∈ log w') -> alarm_handle w h -> alarm_handle w' h.
Proof. intros Hsub (ms & cb & Hin & Hcb). exists ms, cb. auto. Qed.

Lemma Inv_register cb ms w : Inv w -> Inv (register_timer cb ms w).
Proof.
  intros [H1 H2 H3 H4 H5 H6].
  assert (Hsub : forall e, e ∈ log w -> e ∈ log (register_timer cb ms w)).
  { intros e He. simpl. apply elem_of_app. by left. }
  split; simpl.
  - intros h ms' cb' Hin. apply elem_of_app in Hin as [Hin|Hin].
    + apply H1 in Hin. lia.
    + apply list_elem_of_singleton in Hin. injection Hin as -> _ _. lia.
  - intros t Hin. apply elem_of_app in Hin as [Hin|Hin].
    + destruct (H2 t Hin) as (ms' & cb' & ? & ?). exists ms', cb'.
      split; [|done]. apply elem_of_app. by left.
    + apply list_elem_of_singleton in Hin as ->. exists ms, cb. simpl.
      split; [|done]. apply elem_of_app. right. by apply list_elem_of_singleton.
  - intros h Hh. eapply alarm_handle_mono; eauto.
  - intros h Hin. apply elem_of_app in Hin as [Hin|Hin].
    + eapply alarm_handle_mono; eauto.
    + apply list_elem_of_singleton in Hin. discriminate.
  - intros h ms1 cb1 ms2 cb2 Hi1 Hi2.
    apply elem_of_app in Hi1 as [Hi1|Hi1]; apply elem_of_app in Hi2 as [Hi2|Hi2].
    + eauto.
    + apply list_elem_of_singleton in Hi2. injection Hi2 as -> _ _.
      apply H1 in Hi1. lia.
    + apply list_elem_of_singleton in Hi1. injection Hi1 as -> _ _.
      apply H1 in Hi2. lia.
    + apply list_elem_of_singleton in Hi1, Hi2. congruence.
  - intros h ms' cb' Hin Hcb. apply elem_of_app.
    apply elem_of_app in Hin as [Hin|Hin]; [left; eauto|].
    right. apply list_elem_of_singleton in Hin. injection Hin as -> -> ->.
    by apply list_elem_of_singleton.
Qed.

Lemma Inv_unregister a w : Inv w -> alarm_handle w a -> Inv (unregister_timer a w).
Proof.
  intros [H1 H2 H3 H4 H5 H6] Ha.
  assert (Hsub : forall e, e ∈ log w -> e ∈ log (unregister_timer a w)).
  { intros e He. simpl. apply elem_of_app. by left. }
  assert (HS : forall h ms cb, SetInterval h ms cb ∈ log (unregister_timer a w) ->
                               SetInterval h ms cb ∈ log w).
  { intros h ms cb Hin. simpl in Hin. apply elem_of_app in Hin as [Hin|Hin]; [done|].
    apply list_elem_of_singleton in Hin. discriminate. }
  split.
  - intros h ms cb Hin. apply HS in Hin. simpl. eauto.
  - intros t Hin. simpl in Hin. apply list_elem_of_filter in Hin as [_ Hin].
    destruct (H2 t Hin) as (ms & cb & ? & ?). exists ms, cb. auto.
  - intros h Hh. simpl in Hh. eapply alarm_handle_mono; eauto.
  - intros h Hin. simpl in Hin. apply elem_of_app in Hin as [Hin|Hin].
    + eapply alarm_handle_mono; eauto.
    + apply list_elem_of_singleton in Hin. injection Hin as ->.
      eapply alarm_handle_mono; eauto.
  - intros h ms cb ms' cb' Hi Hi'. apply HS in Hi, Hi'. eauto.
  - intros h ms cb Hin Hcb. apply HS in Hin. simpl.
    apply list_elem_of_filter. split; [|eauto]. simpl.
    intros ->. destruct Ha as (ms' & cb' & Hin' & Hcb').
    rewrite (H5 _ _ _ _ _ Hin Hin') in Hcb. congruence.
Qed.

Lemma Inv_alarmInterval_None w : Inv w -> Inv (with_alarmInterval None w).
Proof. intros [H1 H2 H3 H4 H5 H6]. split; simpl; eauto. discriminate. Qed.

Lemma Inv_alarmInterval_Some h w :
  Inv w -> alarm_handle w h -> Inv (with_alarmInterval (Some h) w).
Proof.
  intros [H1 H2 H3 H4 H5 H6] Hh. split; simpl; eauto.
  intros h' [= <-]. exact Hh.
Qed.

Lemma Inv_set_callback h k w :
  Inv w -> alarm_handle w h ->
  Inv (with_timers (Main.set_callback h (AlarmTick k) (timers w)) w).
Proof.
  intros [H1 H2 H3 H4 H5 H6] Hh. split; simpl; eauto.
  - intros t' Hin. unfold Main.set_callback in Hin.
    apply list_elem_of_fmap in Hin as (t & -> & Hin).
    destruct (Pos.eqb_spec (handle t) h) as [Heq|Hne]; [|eauto].
    simpl. destruct Hh as (ms & cb & Hin' & Hcb). exists ms, cb. by rewrite Heq.
  - intros h' ms cb Hin Hcb. unfold Main.set_callback.
    apply list_elem_of_fmap. exists (mkTimer h' ms cb). split; [|eauto].
    simpl. destruct (Pos.eqb_spec h' h) as [->|Hne]; [|done].
    destruct Hh as (ms' & cb' & Hin' & Hcb').
    rewrite (H5 _ _ _ _ _ Hin Hin') in Hcb. congruence.
Qed.

Lemma Inv_record e w : timer_event e = false -> Inv w -> Inv (record e w).
Proof.
  intros He. apply Inv_quiet. repeat split. exists [e]. split; [done|].
  simpl. unfold no_timer_event. by rewrite He.
Qed.

Lemma find_timer_Some h ts t :
  Main.find_timer h ts = Some t -> t ∈ ts /\ handle t = h.
Proof.
  unfold Main.find_timer. intros H. apply find_some in H as [Hin Heq].
  split; [by apply list_elem_of_In | by apply Pos.eqb_eq].
Qed.

Lemma Inv_clear_alarm w :
  Inv w ->
  Inv (match alarmInterval w with Some h => unregister_timer h w | None => w end).
Proof.
  intros HI. destruct (alarmInterval w) as [a|] eqn:Ha; [|done].
  apply Inv_unregister; [done | by apply (inv_alarmInterval w HI)].
Qed.

Lemma alarm_handle_register k ms w :
  alarm_handle (register_timer (AlarmTick k) ms w) (nextHandle w).
Proof.
  exists ms, (AlarmTick k). split; [|done]. simpl.
  apply elem_of_app. right. by apply list_elem_of_singleton.
Qed.

Lemma Inv_playAlertSound env w : Inv w -> Inv (exec (Main.playAlertSound env) w).
Proof.
  intros HI. unfold Main.playAlertSound, Main.playBeep.
  cbv [exec try_catch bind read modify emit ret throw console_log snd].
  destruct (audioContext env); [|by apply Inv_record].
  pose proof (Inv_clear_alarm w HI) as HI1.
  assert (HI2 : forall w1, Inv w1 ->
            Inv (with_alarmInterval (Some (nextHandle (record (Beep 880 0.15) w1)))
                   (register_timer (AlarmTick (0 + 1)) 200 (record (Beep 880 0.15) w1)))).
  { intros w1 H1. apply Inv_alarmInterval_Some; [|apply alarm_handle_register].
    apply Inv_register. by apply Inv_record. }
  destruct (alarmInterval w) as [a|];
    cbv [clearInterval modify setInterval];
    destruct (notification env) as [[]|]; cbv beta iota;
    repeat (apply Inv_record; [done|]); by apply HI2.
Qed.

Lemma Inv_stopAlarm w : Inv w -> Inv (exec Main.stopAlarm w).
Proof.
  intros HI. unfold Main.stopAlarm.
  cbv [exec bind read modify ret snd].
  pose proof (Inv_clear_alarm w HI) as HI1.
  destruct (alarmInterval w) as [a|]; [|done].
  cbv [clearInterval modify]. by apply Inv_alarmInterval_None.
Qed.

Lemma Inv_alarm_tick h w : Inv w -> Inv (exec (Main.alarm_tick h) w).
Proof.
  intros HI. unfold Main.alarm_tick.
  cbv [exec bind read ret snd].
  destruct (Main.find_timer h (timers w)) as [[h' ms cb]|] eqn:Hfind; [|done].
  apply find_timer_Some in Hfind as [Hin Hh]. simpl in Hh. subst h'.
  destruct cb; try done.
  assert (Hah : alarm_handle w h).
  { destruct (inv_timers_logged w HI _ Hin) as (ms' & cb' & ? & ?). by exists ms', cb'. }
  unfold Main.alarm_callback, Main.playBeep.
  destruct (Main.maxBeeps <=? beepCount).
  - cbv [exec bind read modify ret snd].
    pose proof (Inv_clear_alarm w HI) as HI1.
    destruct (alarmInterval w) as [a|]; cbv [clearInterval modify];
      by apply Inv_alarmInterval_None.
  - cbv [exec bind emit modify ret snd].
    apply (Inv_set_callback h (beepCount + 1) (record _ w)).
    + by apply Inv_record.
    + eapply alarm_handle_mono; [|exact Hah].
      intros e He. simpl. apply elem_of_app. by left.
Qed.

Lemma step_Inv w w' : step w w' -> Inv w -> Inv w'.
Proof.
  intros Hstep HI. destruct Hstep as [c w|w|env w|w|env w|w|h w|w w' Hq].
  - destruct c; cbv [startPolling CaregiverUI.startPolling PrimaryUserUI.startPolling
                     HealthProfessionalUI.startPolling exec bind setInterval ret snd];
      repeat apply Inv_register; done.
  - cbv [EmergencyUI.startTimer exec bind setInterval ret snd]. by apply Inv_register.
  - unfold Main.DOMContentLoaded. rewrite exec_bind.
    pose proof (loadDashboardStats_quiet env w) as Hq. unfold exec in Hq.
    unfold not_awaited. destruct (Main.loadDashboardStats env w) as [r w1]. simpl in Hq.
    cbv [exec bind setInterval ret snd]. repeat apply Inv_register.
    by apply (Inv_quiet w).
  - cbv [Dashboard.DOMContentLoaded exec bind setInterval ret snd]. by apply Inv_register.
  - by apply Inv_playAlertSound.
  - by apply Inv_stopAlarm.
  - by apply Inv_alarm_tick.
  - by apply (Inv_quiet w).
Qed.

Lemma reachable_Inv w : reachable w -> Inv w.
Proof.
  unfold reachable. revert w.
  apply (rtc_ind_r (R:=step) Inv empty_page); [apply Inv_empty_page|].
  intros y z _ Hs IH. by apply (step_Inv y).
Qed.

(** On a reachable page the next handle is above the handles of all running
    timers. *)
Lemma reachable_handles_fresh w t :
  reachable w -> t ∈ timers w -> (handle t < nextHandle w)%positive.
Proof.
  intros Hr%reachable_Inv Ht.
  destruct (inv_timers_logged w Hr t Ht) as (ms & cb & Hin & _).
  by apply (inv_log_fresh w Hr _ ms cb).
Qed.

(** C4 (amended).  On every page the scripts can reach, an interval that was
    started with a callback other than the alarm's has never been passed to
    [clearInterval] and is still running, with the period and the callback it
    was started with.  (The alarm interval of [playAlertSound] is the one that
    is cleared.) *)
Theorem polling_timers_keep_running (w : World) (h : positive) (ms : Z) (cb : Callback) :
  reachable w ->
  SetInterval h ms cb ∈ log w ->
  is_alarm cb = false ->
  (ClearInterval h ∉ log w) /\ (mkTimer h ms cb ∈ timers w).
Proof.
  intros Hr Hin Hcb. apply reachable_Inv in Hr. split.
  - intros Hc. destruct (inv_cleared w Hr h Hc) as (ms' & cb' & Hin' & Hcb').
    rewrite (inv_kind w Hr _ _ _ _ _ Hin Hin') in Hcb. congruence.
  - by apply (inv_running w Hr).
Qed.

Lemma polling_timers_keep_running_witness :
  (ClearInterval 3 ∉ log caregiver_page) /\
  (mkTimer 3 60000 LoadBattery ∈ timers caregiver_page).
Proof.
  apply polling_timers_keep_running.
  - apply rtc_once. apply step_startPolling.
  - vm_compute. repeat constructor.
  - reflexivity.
Defined.

Lemma alarm_tick_returns h w :
  Main.alarm_tick h w = (Ok tt, exec (Main.alarm_tick h) w).
Proof.
  unfold exec, Main.alarm_tick. cbv [bind read].
  destruct (Main.find_timer h (timers w)) as [[h' ms []]|]; try reflexivity.
  unfold Main.alarm_callback, Main.playBeep.
  destruct (Main.maxBeeps <=? beepCount); [|reflexivity].
  cbv [bind read]. by destruct (alarmInterval w).
Qed.

Lemma alarm_ticks_succ n h w :
  exec (Main.alarm_ticks (S n) h) w =
  exec (Main.alarm_ticks n h) (exec (Main.alarm_tick h) w).
Proof. simpl. by rewrite exec_bind, alarm_tick_returns. Qed.

Lemma alarm_ticks_reachable n h w : reachable w -> reachable (exec (Main.alarm_ticks n h) w).
Proof.
  revert w. induction n as [|n IH]; intros w Hw; [done|].
  simpl. rewrite exec_bind.
  pose proof (step_alarm_tick h w) as Hs. unfold exec in Hs.
  destruct (Main.alarm_tick h w) as [[[]|e] w1] eqn:Ht; simpl in Hs.
  - apply IH. eapply rtc_r; eauto.
  - eapply rtc_r; eauto.
Qed.

(** C4 as stated fails: the interval that [playAlertSound] starts is cleared
    by its own callback once nine beeps have been played. *)
Lemma alarm_timer_is_cleared :
  ~ (forall w h ms cb, reachable w -> SetInterval h ms cb ∈ log w -> ClearInterval h ∉ log w).
Proof.
  intros H.
  apply (H alarm_over 1%positive 200 (AlarmTick 1)).
  - apply alarm_ticks_reachable. apply rtc_once. apply step_playAlertSound.
  - vm_compute. repeat constructor.
  - vm_compute. repeat constructor.
Qed.

(** ** The alarm *)

Lemma find_timer_absent h ts :
  Forall (fun t => handle t <> h) ts -> Main.find_timer h ts = None.
Proof.
  induction 1 as [|t ts Ht _ IH]; [done|]. unfold Main.find_timer in *. simpl.
  destruct (Pos.eqb_spec (handle t) h); [done | exact IH].
Qed.

Lemma find_timer_last h ts t :
  Forall (fun t => handle t <> h) ts -> handle t = h ->
  Main.find_timer h (ts ++ [t]) = Some t.
Proof.
  intros Hts Ht. induction Hts as [|t' ts Ht' _ IH]; unfold Main.find_timer in *; simpl.
  - by rewrite Ht, Pos.eqb_refl.
  - destruct (Pos.eqb_spec (handle t') h); [done | exact IH].
Qed.

Lemma set_callback_last h ts ms cb cb' :
  Forall (fun t => handle t <> h) ts ->
  Main.set_callback h cb' (ts ++ [mkTimer h ms cb]) = (ts ++ [mkTimer h ms cb'])%list.
Proof.
  intros Hts. unfold Main.set_callback. rewrite map_app. simpl.
  rewrite Pos.eqb_refl. f_equal.
  induction Hts as [|t ts Ht _ IH]; [done|]. simpl.
  destruct (Pos.eqb_spec (handle t) h); [done | by rewrite IH].
Qed.

Lemma filter_last h ts ms cb :
  Forall (fun t => handle t <> h) ts ->
  filter (fun t => handle t <> h) (ts ++ [mkTimer h ms cb]) = ts.
Proof.
  intros Hts. induction Hts as [|t ts Ht _ IH]; simpl.
  - rewrite filter_cons_False; [done|]. simpl. by intros [].
  - rewrite filter_cons_True; [by rewrite IH | done].
Qed.

Lemma alarm_tick_beep ts h k w :
  alarm_state ts h k w -> k < Main.maxBeeps ->
  exec (Main.alarm_tick h) w =
    with_timers (ts ++ [mkTimer h 200 (AlarmTick (k + 1))])
      (record (Beep (if k mod 2 =? 0 then 880 else 660) 0.15) w).
Proof.
  intros (Ht & Ha & Hts) Hk. unfold Main.alarm_tick.
  cbv [exec bind read snd]. rewrite Ht, (find_timer_last h ts (mkTimer h 200 (AlarmTick k)) Hts eq_refl). simpl.
  unfold Main.alarm_callback, Main.playBeep.
  destruct (Z.leb_spec Main.maxBeeps k); [lia|].
  cbv [bind emit modify ret snd]. simpl.
  by rewrite Ht, set_callback_last.
Qed.

Lemma alarm_tick_stop ts h k w :
  alarm_state ts h k w -> Main.maxBeeps <= k ->
  exec (Main.alarm_tick h) w = with_alarmInterval None (unregister_timer h w).
Proof.
  intros (Ht & Ha & Hts) Hk. unfold Main.alarm_tick.
  cbv [exec bind read snd]. rewrite Ht, (find_timer_last h ts (mkTimer h 200 (AlarmTick k)) Hts eq_refl). simpl.
  unfold Main.alarm_callback.
  destruct (Z.leb_spec Main.maxBeeps k); [|lia].
  cbv [bind read modify ret snd clearInterval]. by rewrite Ha.
Qed.

Lemma alarm_ticks_idle n h w :
  Main.find_timer h (timers w) = None -> exec (Main.alarm_ticks n h) w = w.
Proof.
  intros Hf. induction n as [|n IH]; [done|].
  simpl. rewrite exec_bind. unfold Main.alarm_tick at 1.
  cbv [bind read ret]. by rewrite Hf.
Qed.

Lemma even_count (k : nat) : (Z.of_nat k mod 2 =? 0) = Nat.even k.
Proof.
  induction k as [|k IH]; [reflexivity|].
  rewrite Nat.even_succ, <- Nat.negb_even, <- IH, Nat2Z.inj_succ.
  destruct (Z.eqb_spec (Z.of_nat k mod 2) 0) as [H0|H0];
    destruct (Z.eqb_spec (Z.succ (Z.of_nat k) mod 2) 0) as [H1|H1];
    simpl; try reflexivity; exfalso;
    revert H0 H1; generalize (Z.of_nat k); intros z H0 H1;
    Z.div_mod_to_equations; lia.
Qed.

Lemma alarm_ticks_run ts h n :
  forall (k : nat) w,
    alarm_state ts h (Z.of_nat k) w -> (k <= 9)%nat ->
    exists evs,
      log (exec (Main.alarm_ticks n h) w) = log w ++ evs /\
      beeps evs = map tone (seq k (Nat.min n (9 - k))) /\
      ((n <= 9 - k)%nat ->
         alarm_state ts h (Z.of_nat (k + n)) (exec (Main.alarm_ticks n h) w) /\
         ClearInterval h ∉ evs) /\
      ((9 - k < n)%nat ->
         timers (exec (Main.alarm_ticks n h) w) = ts /\
         alarmInterval (exec (Main.alarm_ticks n h) w) = None /\
         ClearInterval h ∈ evs).
Proof.
  induction n as [|n IH]; intros k w Hst Hk.
  - exists []. simpl. rewrite app_nil_r, Nat.add_0_r.
    split; [done|]. split; [done|]. split; [|lia].
    intros _. split; [done|]. by intros ?%elem_of_nil.
  - rewrite alarm_ticks_succ.
    destruct (decide (k < 9)%nat) as [Hlt|Hge].
    + rewrite (alarm_tick_beep ts h (Z.of_nat k) w Hst) by (unfold Main.maxBeeps; lia).
      set (w1 := with_timers _ _).
      assert (Hst1 : alarm_state ts h (Z.of_nat (S k)) w1).
      { destruct Hst as (Ht & Ha & Hts). repeat split; try done.
        subst w1. simpl. by rewrite Nat2Z.inj_succ. }
      destruct (IH (S k) w1 Hst1 ltac:(lia)) as (evs & Hlog & Hb & Hrun & Hstop).
      exists (Beep (if Z.of_nat k mod 2 =? 0 then 880 else 660) 0.15 :: evs).
      split; [| split; [| split]].
      * rewrite Hlog. subst w1. simpl. by rewrite <- app_assoc.
      * replace (Nat.min (S n) (9 - k)) with (S (Nat.min n (9 - S k))) by lia.
        simpl. by rewrite Hb, even_count.
      * intros Hn. destruct (Hrun ltac:(lia)) as [Hs Hc].
        replace (k + S n)%nat with (S k + n)%nat by lia. split; [done|].
        intros [?|?]%elem_of_cons; [discriminate | done].
      * intros Hn. destruct (Hstop ltac:(lia)) as (? & ? & ?).
        repeat split; try done. by apply elem_of_cons; right.
    + assert (k = 9)%nat as -> by lia.
      rewrite (alarm_tick_stop ts h (Z.of_nat 9) w Hst) by (unfold Main.maxBeeps; lia).
      destruct Hst as (Ht & Ha & Hts).
      assert (Hts1 : timers (with_alarmInterval None (unregister_timer h w)) = ts).
      { simpl. rewrite Ht. by apply filter_last. }
      rewrite alarm_ticks_idle by (rewrite Hts1; by apply find_timer_absent).
      exists [ClearInterval h]. simpl.
      split; [done|]. split; [done|]. split; [lia|].
      intros _. split; [done|]. split; [done|]. by apply list_elem_of_singleton.
Qed.

Lemma playAlertSound_starts env w :
  audioContext env = true ->
  (forall t, t ∈ timers w -> (handle t < nextHandle w)%positive) ->
  exists ts pre post,
    alarm_state ts (nextHandle w) 1 (exec (Main.playAlertSound env) w) /\
    log (exec (Main.playAlertSound env) w) =
      log w ++ pre ++ [Beep 880 0.15; SetInterval (nextHandle w) 200 (AlarmTick 1)] ++ post /\
    beeps pre = [] /\ beeps post = [].
Proof.
  intros Haudio Hfresh. unfold Main.playAlertSound, Main.playBeep.
  cbv [exec try_catch bind read modify emit ret throw console_log snd].
  rewrite Haudio.
  assert (Hne : Forall (fun t => handle t <> nextHandle w) (timers w)).
  { apply Forall_forall. intros t Ht%Hfresh. lia. }
  destruct (alarmInterval w) as [a|];
    [ exists (filter (fun t => handle t <> a) (timers w)), [ClearInterval a]
    | exists (timers w), [] ];
    cbv [clearInterval modify setInterval];
    (destruct (notification env) as [[]|]; cbv beta iota;
     [ exists [ShowNotification "🚨 FALL DETECTED!"]
     | exists []
     | exists [RequestPermission]
     | exists [Console "log" "Audio not supported: Notification is not defined"] ]);
    (split; [split; [reflexivity | split; [reflexivity|]] | split; [|done]]);
    try (simpl; rewrite <- ?app_assoc; reflexivity);
    try done.
  all: apply Forall_forall; intros t [_ Ht]%list_elem_of_filter;
    apply Hfresh in Ht; simpl; lia.
Qed.

(** C3.  Where audio is available, one call of [playAlertSound] followed by
    [n] firings of its interval has played [min (n + 1) 9] beeps, beep [k]
    (from 0) at 880 Hz for even [k] and 660 Hz for odd [k].  While fewer than
    nine firings have happened the interval is still running; from the ninth
    firing on it has cleared itself, [alarmInterval] is [null] again, and no
    further beep is played: nine beeps in all. *)
Theorem alarm_plays_nine_beeps (env : Env) (w : World) (n : nat) :
  audioContext env = true ->
  (forall t, t ∈ timers w -> (handle t < nextHandle w)%positive) ->
  let h := nextHandle w in
  let w' := exec (Main.alarm_ticks n h) (exec (Main.playAlertSound env) w) in
  exists evs,
    log w' = log w ++ evs /\
    beeps evs = siren (Nat.min (S n) 9) /\
    ((n < 9)%nat ->
       Main.find_timer h (timers w') = Some (mkTimer h 200 (AlarmTick (Z.of_nat (S n)))) /\
       alarmInterval w' = Some h) /\
    ((9 <= n)%nat ->
       Main.find_timer h (timers w') = None /\
       alarmInterval w' = None /\
       ClearInterval h ∈ evs).
Proof.
  intros Haudio Hfresh h w'.
  destruct (playAlertSound_starts env w Haudio Hfresh)
    as (ts & pre & post & Hst & Hlog & Hpre & Hpost).
  destruct (alarm_ticks_run ts h n 1 _ Hst ltac:(lia))
    as (evs & Hlog' & Hb & Hrun & Hstop).
  fold w' in Hlog', Hrun, Hstop.
  exists (pre ++ [Beep 880 0.15; SetInterval h 200 (AlarmTick 1)] ++ post ++ evs).
  split; [| split; [| split]].
  - rewrite Hlog', Hlog. subst h. by rewrite <- !app_assoc.
  - unfold beeps in *. rewrite !omap_app, Hpre, Hpost, Hb. simpl.
    replace (Nat.min (S n) 9) with (S (Nat.min n 8)) by lia. reflexivity.
  - intros Hn. destruct (Hrun ltac:(lia)) as [(Ht & Ha & Hts) _].
    split; [|done]. rewrite Ht. by apply find_timer_last.
  - intros Hn. destruct (Hstop ltac:(lia)) as (Ht & Ha & Hc).
    split; [|split; [done|]].
    + rewrite Ht. apply find_timer_absent. by destruct Hst as (_ & _ & ?).
    + rewrite !elem_of_app. auto.
Qed.

Lemma alarm_plays_nine_beeps_witness :
  exists evs,
    log (exec (Main.alarm_ticks 12 1) (exec (Main.playAlertSound silent) empty_page)) =
      log empty_page ++ evs /\
    beeps evs = siren 9 /\
    ((12 < 9)%nat ->
       Main.find_timer 1 (timers (exec (Main.alarm_ticks 12 1)
                                    (exec (Main.playAlertSound silent) empty_page))) =
         Some (mkTimer 1 200 (AlarmTick 13)) /\
       alarmInterval (exec (Main.alarm_ticks 12 1)
                        (exec (Main.playAlertSound silent) empty_page)) = Some 1%positive) /\
    ((9 <= 12)%nat ->
       Main.find_timer 1 (timers (exec (Main.alarm_ticks 12 1)
                                    (exec (Main.playAlertSound silent) empty_page))) = None /\
       alarmInterval (exec (Main.alarm_ticks 12 1)
                        (exec (Main.playAlertSound silent) empty_page)) = None /\
       ClearInterval 1 ∈ evs).
Proof.
  apply (alarm_plays_nine_beeps silent empty_page 12).
  - reflexivity.
  - intros t Ht. by apply elem_of_nil in Ht.
Defined.

(** ** The caregiver dashboard *)



Lemma token_in_elem_of t cl : token_in t cl = true <-> t ∈ cl.
Proof.
  unfold token_in. rewrite existsb_exists. split.
  - intros (x & Hin & Heq). apply String.eqb_eq in Heq as ->. by apply list_elem_of_In.
  - intros Hin. exists t. split; [by apply list_elem_of_In | apply String.eqb_refl].
Qed.

Lemma elem_of_classList_add1 t x cl : t ∈ classList_add1 x cl <-> t ∈ cl \/ t = x.
Proof.
  unfold classList_add1. destruct (token_in x cl) eqn:Hx.
  - apply token_in_elem_of in Hx. split; [auto | by intros [?| ->]].
  - rewrite elem_of_app, list_elem_of_singleton. done.
Qed.

Lemma elem_of_classList_remove1 t x cl : t ∈ classList_remove1 x cl <-> t ∈ cl /\ t <> x.
Proof. unfold classList_remove1. rewrite list_elem_of_filter. tauto. Qed.

Lemma loadBattery_run env w payload battery n e1 bar :
  responds env (fetch_init "/caregiver/api/device/battery/patient_001" no_options) payload ->
  success payload ->
  get payload "battery" = Ok battery ->
  get battery "level" = Ok (VNum n) ->
  dom w !! "batteryLevel" = Some e1 ->
  dom w !! "batteryBar" = Some bar ->
  let bar' :=
    set_classList
      (classList_add [battery_color n]
         (classList_remove ["bg-green-500"; "bg-yellow-500"; "bg-red-500"] (classList bar)))
      (set_style_width (pretty n +:+ "%") bar) in
  dom (exec (CaregiverUI.loadBattery env) w) !! "batteryBar" = Some bar' /\
  log (exec (CaregiverUI.loadBattery env) w) =
    log w ++ Fetch (fetch_init "/caregiver/api/device/battery/patient_001" no_options)
          :: battery_warning n.
Proof.
  intros Hresp (s & Hs & Hts) Hbattery Hlevel He1 Hbar bar'. subst bar'.
  unfold CaregiverUI.loadBattery, CaregiverAPI.getBattery.
  change (CaregiverAPI._fetch env) with (api_fetch Caregiver env).
  unfold exec, try_catch, bind.
  rewrite (api_fetch_responds _ _ _ _ payload) by exact Hresp.
  unfold lift. rewrite Hs, Hts, Hbattery, Hlevel.
  unfold setTextContent, setStyleWidth, classListRemove, classListAdd.
  update_with e1 He1.
  rewrite (update_element_run _ _ _ _ bar)
    by (cbn [dom with_dom record with_log]; by rewrite lookup_insert_ne).
  rewrite (update_element_run _ _ _ _ (set_style_width (pretty n +:+ "%") bar))
    by (cbn [dom with_dom record with_log]; by rewrite lookup_insert_eq).
  unfold battery_color, battery_warning, js_gt, js_lt, when, showToast. cbn [toNumber toString].
  destruct (50 <? n); [|destruct (20 <? n)];
    (erewrite update_element_run
       by (cbn [dom with_dom record with_log]; by rewrite lookup_insert_eq));
    (destruct (n <? 20); cbn [emit modify ret snd dom log with_dom record with_log]);
    (split; [by rewrite lookup_insert_eq | by rewrite <- ?app_assoc, ?app_nil_r]).
Qed.

(** C10.  For a fetched battery level [n], [loadBattery] leaves exactly one of
    the three colour classes on the bar: green iff [n > 50], yellow iff
    [20 < n <= 50], red iff [n <= 20]; the low-battery toast is shown iff
    [n < 20].  At [n = 20] the bar is red and no toast is shown. *)
Theorem battery_bar_and_warning (env : Env) (w : World) (payload battery : jsval) (n : Z)
    (bar : Element) :
  responds env (fetch_init "/caregiver/api/device/battery/patient_001" no_options) payload ->
  success payload ->
  get payload "battery" = Ok battery ->
  get battery "level" = Ok (VNum n) ->
  is_Some (dom w !! "batteryLevel") ->
  dom w !! "batteryBar" = Some bar ->
  exists bar',
    dom (exec (CaregiverUI.loadBattery env) w) !! "batteryBar" = Some bar' /\
    ("bg-green-500" ∈ classList bar' <-> 50 < n) /\
    ("bg-yellow-500" ∈ classList bar' <-> 20 < n <= 50) /\
    ("bg-red-500" ∈ classList bar' <-> n <= 20) /\
    (toasts (emitted (CaregiverUI.loadBattery env) w) <> [] <-> n < 20) /\
    (n = 20 -> "bg-red-500" ∈ classList bar' /\
               toasts (emitted (CaregiverUI.loadBattery env) w) = []).
Proof.
  intros Hresp Hsucc Hbattery Hlevel [e1 He1] Hbar.
  destruct (loadBattery_run env w payload battery n e1 bar) as [Hdom Hlog]; try done.
  eexists. split; [exact Hdom|].
  assert (Hcl : forall t, t ∈ ["bg-green-500"; "bg-yellow-500"; "bg-red-500"] ->
            t ∈ classList_add [battery_color n]
                  (classList_remove ["bg-green-500"; "bg-yellow-500"; "bg-red-500"]
                     (classList bar)) <-> t = battery_color n).
  { intros t Ht. cbn [classList_add classList_remove foldl].
    rewrite elem_of_classList_add1, !elem_of_classList_remove1.
    split; [|by right]. intros [(((_ & Hg) & Hy) & Hr)| ->]; [|done]. exfalso.
    repeat (apply elem_of_cons in Ht as [-> | Ht]; [congruence|]).
    by apply elem_of_nil in Ht. }
  assert (Htoasts : toasts (emitted (CaregiverUI.loadBattery env) w) =
                    toasts (battery_warning n)).
  { unfold emitted. rewrite Hlog, drop_app_length. reflexivity. }
  cbn [classList set_classList]. rewrite !Hcl by repeat constructor.
  rewrite Htoasts. unfold battery_color, battery_warning.
  destruct (Z.ltb_spec 50 n); destruct (Z.ltb_spec 20 n); destruct (Z.ltb_spec n 20);
    repeat split; intros; try done; try lia.
Qed.

Lemma battery_bar_and_warning_witness :
  exists bar',
    dom (exec (CaregiverUI.loadBattery (replying 200 (Some (battery_payload 20))))
           caregiver_view) !! "batteryBar" = Some bar' /\
    ("bg-green-500" ∈ classList bar' <-> 50 < 20) /\
    ("bg-yellow-500" ∈ classList bar' <-> 20 < 20 <= 50) /\
    ("bg-red-500" ∈ classList bar' <-> 20 <= 20) /\
    (toasts (emitted (CaregiverUI.loadBattery (replying 200 (Some (battery_payload 20))))
               caregiver_view) <> [] <-> 20 < 20) /\
    (20 = 20 ->
     "bg-red-500" ∈ classList bar' /\
     toasts (emitted (CaregiverUI.loadBattery (replying 200 (Some (battery_payload 20))))
               caregiver_view) = []).
Proof.
  apply (battery_bar_and_warning (replying 200 (Some (battery_payload 20))) caregiver_view
           (battery_payload 20) (battery_record 20) 20 blank).
  - eexists. repeat split; reflexivity.
  - eexists. split; reflexivity.
  - reflexivity.
  - reflexivity.
  - by eexists.
  - reflexivity.
Defined.

Lemma alertTemplate_object env fields :
  exists it,
    (forall w, CaregiverUI.alertTemplate env (VObj fields) w = (Ok it, w)) /\
    alert_rendered env (VObj fields) (attach_click it).
Proof.
  eexists. split; [intros w; reflexivity|].
  unfold attach_click, unread_item. cbn [class_attr data_unread].
  change (class_tokens ("alert-item " +:+ ?s)) with ("alert-item" :: class_tokens s).
  cbn [token_in existsb]. rewrite String.eqb_refl. cbn [orb andb].
  unfold field. cbn [get].
  destruct (truthy (default VUndefined (own_property fields "read"))) eqn:Hread;
    cbn [negb]; split; rewrite ?bool_decide_eq_true_2, ?bool_decide_eq_false_2 by done;
    cbn; rewrite ?Hread; try done.
Qed.

Lemma mapM_alertTemplate env (l : list jsval) :
  Forall is_object l ->
  exists items,
    (forall w, mapM (CaregiverUI.alertTemplate env) l w = (Ok items, w)) /\
    Forall2 (alert_rendered env) l (map attach_click items).
Proof.
  induction 1 as [|a l [fields ->] _ (items & Hrun & Hall)].
  - exists []. split; [done | constructor].
  - destruct (alertTemplate_object env fields) as (it & Hit & Hprop).
    exists (it :: items). split.
    + intros w. cbn [mapM]. unfold bind. by rewrite Hit, Hrun.
    + by constructor.
Qed.

Lemma alert_items_nodes (items : list AlertItem) :
  alert_items (map AlertItemNode items) = items.
Proof.
  unfold alert_items. induction items as [|it l IH]; [done|].
  cbn. f_equal. exact IH.
Qed.


Lemma loadAlerts_log env w :
  exists evs,
    log (exec (CaregiverUI.loadAlerts env) w) =
      log w ++ Fetch (alerts_request (currentFilter w)) :: evs /\
    fetches evs = [].
Proof.
  unfold CaregiverUI.loadAlerts.
  rewrite exec_try_catch_bind. cbn [read].
  unfold CaregiverAPI.getAlerts. cbn [default_param].
  change (CaregiverAPI._fetch env) with (api_fetch Caregiver env).
  rewrite exec_try_catch_bind, api_fetch_run.
  assert (Hreq : fetch_init
            (let u := CaregiverAPI.baseURL +:+ "/alerts/" +:+ CaregiverAPI.patientId +:+
                        "?limit=" +:+ toString (VNum 50) in
             if truthy (default_param VNull
                          (if strict_eq_str (currentFilter w) "all" then VNull
                           else currentFilter w))
             then u +:+ ("&severity=" +:+
                    toString (default_param VNull
                                (if strict_eq_str (currentFilter w) "all" then VNull
                                 else currentFilter w)))
             else u) no_options = alerts_request (currentFilter w)).
  { unfold alerts_request.
    destruct (strict_eq_str (currentFilter w) "all"); [reflexivity|].
    by destruct (currentFilter w). }
  cbv zeta in Hreq |- *. rewrite Hreq.
  destruct (fetch_outcome env _ _) as [result|e].
  - match goal with
    | |- context [exec (try_catch ?body ?h) ?w1] =>
        assert (Hnf : framed no_fetch (try_catch body h))
          by (solve_framed; apply renderAlerts_no_fetch);
        destruct (Hnf w1) as (_ & _ & evs & Hlog & Hevs)
    end.
    exists evs. split; [|done]. rewrite Hlog. cbn [log with_log].
    by rewrite <- app_assoc.
  - eexists. split.
    + unfold console_error, emit, modify, exec. cbn [snd log record with_log].
      rewrite <- !app_assoc. reflexivity.
    + reflexivity.
Qed.









(** ** The primary user dashboard *)

Lemma follow_mode_request_sent (activate : bool) :
  fetch_init "/primary/api/navigation/follow-mode"
    (PrimaryUserAPI.post
       (JsonStringify
          (VObj [("activate", VBool activate);
                 ("person_id", if activate then VStr "primary_caregiver" else VNull)]))) =
    follow_mode_request activate.
Proof. reflexivity. Qed.

(** C6.  With the stored flag at [b], [toggleFollowMode] sends exactly one
    request, the POST to the follow-mode endpoint with [activate = negb b] and
    [person_id] ['primary_caregiver'] when activating and [null] when
    deactivating; afterwards the stored flag is [negb b] when the response is
    a success envelope, and is still [b] in every other case (rejected fetch,
    non-2xx status, body that is not JSON, or a falsy [success]). *)
Theorem follow_mode_toggle (env : Env) (w : World) (b : bool) :
  let w0 := with_followModeActive (VBool b) w in
  let req := follow_mode_request (negb b) in
  fetches (emitted (PrimaryUserUI.toggleFollowMode env) w0) = [req] /\
  followModeActive (exec (PrimaryUserUI.toggleFollowMode env) w0) =
    VBool (if succeeds env req then negb b else b).
Proof.
  intros w0 req.
  assert (H : exists evs,
            log (exec (PrimaryUserUI.toggleFollowMode env) w0) = log w0 ++ evs /\
            fetches evs = [req] /\
            followModeActive (exec (PrimaryUserUI.toggleFollowMode env) w0) =
              VBool (if succeeds env req then negb b else b)).
  { unfold req. rewrite <- (follow_mode_request_sent (negb b)), fetch_outcome_succeeds.
    unfold PrimaryUserUI.toggleFollowMode, PrimaryUserAPI.toggleFollowMode.
    change (PrimaryUserAPI._fetch env) with (api_fetch PrimaryUser env).
    cbv [exec try_finally try_catch bind showLoading showToast emit modify read snd].
    rewrite api_fetch_run.
    cbn [followModeActive with_followModeActive record with_log w0 truthy default_param].
    change (PrimaryUserAPI.baseURL +:+ "/navigation/follow-mode")
      with "/primary/api/navigation/follow-mode".
    replace (default_param VNull (if negb b then VStr "primary_caregiver" else VNull))
      with (if negb b then VStr "primary_caregiver" else VNull) by (by destruct b).
    destruct (fetch_outcome env _ _) as [payload|e]; cbn [lift].
    - destruct (get payload "success") as [s|e].
      + destruct (truthy s).
        * pose proof (updateFollowModeUI_no_fetch (negb b)
                        (with_followModeActive (VBool (negb b))
                           (with_log (log (record (Loading true) w0) ++
                              [Fetch (fetch_init "/primary/api/navigation/follow-mode"
                                 (PrimaryUserAPI.post (JsonStringify (VObj
                                    [("activate", VBool (negb b));
                                     ("person_id", if negb b then VStr "primary_caregiver"
                                                   else VNull)]))))])
                              (record (Loading true) w0))))
            as (Hflag & _ & evs & Hlog & Hevs).
          unfold exec in Hflag, Hlog.
          destruct (PrimaryUserUI.updateFollowModeUI _ _) as [[[]|e] w2];
            cbn [snd] in Hflag, Hlog;
            [destruct (get payload "message") as [m|e]|];
            (eexists; split;
             [ cbn [log record with_log]; rewrite Hlog; cbn [log record with_log with_followModeActive];
               rewrite <- !app_assoc; reflexivity
             | split;
               [ unfold fetches in *; rewrite !omap_app, Hevs; reflexivity
               | cbn [followModeActive record with_log]; by rewrite Hflag ] ]).
        * destruct (get payload "message") as [m|e];
            (eexists; split;
             [ cbn [log record with_log with_followModeActive]; rewrite <- !app_assoc; reflexivity
             | split; reflexivity ]).
      + eexists; split;
          [ cbn [log record with_log with_followModeActive]; rewrite <- !app_assoc; reflexivity
          | split; reflexivity ].
    - eexists; split;
        [ cbn [log record with_log with_followModeActive]; rewrite <- !app_assoc; reflexivity
        | split; reflexivity ]. }
  destruct H as (evs & Hlog & Hf & Hflag).
  split; [|exact Hflag].
  by rewrite (emitted_app _ _ _ Hlog).
Qed.

(** ** The activity list *)

Lemma existsb_items {A} (p : A -> bool) (l : list A) :
  existsb p l = false -> filter (fun x => p x = true) l = [].
Proof.
  induction l as [|x l IH]; [done|]. simpl. intros [Hx Hl]%orb_false_iff.
  rewrite filter_cons_False by congruence. auto.
Qed.

Lemma remove_last_length {A} (p : A -> bool) (l : list A) :
  filter (fun x => p x = true) l <> [] ->
  S (length (filter (fun x => p x = true) (remove_last p l))) =
  length (filter (fun x => p x = true) l).
Proof.
  induction l as [|x l IH]; [done|]. intros Hne. simpl.
  destruct (existsb p l) eqn:Hex.
  - assert (Hl : filter (fun x => p x = true) l <> []).
    { intros Hnil. apply existsb_exists in Hex as (y & Hy & Hpy).
      apply list_elem_of_In in Hy.
      assert (y ∈ filter (fun x => p x = true) l) by (by apply list_elem_of_filter).
      rewrite Hnil in H. by apply elem_of_nil in H. }
    destruct (p x) eqn:Hx.
    + rewrite !filter_cons_True by done. simpl. by rewrite (IH Hl).
    + rewrite !filter_cons_False by congruence. by apply IH.
  - rewrite (existsb_items p l Hex) in *.
    destruct (p x) eqn:Hx.
    + by rewrite filter_cons_True.
    + rewrite filter_cons_False, (existsb_items p l Hex) in Hne by congruence. done.
Qed.

(** C9.  If the activity list holds at most five items, then after
    [addActivityItem] it has the new item in front and still holds at most
    five: with fewer than five items before, nothing is removed; with five,
    the last (oldest) item is removed. *)
Theorem activity_list_bounded (title time type : jsval) (w : World) (l : list ActivityNode) :
  activity_list w = Some l ->
  (length (activity_items l) <= 5)%nat ->
  exists new l',
    activity_list (exec (Main.addActivityItem title time type) w) = Some l' /\
    is_activity_item new = true /\
    title_text new = toString title /\
    (length (activity_items l') <= 5)%nat /\
    ((length (activity_items l) < 5)%nat -> l' = new :: l) /\
    ((length (activity_items l) = 5)%nat ->
       l' = new :: remove_last is_activity_item l /\
       length (activity_items l') = 5%nat).
Proof.
  intros Hl Hlen. unfold Main.addActivityItem.
  cbv [exec bind read modify snd]. rewrite Hl.
  set (new := mkActivityNode _ _ _ _ _).
  exists new. cbn [activity_list with_activity_list].
  fold (activity_items (new :: l)).
  assert (Hnew : activity_items (new :: l) = new :: activity_items l).
  { unfold activity_items. by rewrite filter_cons_True. }
  rewrite Hnew. cbn [length].
  destruct (Z.ltb_spec 5 (Z.of_nat (S (length (activity_items l))))) as [Hgt|Hle].
  - assert (Hfive : length (activity_items l) = 5%nat) by lia.
    pose proof (remove_last_length is_activity_item (new :: l)) as Hrm.
    fold (activity_items (new :: l)) in Hrm.
    fold (activity_items (remove_last is_activity_item (new :: l))) in Hrm.
    rewrite Hnew in Hrm. specialize (Hrm ltac:(done)). cbn [length] in Hrm.
    assert (Hex : existsb is_activity_item l = true).
    { destruct (existsb is_activity_item l) eqn:Hex; [done|].
      apply existsb_items in Hex. fold (activity_items l) in Hex.
      rewrite Hex in Hfive. discriminate. }
    eexists. split; [reflexivity|]. repeat split; try done; try lia.
    cbn [remove_last]. by rewrite Hex.
  - eexists. split; [reflexivity|]. rewrite Hnew. cbn [length].
    repeat split; try done; try lia.
Qed.

Lemma activity_list_bounded_witness :
  exists new l',
    activity_list (exec (Main.addActivityItem (VStr "Fall Detected") (VStr "Just now")
                           (VStr "danger")) operator_view) = Some l' /\
    is_activity_item new = true /\
    title_text new = toString (VStr "Fall Detected") /\
    (length (activity_items l') <= 5)%nat /\
    ((length (activity_items five_entries) < 5)%nat -> l' = new :: five_entries) /\
    ((length (activity_items five_entries) = 5)%nat ->
       l' = new :: remove_last is_activity_item five_entries /\
       length (activity_items l') = 5%nat).
Proof.
  apply (activity_list_bounded (VStr "Fall Detected") (VStr "Just now") (VStr "danger")
           operator_view five_entries).
  - reflexivity.
  - vm_compute. lia.
Defined.

(** * Further properties *)

(** ** The alarm interval over the life of the page *)

Lemma AlarmInv_empty_page : AlarmInv empty_page.
Proof.
  split; simpl; intros; try discriminate; try constructor;
    repeat match goal with H : _ ∈ [] |- _ => by apply elem_of_nil in H end.
Qed.

Lemma AlarmInv_same w w' :
  timers w' = timers w -> nextHandle w' = nextHandle w ->
  alarmInterval w' = alarmInterval w -> AlarmInv w -> AlarmInv w'.
Proof.
  intros Ht Hn Ha [H1 H2 H3 H4]. split; rewrite ?Ht, ?Hn, ?Ha; auto.
Qed.

Lemma AlarmInv_quiet P w w' : quiet P w w' -> AlarmInv w -> AlarmInv w'.
Proof. intros (Ht & Hn & Ha & _). by apply AlarmInv_same. Qed.

Lemma AlarmInv_record e w : AlarmInv w -> AlarmInv (record e w).
Proof. by apply AlarmInv_same. Qed.

Lemma AlarmInv_register cb ms w :
  is_alarm cb = false -> AlarmInv w -> AlarmInv (register_timer cb ms w).
Proof.
  intros Hcb [H1 H2 H3 H4]. split; simpl.
  - rewrite fmap_app. apply NoDup_app. split; [done|]. split; [|repeat constructor; apply not_elem_of_nil].
    intros h Hin Hin'. apply list_elem_of_singleton in Hin'. subst h.
    apply list_elem_of_fmap in Hin as (t & Heq & Hin). apply H2 in Hin. simpl in Heq. lia.
  - intros t Hin. apply elem_of_app in Hin as [Hin|Hin].
    + apply H2 in Hin. lia.
    + apply list_elem_of_singleton in Hin as ->. simpl. lia.
  - intros t Hin Ht. apply elem_of_app in Hin as [Hin|Hin]; [eauto|].
    apply list_elem_of_singleton in Hin as ->. simpl in Ht. congruence.
  - intros h Hh. destruct (H4 h Hh) as (t & ? & ? & ?). exists t.
    split; [|done]. apply elem_of_app. by left.
Qed.

Lemma handle_inj (l : list Timer) x y :
  NoDup (handle <$> l) -> x ∈ l -> y ∈ l -> handle x = handle y -> x = y.
Proof.
  induction l as [|z l IH]; intros Hnd Hx Hy Hxy; [by apply elem_of_nil in Hx|].
  rewrite fmap_cons in Hnd. apply NoDup_cons in Hnd as [Hz Hnd].
  apply elem_of_cons in Hx as [->|Hx]; apply elem_of_cons in Hy as [->|Hy]; auto.
  - destruct Hz. rewrite Hxy. apply list_elem_of_fmap. eauto.
  - destruct Hz. rewrite <- Hxy. apply list_elem_of_fmap. eauto.
Qed.

Lemma NoDup_handles_filter (P : Timer -> Prop) `{!forall t, Decision (P t)} (l : list Timer) :
  NoDup (handle <$> l) -> NoDup (handle <$> filter P l).
Proof.
  induction l as [|z l IH]; [constructor|].
  rewrite fmap_cons, NoDup_cons. intros [Hz Hnd].
  destruct (decide (P z)) as [Hp|Hp].
  - rewrite filter_cons_True by done. rewrite fmap_cons, NoDup_cons. split; [|auto].
    intros Hin. apply Hz. apply list_elem_of_fmap in Hin as (t & ? & Hin).
    apply list_elem_of_filter in Hin as [_ Hin]. apply list_elem_of_fmap. eauto.
  - rewrite filter_cons_False by done. auto.
Qed.

(** After [clearInterval(alarmInterval)] no alarm interval is running, and
    the other intervals are the ones that ran before. *)
Lemma clear_alarm_timers w :
  AlarmInv w ->
  NoDup (handle <$> timers (clear_alarm w)) /\
  nextHandle (clear_alarm w) = nextHandle w /\
  (forall t, t ∈ timers (clear_alarm w) -> t ∈ timers w /\ is_alarm (callback t) = false) /\
  (forall t, t ∈ timers w -> is_alarm (callback t) = false -> t ∈ timers (clear_alarm w)).
Proof.
  intros [H1 H2 H3 H4]. unfold clear_alarm.
  destruct (alarmInterval w) as [a|] eqn:Ha; simpl.
  - split; [by apply NoDup_handles_filter|]. split; [done|]. split.
    + intros t Hin. apply list_elem_of_filter in Hin as [Hne Hin].
      split; [done|].
      destruct (is_alarm (callback t)) eqn:Ht; [|done].
      apply H3 in Hin; [|done]. congruence.
    + intros t Hin Ht. apply list_elem_of_filter. split; [|done].
      intros Heq. destruct (H4 a eq_refl) as (t' & Hin' & Hh' & Ht').
      assert (t = t') by (apply (handle_inj (timers w)); congruence).
      congruence.
  - split; [done|]. split; [done|]. split; [|done].
    intros t Hin. split; [done|].
    destruct (is_alarm (callback t)) eqn:Ht; [|done].
    apply H3 in Hin; [|done]. congruence.
Qed.

Lemma AlarmInv_clear_stop w : AlarmInv w -> AlarmInv (with_alarmInterval None (clear_alarm w)).
Proof.
  intros HI. destruct (clear_alarm_timers w HI) as (Hnd & Hn & Hsub & _).
  pose proof (alarm_fresh w HI) as Hf.
  split; simpl.
  - done.
  - intros t Hin. rewrite Hn. apply Hf. by apply Hsub.
  - intros t Hin Ht. apply Hsub in Hin as [_ Hin]. congruence.
  - discriminate.
Qed.

Lemma AlarmInv_clear_start k ms e w :
  AlarmInv w ->
  AlarmInv (with_alarmInterval (Some (nextHandle (record e (clear_alarm w))))
              (register_timer (AlarmTick k) ms (record e (clear_alarm w)))).
Proof.
  intros HI. destruct (clear_alarm_timers w HI) as (Hnd & Hn & Hsub & _).
  pose proof (alarm_fresh w HI) as Hf.
  assert (Hf' : forall t, t ∈ timers (clear_alarm w) ->
                          (handle t < nextHandle (clear_alarm w))%positive).
  { intros t Hin. rewrite Hn. apply Hf. by apply Hsub. }
  split; simpl.
  - rewrite fmap_app. apply NoDup_app. split; [done|].
    split; [|repeat constructor; apply not_elem_of_nil].
    intros h Hin Hin'. apply list_elem_of_singleton in Hin'. subst h.
    apply list_elem_of_fmap in Hin as (t & Heq & Hin). apply Hf' in Hin. simpl in Heq. lia.
  - intros t Hin. apply elem_of_app in Hin as [Hin|Hin].
    + apply Hf' in Hin. lia.
    + apply list_elem_of_singleton in Hin as ->. simpl. lia.
  - intros t Hin Ht. apply elem_of_app in Hin as [Hin|Hin].
    + apply Hsub in Hin as [_ Hin]. congruence.
    + by apply list_elem_of_singleton in Hin as ->.
  - intros h [= <-]. eexists. split; [apply elem_of_app; right; by apply list_elem_of_singleton|].
    done.
Qed.

Lemma AlarmInv_playAlertSound env w : AlarmInv w -> AlarmInv (exec (Main.playAlertSound env) w).
Proof.
  intros HI. unfold Main.playAlertSound, Main.playBeep.
  cbv [exec try_catch bind read modify emit ret throw console_log snd].
  destruct (audioContext env); [|by apply AlarmInv_record].
  pose proof (AlarmInv_clear_start (0 + 1) 200 (Beep 880 0.15) w HI) as HI2.
  unfold clear_alarm in HI2.
  destruct (alarmInterval w) as [a|];
    cbv [clearInterval modify setInterval];
    destruct (notification env) as [[]|]; cbv beta iota;
    repeat apply AlarmInv_record; exact HI2.
Qed.

Lemma AlarmInv_stopAlarm w : AlarmInv w -> AlarmInv (exec Main.stopAlarm w).
Proof.
  intros HI. unfold Main.stopAlarm.
  cbv [exec bind read modify ret snd].
  pose proof (AlarmInv_clear_stop w HI) as HI1. unfold clear_alarm in HI1.
  destruct (alarmInterval w) as [a|]; [|done].
  cbv [clearInterval modify]. exact HI1.
Qed.

Lemma AlarmInv_set_callback h k k' ms w :
  AlarmInv w -> mkTimer h ms (AlarmTick k) ∈ timers w ->
  AlarmInv (with_timers (Main.set_callback h (AlarmTick k') (timers w)) w).
Proof.
  intros [H1 H2 H3 H4] Hin.
  assert (Hh : forall t, handle (if Pos.eqb (handle t) h
                                 then mkTimer (handle t) (period t) (AlarmTick k') else t)
                         = handle t).
  { intros t. by destruct (Pos.eqb (handle t) h). }
  split; simpl; unfold Main.set_callback.
  - rewrite <- list_fmap_compose.
    replace (handle ∘ _ <$> timers w) with (handle <$> timers w); [done|].
    apply list_fmap_ext. intros i t _. symmetry. apply Hh.
  - intros t' Ht'. apply list_elem_of_fmap in Ht' as (t & -> & Ht). rewrite Hh. auto.
  - intros t' Ht' Ha. apply list_elem_of_fmap in Ht' as (t & -> & Ht). rewrite Hh.
    destruct (Pos.eqb_spec (handle t) h) as [Heq|Hne]; [|auto].
    rewrite Heq. by apply (H3 _ Hin).
  - intros a Ha. destruct (H4 a Ha) as (t & Ht & Heq & Hal).
    eexists. split; [apply list_elem_of_fmap; eauto|]. rewrite Hh. split; [done|].
    by destruct (Pos.eqb (handle t) h).
Qed.

Lemma AlarmInv_alarm_tick h w : AlarmInv w -> AlarmInv (exec (Main.alarm_tick h) w).
Proof.
  intros HI. unfold Main.alarm_tick.
  cbv [exec bind read ret snd].
  destruct (Main.find_timer h (timers w)) as [[h' ms cb]|] eqn:Hfind; [|done].
  apply find_timer_Some in Hfind as [Hin Hh]. simpl in Hh. subst h'.
  destruct cb; try done.
  unfold Main.alarm_callback, Main.playBeep.
  destruct (Main.maxBeeps <=? beepCount).
  - cbv [exec bind read modify ret snd].
    pose proof (AlarmInv_clear_stop w HI) as HI1. unfold clear_alarm in HI1.
    destruct (alarmInterval w) as [a|]; cbv [clearInterval modify]; exact HI1.
  - cbv [exec bind emit modify ret snd].
    apply (AlarmInv_set_callback h beepCount (beepCount + 1) ms (record _ w)).
    + by apply AlarmInv_record.
    + exact Hin.
Qed.

Lemma step_AlarmInv w w' : step w w' -> AlarmInv w -> AlarmInv w'.
Proof.
  intros Hstep HI. destruct Hstep as [c w|w|env w|w|env w|w|h w|w w' Hq].
  - destruct c; cbv [startPolling CaregiverUI.startPolling PrimaryUserUI.startPolling
                     HealthProfessionalUI.startPolling exec bind setInterval ret snd];
      repeat (apply AlarmInv_register; [done|]); done.
  - cbv [EmergencyUI.startTimer exec bind setInterval ret snd]. by apply AlarmInv_register.
  - unfold Main.DOMContentLoaded. rewrite exec_bind.
    pose proof (loadDashboardStats_quiet env w) as Hq. unfold exec in Hq.
    unfold not_awaited. destruct (Main.loadDashboardStats env w) as [r w1]. simpl in Hq.
    cbv [exec bind setInterval ret snd]. repeat (apply AlarmInv_register; [done|]).
    by apply (AlarmInv_quiet no_timer_event w).
  - cbv [Dashboard.DOMContentLoaded exec bind setInterval ret snd]. by apply AlarmInv_register.
  - by apply AlarmInv_playAlertSound.
  - by apply AlarmInv_stopAlarm.
  - by apply AlarmInv_alarm_tick.
  - by apply (AlarmInv_quiet no_timer_event w).
Qed.

Lemma reachable_AlarmInv w : reachable w -> AlarmInv w.
Proof.
  unfold reachable. revert w.
  apply (rtc_ind_r (R:=step) AlarmInv empty_page); [apply AlarmInv_empty_page|].
  intros y z _ Hs IH. by apply (step_AlarmInv y).
Qed.

(** ** What a failed load leaves behind *)

Lemma record_with_log e l w : record e (with_log l w) = with_log (l ++ [e]) w.
Proof. reflexivity. Qed.

(** X1.  When the status request fails (no answer, an error status, or a body
    that is not JSON), [loadPatientStatus] leaves the page as it is, logs the
    error twice on the console (once in the wrapper, once in its own
    handler) and shows one error toast. *)
Theorem patient_status_failure (env : Env) (w : World) (e : JsError) :
  fetch_outcome env "/caregiver/api/patient/status/patient_001" no_options = Throw e ->
  dom (exec (CaregiverUI.loadPatientStatus env) w) = dom w /\
  emitted (CaregiverUI.loadPatientStatus env) w =
    [Fetch patient_status_request;
     Console "error" ("API Error: " +:+ emessage e);
     Console "error" ("Failed to load patient status: " +:+ emessage e);
     Toast "Failed to load patient status" "error"].
Proof.
  intros He.
  assert (H : exec (CaregiverUI.loadPatientStatus env) w =
              with_log (log w ++
                [Fetch patient_status_request;
                 Console "error" ("API Error: " +:+ emessage e);
                 Console "error" ("Failed to load patient status: " +:+ emessage e);
                 Toast "Failed to load patient status" "error"]) w).
  { unfold CaregiverUI.loadPatientStatus, CaregiverAPI.getPatientStatus.
    change (CaregiverAPI._fetch env) with (api_fetch Caregiver env).
    rewrite exec_try_catch_bind, api_fetch_run.
    change (CaregiverAPI.baseURL +:+ "/patient/status/" +:+ CaregiverAPI.patientId)
      with "/caregiver/api/patient/status/patient_001".
    rewrite He.
    cbv [exec bind console_error showToast emit modify snd].
    rewrite !record_with_log, <- !app_assoc. reflexivity. }
  split; [by rewrite H|].
  apply emitted_app. by rewrite H.
Qed.

Lemma patient_status_failure_witness :
  dom (exec (CaregiverUI.loadPatientStatus silent) caregiver_view) = dom caregiver_view /\
  emitted (CaregiverUI.loadPatientStatus silent) caregiver_view =
    [Fetch patient_status_request;
     Console "error" "API Error: Failed to fetch";
     Console "error" "Failed to load patient status: Failed to fetch";
     Toast "Failed to load patient status" "error"].
Proof. apply (patient_status_failure silent caregiver_view (mkError TypeError "Failed to fetch")). reflexivity. Defined.

(** X2.  A failed battery request is not shown to the user: [loadBattery]
    leaves level, bar and colour as they were and only writes to the
    console. *)
Theorem battery_failure_is_silent (env : Env) (w : World) (e : JsError) :
  fetch_outcome env "/caregiver/api/device/battery/patient_001" no_options = Throw e ->
  dom (exec (CaregiverUI.loadBattery env) w) = dom w /\
  toasts (emitted (CaregiverUI.loadBattery env) w) = [] /\
  emitted (CaregiverUI.loadBattery env) w =
    [Fetch battery_request;
     Console "error" ("API Error: " +:+ emessage e);
     Console "error" ("Failed to load battery: " +:+ emessage e)].
Proof.
  intros He.
  assert (H : exec (CaregiverUI.loadBattery env) w =
              with_log (log w ++
                [Fetch battery_request;
                 Console "error" ("API Error: " +:+ emessage e);
                 Console "error" ("Failed to load battery: " +:+ emessage e)]) w).
  { unfold CaregiverUI.loadBattery, CaregiverAPI.getBattery.
    change (CaregiverAPI._fetch env) with (api_fetch Caregiver env).
    rewrite exec_try_catch_bind, api_fetch_run.
    change (CaregiverAPI.baseURL +:+ "/device/battery/" +:+ CaregiverAPI.patientId)
      with "/caregiver/api/device/battery/patient_001".
    rewrite He.
    cbv [exec bind console_error showToast emit modify snd].
    rewrite !record_with_log, <- !app_assoc. reflexivity. }
  assert (Hem : emitted (CaregiverUI.loadBattery env) w =
    [Fetch battery_request;
     Console "error" ("API Error: " +:+ emessage e);
     Console "error" ("Failed to load battery: " +:+ emessage e)])
    by (apply emitted_app; by rewrite H).
  split; [by rewrite H|]. split; [by rewrite Hem | exact Hem].
Qed.

Lemma battery_failure_is_silent_witness :
  dom (exec (CaregiverUI.loadBattery silent) caregiver_view) = dom caregiver_view /\
  toasts (emitted (CaregiverUI.loadBattery silent) caregiver_view) = [] /\
  emitted (CaregiverUI.loadBattery silent) caregiver_view =
    [Fetch battery_request;
     Console "error" "API Error: Failed to fetch";
     Console "error" "Failed to load battery: Failed to fetch"].
Proof. apply (battery_failure_is_silent silent caregiver_view (mkError TypeError "Failed to fetch")). reflexivity. Defined.

(** ** The alert list, once more *)

Lemma renderAlerts_returns env (l : list jsval) :
  Forall is_object l ->
  exists items,
    Forall2 (alert_rendered env) l (map attach_click items) /\
    forall w c,
      dom w !! "alertsList" = Some c ->
      CaregiverUI.renderAlerts env (VArr l) w =
        (Ok tt, with_dom (<["alertsList" := set_innerHTML (alert_nodes items) c]> (dom w)) w).
Proof.
  intros Hobj.
  destruct (mapM_alertTemplate env l Hobj) as (items & Hrun & Hall).
  exists items. split; [done|]. intros w c Hc.
  unfold CaregiverUI.renderAlerts, setInnerHTML.
  cbv [bind lift js_length strict_eq_num].
  destruct l as [|a l].
  - change (Z.of_nat (length (@nil jsval)) =? 0) with true. cbv iota.
    specialize (Hrun w). cbn in Hrun. injection Hrun as <-.
    by rewrite (update_element_run _ _ _ _ c).
  - destruct (Z.eqb_spec (Z.of_nat (length (a :: l))) 0) as [Hz|_]; [discriminate|].
    rewrite Hrun.
    rewrite (update_element_run _ _ _ _ c) by exact Hc.
    erewrite update_element_run by (cbn [dom with_dom]; by rewrite lookup_insert_eq).
    cbn [dom with_dom]. rewrite insert_insert_eq.
    destruct items as [|it items]; [apply Forall2_length in Hall; discriminate|].
    unfold alert_nodes, set_innerHTML. cbn [nodes classList style_width].
    rewrite map_map. reflexivity.
Qed.

(** X3.  Rendering the same alerts again changes nothing: the list is rebuilt,
    so an entry never carries more than the one click handler. *)
Theorem renderAlerts_idempotent (env : Env) (w : World) (l : list jsval) :
  is_Some (dom w !! "alertsList") ->
  Forall is_object l ->
  exec (CaregiverUI.renderAlerts env (VArr l)) (exec (CaregiverUI.renderAlerts env (VArr l)) w)
    = exec (CaregiverUI.renderAlerts env (VArr l)) w /\
  forall c' it,
    dom (exec (CaregiverUI.renderAlerts env (VArr l)) w) !! "alertsList" = Some c' ->
    it ∈ alert_items (nodes c') ->
    (length (listeners it) <= 1)%nat.
Proof.
  intros [c Hc] Hobj.
  destruct (renderAlerts_returns env l Hobj) as (items & Hall & Hrun).
  unfold exec. rewrite (Hrun w c Hc). cbn [snd].
  erewrite Hrun by (cbn [dom with_dom]; by rewrite lookup_insert_eq).
  cbn [snd dom with_dom]. rewrite insert_insert_eq. split; [reflexivity|].
  intros c' it. rewrite lookup_insert_eq. intros [= <-]. cbn [nodes set_innerHTML].
  intros Hin.
  assert (Hit : it ∈ map attach_click items).
  { destruct items as [|it0 items]; [by apply elem_of_nil in Hin|].
    unfold alert_nodes in Hin.
    rewrite <- (map_map attach_click AlertItemNode), alert_items_nodes in Hin. exact Hin. }
  apply list_elem_of_lookup_1 in Hit as [i Hi].
  destruct (Forall2_lookup_r _ _ _ _ _ Hall Hi) as (a & _ & Ha).
  rewrite (rendered_listeners _ _ _ Ha). destruct (truthy (field a "read")); simpl; lia.
Qed.

Lemma renderAlerts_idempotent_witness :
  exec (CaregiverUI.renderAlerts silent (VArr [fall_alert]))
    (exec (CaregiverUI.renderAlerts silent (VArr [fall_alert])) caregiver_view)
    = exec (CaregiverUI.renderAlerts silent (VArr [fall_alert])) caregiver_view /\
  forall c' it,
    dom (exec (CaregiverUI.renderAlerts silent (VArr [fall_alert])) caregiver_view)
      !! "alertsList" = Some c' ->
    it ∈ alert_items (nodes c') ->
    (length (listeners it) <= 1)%nat.
Proof.
  apply renderAlerts_idempotent.
  - by exists blank.
  - repeat constructor. by eexists.
Defined.

Lemma elem_of_classList_add t ts cl : t ∈ classList_add ts cl <-> t ∈ cl \/ t ∈ ts.
Proof.
  revert cl. induction ts as [|x ts IH]; intros cl; simpl.
  - split; [auto|]. intros [H|H]; [done|by apply elem_of_nil in H].
  - rewrite IH, elem_of_classList_add1, elem_of_cons. tauto.
Qed.

Lemma elem_of_classList_remove t ts cl : t ∈ classList_remove ts cl <-> t ∈ cl /\ t ∉ ts.
Proof.
  revert cl. induction ts as [|x ts IH]; intros cl; simpl.
  - split; [|tauto]. intros H. split; [done|apply not_elem_of_nil].
  - rewrite IH, elem_of_classList_remove1, not_elem_of_cons. tauto.
Qed.

Lemma getAlerts_responds env filter payload w :
  responds env (alerts_request filter) payload ->
  CaregiverAPI.getAlerts env (VNum 50) (if strict_eq_str filter "all" then VNull else filter) w
    = (Ok payload, record (Fetch (alerts_request filter)) w).
Proof.
  intros Hresp. unfold CaregiverAPI.getAlerts.
  change (CaregiverAPI._fetch env) with (api_fetch Caregiver env).
  assert (Hreq : fetch_init
            (let u := CaregiverAPI.baseURL +:+ "/alerts/" +:+ CaregiverAPI.patientId +:+
                        "?limit=" +:+ toString (default_param (VNum 50) (VNum 50)) in
             if truthy (default_param VNull
                          (if strict_eq_str filter "all" then VNull else filter))
             then u +:+ ("&severity=" +:+
                    toString (default_param VNull
                                (if strict_eq_str filter "all" then VNull else filter)))
             else u) no_options = alerts_request filter).
  { unfold alerts_request.
    destruct (strict_eq_str filter "all"); [reflexivity|].
    by destruct filter. }
  cbv zeta in Hreq |- *.
  rewrite (api_fetch_responds _ _ _ _ payload); rewrite Hreq; done.
Qed.



(** X5.  An answer that reports success but carries no alert list ([alerts]
    missing or [null]) leaves the rendered list and the unread badge as they
    were: the [TypeError] of [renderAlerts] is caught by [loadAlerts] and
    logged, before the badge is touched. *)
Theorem alerts_missing_keeps_page (env : Env) (w : World) (payload alerts : jsval) :
  responds env (alerts_request (currentFilter w)) payload ->
  success payload ->
  get payload "alerts" = Ok alerts ->
  alerts = VUndefined \/ alerts = VNull ->
  dom (exec (CaregiverUI.loadAlerts env) w) = dom w /\
  exists message,
    emitted (CaregiverUI.loadAlerts env) w =
      [Fetch (alerts_request (currentFilter w));
       Console "error" ("Failed to load alerts: " +:+ message)].
Proof.
  intros Hresp (s & Hs & Hts) Halerts Hbad.
  assert (H : exists message,
            exec (CaregiverUI.loadAlerts env) w =
              with_log (log w ++ [Fetch (alerts_request (currentFilter w));
                 Console "error" ("Failed to load alerts: " +:+ message)]) w).
  { unfold CaregiverUI.loadAlerts.
    cbv [exec try_catch bind read].
    rewrite (getAlerts_responds _ _ payload) by exact Hresp.
    unfold lift. rewrite Hs, Hts, Halerts.
    unfold CaregiverUI.renderAlerts. cbv [bind lift].
    destruct Hbad as [-> | ->]; cbn [js_length get];
      cbv [console_error emit modify snd]; eexists;
      unfold record, with_log; cbn; rewrite <- app_assoc; reflexivity. }
  destruct H as (message & H). split; [by rewrite H|].
  exists message. apply emitted_app. by rewrite H.
Qed.

Lemma alerts_missing_keeps_page_witness :
  dom (exec (CaregiverUI.loadAlerts (replying 200 (Some (alerts_payload VNull (VNum 3)))))
         caregiver_view) = dom caregiver_view /\
  exists message,
    emitted (CaregiverUI.loadAlerts (replying 200 (Some (alerts_payload VNull (VNum 3)))))
      caregiver_view =
      [Fetch (alerts_request (currentFilter caregiver_view));
       Console "error" ("Failed to load alerts: " +:+ message)].
Proof.
  apply (alerts_missing_keeps_page _ caregiver_view (alerts_payload VNull (VNum 3)) VNull).
  - eexists. split; [reflexivity|]. split; reflexivity.
  - exists (VBool true). split; reflexivity.
  - reflexivity.
  - by right.
Defined.

(** X6.  Every [loadAlerts] sends one [GET] for the fifty latest alerts; the
    severity filter is added to the query unless the filter is [all] or
    empty. *)
Theorem alerts_request_by_filter (env : Env) (w : World) (s : string) :
  currentFilter w = VStr s ->
  exists r,
    fetches (emitted (CaregiverUI.loadAlerts env) w) = [r] /\
    method r = None /\
    url r = if String.eqb s "all" || String.eqb s ""
            then "/caregiver/api/alerts/patient_001?limit=50"
            else "/caregiver/api/alerts/patient_001?limit=50&severity=" +:+ s.
Proof.
  intros Hf. destruct (loadAlerts_log env w) as (evs & Hlog & Hevs).
  exists (alerts_request (currentFilter w)). split; [|split].
  - rewrite (emitted_app _ _ _ Hlog). unfold fetches in *. cbn. by rewrite Hevs.
  - reflexivity.
  - rewrite Hf. unfold alerts_request. cbn [strict_eq_str].
    destruct (String.eqb s "all"); [reflexivity|]. cbn [truthy toString orb].
    by destruct (String.eqb s "").
Qed.

Lemma alerts_request_by_filter_witness :
  exists r,
    fetches (emitted (CaregiverUI.loadAlerts silent)
               (with_currentFilter (VStr "critical") caregiver_view)) = [r] /\
    method r = None /\
    url r = "/caregiver/api/alerts/patient_001?limit=50&severity=critical".
Proof.
  apply (alerts_request_by_filter silent
           (with_currentFilter (VStr "critical") caregiver_view) "critical").
  reflexivity.
Defined.

(** ** Handlers that never throw *)

Lemma returns_try_catch {A} (c : M A) (h : JsError -> M A) :
  (forall e, returns (h e)) -> returns (try_catch c h).
Proof.
  intros Hh w. unfold result, try_catch.
  destruct (c w) as [[a|e] w1]; [by exists a|]. apply (Hh e w1).
Qed.

Lemma returns_try_finally {A} (c : M A) (f : M unit) :
  returns c -> returns f -> returns (try_finally c f).
Proof.
  intros Hc Hf w. unfold result, try_finally.
  destruct (Hc w) as [a Ha]. unfold result in Ha.
  destruct (c w) as [r w1]. simpl in Ha. subst r.
  destruct (Hf w1) as [[] Hu]. unfold result in Hu.
  destruct (f w1) as [r w2]. simpl in Hu. subst r. by exists a.
Qed.

Lemma returns_bind {A B} (c : M A) (k : A -> M B) :
  returns c -> (forall a, returns (k a)) -> returns (bind c k).
Proof.
  intros Hc Hk w. unfold result, bind.
  destruct (Hc w) as [a Ha]. unfold result in Ha.
  destruct (c w) as [r w1]. simpl in Ha. subst r. apply (Hk a w1).
Qed.

Lemma returns_not_awaited {A} (c : M A) : returns (not_awaited c).
Proof. intros w. unfold result, not_awaited. destruct (c w). by exists tt. Qed.

Lemma returns_emit e : returns (emit e).
Proof. intros w. by exists tt. Qed.

Lemma returns_ret {A} (a : A) : returns (ret a).
Proof. intros w. by exists a. Qed.

Lemma returns_mapM {A B} (f : A -> M B) (l : list A) :
  (forall a, returns (f a)) -> returns (mapM f l).
Proof.
  intros Hf. induction l as [|x l IH]; [apply returns_ret|].
  simpl. apply returns_bind; [apply Hf|]. intros y.
  apply returns_bind; [apply IH|]. intros ys. apply returns_ret.
Qed.

Lemma returns_console_error label e : returns (console_error label e).
Proof. apply returns_emit. Qed.

Lemma returns_console_log m : returns (console_log m).
Proof. apply returns_emit. Qed.

Lemma returns_showToast m t : returns (showToast m t).
Proof. apply returns_emit. Qed.

(** X7.  The polling callbacks and event handlers of the dashboards never
    throw: whatever the server answers and whatever the page holds, the error
    ends in their own [catch]. *)
Theorem handlers_never_throw (env : Env) :
  returns (CaregiverUI.loadPatientStatus env) /\
  returns (CaregiverUI.loadBattery env) /\
  returns (CaregiverUI.loadAlerts env) /\
  (forall alertId, returns (CaregiverUI.markAlertRead env alertId)) /\
  (forall i, returns (CaregiverUI.click_alert env i)) /\
  returns (PrimaryUserUI.loadFollowMode env) /\
  returns (PrimaryUserUI.toggleFollowMode env) /\
  (forall emergencyId, returns (EmergencyUI.sendReassurance env emergencyId)) /\
  returns (Main.loadDashboardStats env) /\
  returns (Main.loadAlerts env) /\
  returns (Main.playAlertSound env).
Proof.
  repeat split; intros;
    try (apply returns_try_catch; intros;
         first [ apply returns_console_error | apply returns_console_log
               | apply returns_bind; [apply returns_emit | intros; apply returns_emit]
               | apply returns_bind; [apply returns_emit | intros; apply returns_ret] ]).
  - unfold CaregiverUI.click_alert. apply returns_bind; [intros w; by eexists|].
    intros [c|]; [|apply returns_ret].
    destruct (alert_items (nodes c) !! i) as [it|]; [|apply returns_ret].
    apply returns_bind; [|intros; apply returns_ret].
    apply returns_mapM. intros []. apply returns_not_awaited.
  - apply returns_try_finally; [|apply returns_emit].
    apply returns_try_catch. intros. apply returns_emit.
  - apply returns_try_finally; [|apply returns_emit].
    apply returns_try_catch. intros. apply returns_emit.
Qed.

(** ** Follow mode, once more *)

Lemma dom_change_refl w : dom_change w w.
Proof. exists (dom w). by destruct w. Qed.

Lemma dom_change_trans w1 w2 w3 : dom_change w1 w2 -> dom_change w2 w3 -> dom_change w1 w3.
Proof. intros [d ->] [d' ->]. by exists d'. Qed.

Lemma dom_change_dom d w : dom_change w (with_dom d w).
Proof. by exists d. Qed.

Lemma updateFollowModeUI_dom_change b : framed dom_change (PrimaryUserUI.updateFollowModeUI b).
Proof.
  unfold PrimaryUserUI.updateFollowModeUI, setTextContent, classListAdd, classListRemove.
  destruct b;
    repeat (apply framed_bind; [exact dom_change_trans | | intros ?]);
    apply framed_update_element;
    first [exact dom_change_refl | exact dom_change_trans | exact dom_change_dom].
Qed.

Lemma toggleFollowMode_run env w :
  let activate := negb (truthy (followModeActive w)) in
  let req := follow_mode_request activate in
  exists d mid,
    exec (PrimaryUserUI.toggleFollowMode env) w =
      with_dom d
        (with_followModeActive
           (if succeeds env req then VBool activate else followModeActive w)
           (with_log (log w ++ [Loading true; Fetch req] ++ mid ++ [Loading false]) w)) /\
    fetches mid = [] /\
    length (toasts mid) = 1%nat /\
    (succeeds env req = false -> d = dom w).
Proof.
  intros activate req.
  unfold req. rewrite <- (follow_mode_request_sent activate), fetch_outcome_succeeds.
  unfold PrimaryUserUI.toggleFollowMode, PrimaryUserAPI.toggleFollowMode.
  change (PrimaryUserAPI._fetch env) with (api_fetch PrimaryUser env).
  cbv [exec try_finally try_catch bind showLoading showToast emit modify read snd].
  rewrite api_fetch_run.
  cbn [followModeActive record with_log].
  change (PrimaryUserAPI.baseURL +:+ "/navigation/follow-mode")
    with "/primary/api/navigation/follow-mode".
  fold activate.
  replace (default_param VNull (if activate then VStr "primary_caregiver" else VNull))
    with (if activate then VStr "primary_caregiver" else VNull) by (by destruct activate).
  destruct (fetch_outcome env _ _) as [payload|e]; cbn [lift].
  - destruct (get payload "success") as [s|e].
    + destruct (truthy s).
      * match goal with
        | |- context [PrimaryUserUI.updateFollowModeUI activate ?w1] =>
            destruct (updateFollowModeUI_dom_change activate w1) as [d Hd];
            unfold exec in Hd;
            destruct (PrimaryUserUI.updateFollowModeUI activate w1) as [[[]|e] w2];
            cbn [snd] in Hd; subst w2
        end.
        -- destruct (get payload "message") as [m|e];
             exists d; eexists [_];
             (split; [unfold record, with_log, with_dom, with_followModeActive; cbn;
                      rewrite <- !app_assoc; reflexivity|]);
             (split; [reflexivity|]); (split; [reflexivity|]); discriminate.
        -- exists d; eexists [_];
             (split; [unfold record, with_log, with_dom, with_followModeActive; cbn;
                      rewrite <- !app_assoc; reflexivity|]);
             (split; [reflexivity|]); (split; [reflexivity|]); discriminate.
      * destruct (get payload "message") as [m|e];
          exists (dom w); eexists [_];
          (split; [unfold record, with_log, with_dom, with_followModeActive; cbn;
                   rewrite <- !app_assoc; reflexivity|]);
          (split; [reflexivity|]); (split; [reflexivity|]); reflexivity.
    + exists (dom w); eexists [_];
        (split; [unfold record, with_log, with_dom, with_followModeActive; cbn;
                 rewrite <- !app_assoc; reflexivity|]);
        (split; [reflexivity|]); (split; [reflexivity|]); reflexivity.
  - exists (dom w); eexists [_; _];
      (split; [unfold record, with_log, with_dom, with_followModeActive; cbn;
               rewrite <- !app_assoc; reflexivity|]);
      (split; [reflexivity|]); (split; [reflexivity|]); reflexivity.
Qed.

Ltac run_update :=
  erewrite update_element_run
    by (cbn [dom with_dom record with_log with_followModeActive];
        repeat first [rewrite lookup_insert_eq | rewrite lookup_insert_ne by done];
        first [reflexivity | eassumption]).

Lemma updateFollowModeUI_run b w t s st :
  dom w !! "followModeToggle" = Some t ->
  dom w !! "followModeSlider" = Some s ->
  dom w !! "followModeStatus" = Some st ->
  PrimaryUserUI.updateFollowModeUI b w =
    (Ok tt,
     with_dom (<["followModeStatus" := follow_status b st]>
                 (<["followModeSlider" := follow_slider b s]>
                    (<["followModeToggle" := follow_toggle b t]> (dom w)))) w).
Proof.
  intros Ht Hs Hst.
  unfold PrimaryUserUI.updateFollowModeUI, setTextContent, classListAdd, classListRemove.
  destruct b; cbv [bind]; do 7 run_update; cbn [dom with_dom];
    rewrite !insert_insert_eq; reflexivity.
Qed.

(** X8.  [updateFollowModeUI] leaves the switch in one of two looks, whatever
    classes it carried before: green, slid to the right and labelled as
    active, or grey, slid to the left and labelled as inactive.  The active
    label is the literal of [ui.js] as the file has it, whose first three
    characters are a check mark that was saved in the wrong encoding. *)
Theorem follow_mode_switch_look (active : bool) (w : World) :
  is_Some (dom w !! "followModeToggle") ->
  is_Some (dom w !! "followModeSlider") ->
  is_Some (dom w !! "followModeStatus") ->
  exists t s st,
    dom (exec (PrimaryUserUI.updateFollowModeUI active) w) !! "followModeToggle" = Some t /\
    dom (exec (PrimaryUserUI.updateFollowModeUI active) w) !! "followModeSlider" = Some s /\
    dom (exec (PrimaryUserUI.updateFollowModeUI active) w) !! "followModeStatus" = Some st /\
    ("bg-green-500" ∈ classList t <-> active = true) /\
    ("bg-gray-300" ∈ classList t <-> active = false) /\
    ("translate-x-18" ∈ classList s <-> active = true) /\
    ("translate-x-2" ∈ classList s <-> active = false) /\
    ("text-green-600" ∈ classList st <-> active = true) /\
    ("text-gray-600" ∈ classList st <-> active = false) /\
    textContent st = (if active then "âœ“ Following active" else "Following inactive").
Proof.
  intros [t Ht] [s Hs] [st Hst].
  unfold exec. rewrite (updateFollowModeUI_run active w t s st) by done.
  cbn [snd dom with_dom].
  exists (follow_toggle active t), (follow_slider active s), (follow_status active st).
  split; [by rewrite !lookup_insert_ne, lookup_insert_eq by done|].
  split; [by rewrite lookup_insert_ne, lookup_insert_eq by done|].
  split; [by rewrite lookup_insert_eq|].
  destruct active; cbn [follow_toggle follow_slider follow_status classList set_classList
                        textContent set_textContent];
    rewrite !elem_of_classList_add, !elem_of_classList_remove, !list_elem_of_singleton;
    repeat split; try done; try (intros _; by right);
    intros [[_ Hn]|Hn]; done.
Qed.

Lemma follow_mode_switch_look_witness :
  exists t s st,
    dom (exec (PrimaryUserUI.updateFollowModeUI true) primary_view) !! "followModeToggle"
      = Some t /\
    dom (exec (PrimaryUserUI.updateFollowModeUI true) primary_view) !! "followModeSlider"
      = Some s /\
    dom (exec (PrimaryUserUI.updateFollowModeUI true) primary_view) !! "followModeStatus"
      = Some st /\
    ("bg-green-500" ∈ classList t <-> true = true) /\
    ("bg-gray-300" ∈ classList t <-> true = false) /\
    ("translate-x-18" ∈ classList s <-> true = true) /\
    ("translate-x-2" ∈ classList s <-> true = false) /\
    ("text-green-600" ∈ classList st <-> true = true) /\
    ("text-gray-600" ∈ classList st <-> true = false) /\
    textContent st = "âœ“ Following active".
Proof. apply (follow_mode_switch_look true primary_view); by exists blank. Defined.

(** X9.  [loadFollowMode] stores the [is_active] field of the server's status
    as it arrives and sets the switch by its truthiness: the page ends as
    [updateFollowModeUI] leaves it for that truth value. *)
Theorem loadFollowMode_mirrors_server (env : Env) (w : World) (payload status is_active : jsval) :
  responds env follow_status_request payload ->
  success payload ->
  get payload "status" = Ok status ->
  get status "is_active" = Ok is_active ->
  is_Some (dom w !! "followModeToggle") ->
  is_Some (dom w !! "followModeSlider") ->
  is_Some (dom w !! "followModeStatus") ->
  followModeActive (exec (PrimaryUserUI.loadFollowMode env) w) = is_active /\
  dom (exec (PrimaryUserUI.loadFollowMode env) w) =
    dom (exec (PrimaryUserUI.updateFollowModeUI (truthy is_active)) w).
Proof.
  intros Hresp (s & Hs & Hts) Hstatus Hact [t Ht] [sl Hsl] [st Hst].
  unfold exec at 3. rewrite (updateFollowModeUI_run _ _ t sl st) by done.
  unfold PrimaryUserUI.loadFollowMode, PrimaryUserAPI.getFollowModeStatus.
  change (PrimaryUserAPI._fetch env) with (api_fetch PrimaryUser env).
  unfold exec, try_catch, bind.
  rewrite (api_fetch_responds _ _ _ _ payload) by exact Hresp.
  unfold lift. rewrite Hs, Hts, Hstatus, Hact. unfold modify.
  rewrite (updateFollowModeUI_run _ _ t sl st) by done.
  cbn [snd dom with_dom followModeActive with_followModeActive].
  split; reflexivity.
Qed.

Lemma loadFollowMode_mirrors_server_witness :
  let payload := VObj [("success", VBool true); ("status", VObj [("is_active", VNum 1)])] in
  followModeActive (exec (PrimaryUserUI.loadFollowMode (replying 200 (Some payload)))
                      primary_view) = VNum 1 /\
  dom (exec (PrimaryUserUI.loadFollowMode (replying 200 (Some payload))) primary_view) =
    dom (exec (PrimaryUserUI.updateFollowModeUI (truthy (VNum 1))) primary_view).
Proof.
  intros payload.
  apply (loadFollowMode_mirrors_server _ primary_view payload (VObj [("is_active", VNum 1)])).
  - eexists. split; [reflexivity|]. split; reflexivity.
  - exists (VBool true). split; reflexivity.
  - reflexivity.
  - reflexivity.
  - by exists blank.
  - by exists blank.
  - by exists blank.
Defined.

(** X10.  Two accepted toggles in a row bring follow mode back to where it
    was, as a boolean: the flag ends as the truth value of what it held. *)
Theorem follow_mode_toggle_twice (env : Env) (w : World) :
  succeeds env (follow_mode_request true) = true ->
  succeeds env (follow_mode_request false) = true ->
  followModeActive
    (exec (PrimaryUserUI.toggleFollowMode env) (exec (PrimaryUserUI.toggleFollowMode env) w))
    = VBool (truthy (followModeActive w)).
Proof.
  intros Hon Hoff.
  destruct (toggleFollowMode_run env w) as (d1 & mid1 & H1 & _).
  rewrite H1.
  match goal with |- context [exec _ ?w1] =>
    destruct (toggleFollowMode_run env w1) as (d2 & mid2 & H2 & _); rewrite H2
  end.
  cbn [followModeActive with_dom with_followModeActive with_log].
  destruct (truthy (followModeActive w)); cbn [negb]; rewrite ?Hon, ?Hoff; cbn;
    rewrite ?Hon, ?Hoff; reflexivity.
Qed.

Lemma follow_mode_toggle_twice_witness :
  followModeActive
    (exec (PrimaryUserUI.toggleFollowMode agreeable)
       (exec (PrimaryUserUI.toggleFollowMode agreeable) primary_view))
    = VBool (truthy (followModeActive primary_view)).
Proof. apply follow_mode_toggle_twice; reflexivity. Defined.

(** X11.  Every run of [toggleFollowMode] puts the loading indicator up first
    and takes it down last, sends one request in between and shows exactly
    one toast; when the server does not accept the change the page is not
    touched. *)
Theorem toggle_feedback (env : Env) (w : World) :
  let req := follow_mode_request (negb (truthy (followModeActive w))) in
  (exists mid,
     emitted (PrimaryUserUI.toggleFollowMode env) w =
       Loading true :: Fetch req :: mid ++ [Loading false] /\
     fetches mid = []) /\
  length (toasts (emitted (PrimaryUserUI.toggleFollowMode env) w)) = 1%nat /\
  (succeeds env req = false ->
   dom (exec (PrimaryUserUI.toggleFollowMode env) w) = dom w).
Proof.
  intros req.
  destruct (toggleFollowMode_run env w) as (d & mid & H & Hfetch & Htoast & Hd).
  fold req in H, Hd.
  assert (Hem : emitted (PrimaryUserUI.toggleFollowMode env) w =
                Loading true :: Fetch req :: mid ++ [Loading false]).
  { apply emitted_app. by rewrite H. }
  split; [by exists mid|]. split.
  - rewrite Hem. change (length (toasts (mid ++ [Loading false])) = 1%nat).
    unfold toasts in *. rewrite omap_app, length_app, Htoast. reflexivity.
  - intros Hf. rewrite H. cbn [dom with_dom]. by apply Hd.
Qed.

(** ** The next medication *)




(** X13.  When the medication request fails, [loadNextMedication] writes
    [Error loading medication] over the name and leaves dosage and time as
    they were, so the card can show an error next to the previous
    medication's dosage and time.  Its handler writes to the page itself: on a
    page without [medName] the error is thrown again, out of
    [loadNextMedication]. *)
Theorem next_medication_failure (env : Env) (w : World) (e : JsError) :
  fetch_outcome env "/primary/api/medication/next?user_id=default_user" no_options = Throw e ->
  match dom w !! "medName" with
  | Some n =>
      result (PrimaryUserUI.loadNextMedication env) w = Ok tt /\
      dom (exec (PrimaryUserUI.loadNextMedication env) w) =
        <["medName" := set_textContent "Error loading medication" n]> (dom w)
  | None =>
      throws (result (PrimaryUserUI.loadNextMedication env) w) /\
      dom (exec (PrimaryUserUI.loadNextMedication env) w) = dom w
  end.
Proof.
  intros He.
  unfold PrimaryUserUI.loadNextMedication, PrimaryUserAPI.getNextMedication.
  change (PrimaryUserAPI._fetch env) with (api_fetch PrimaryUser env).
  unfold exec, result, try_catch, bind. cbn [default_param toString].
  rewrite api_fetch_run.
  change (PrimaryUserAPI.baseURL +:+ "/medication/next?user_id=" +:+ "default_user")
    with "/primary/api/medication/next?user_id=default_user".
  rewrite He. cbv [console_error emit modify setTextContent update_element].
  cbn [dom record with_log].
  destruct (dom w !! "medName") as [n|]; cbn; [done|].
  split; [by eexists | done].
Qed.

Lemma next_medication_failure_witness :
  result (PrimaryUserUI.loadNextMedication silent) primary_view = Ok tt /\
  dom (exec (PrimaryUserUI.loadNextMedication silent) primary_view) =
    <["medName" := set_textContent "Error loading medication" blank]> (dom primary_view).
Proof.
  apply (next_medication_failure silent primary_view (mkError TypeError "Failed to fetch")).
  reflexivity.
Defined.

(** ** The alarm, from start to stop *)

Lemma alarm_raised_twice_reachable : reachable alarm_raised_twice.
Proof.
  eapply rtc_l; [apply (step_playAlertSound silent)|].
  apply rtc_once. apply step_playAlertSound.
Qed.

(** X14.  On every page the scripts can reach at most one alarm interval is
    running, and it is the one [alarmInterval] holds; when [alarmInterval] is
    [null] none is running.  (Raising the alarm again replaces the interval,
    it does not stack a second one.) *)
Theorem one_alarm_at_a_time (w : World) :
  reachable w ->
  (length (alarm_timers w) <= 1)%nat /\
  (forall t, t ∈ alarm_timers w -> alarmInterval w = Some (handle t)) /\
  (alarmInterval w = None -> alarm_timers w = []) /\
  (forall h, alarmInterval w = Some h -> exists t, alarm_timers w = [t] /\ handle t = h).
Proof.
  intros HI%reachable_AlarmInv.
  assert (Hone : forall t t', t ∈ alarm_timers w -> t' ∈ alarm_timers w -> t = t').
  { intros t t' [Ht Hin]%list_elem_of_filter [Ht' Hin']%list_elem_of_filter.
    apply (handle_inj (timers w)); [apply HI|done|done|].
    pose proof (alarm_tracked w HI t Hin Ht). pose proof (alarm_tracked w HI t' Hin' Ht').
    congruence. }
  assert (Hnd : NoDup (alarm_timers w)).
  { apply NoDup_filter. eapply NoDup_fmap_1. apply HI. }
  assert (Hlen : (length (alarm_timers w) <= 1)%nat).
  { destruct (alarm_timers w) as [|t [|t' l]] eqn:Hl; simpl; [lia|lia|].
    apply NoDup_cons in Hnd as [Hnot _]. destruct Hnot.
    rewrite (Hone t t'); repeat constructor. }
  split; [done|]. split; [|split].
  - intros t [Ht Hin]%list_elem_of_filter. by apply HI.
  - intros Ha. destruct (alarm_timers w) as [|t l] eqn:Hl; [done|].
    assert (Hin : t ∈ alarm_timers w) by (rewrite Hl; constructor).
    apply list_elem_of_filter in Hin as [Ht Hin].
    pose proof (alarm_tracked w HI t Hin Ht). congruence.
  - intros h Ha. destruct (alarm_live w HI h Ha) as (t & Hin & Hh & Ht).
    assert (Hin' : t ∈ alarm_timers w) by (by apply list_elem_of_filter).
    destruct (alarm_timers w) as [|t0 [|t1 l]] eqn:Hl; simpl in Hlen.
    + by apply elem_of_nil in Hin'.
    + apply list_elem_of_singleton in Hin' as ->. eauto.
    + lia.
Qed.

Lemma one_alarm_at_a_time_witness :
  (length (alarm_timers alarm_raised_twice) <= 1)%nat /\
  (forall t, t ∈ alarm_timers alarm_raised_twice ->
             alarmInterval alarm_raised_twice = Some (handle t)) /\
  (alarmInterval alarm_raised_twice = None -> alarm_timers alarm_raised_twice = []) /\
  (forall h, alarmInterval alarm_raised_twice = Some h ->
             exists t, alarm_timers alarm_raised_twice = [t] /\ handle t = h).
Proof. apply one_alarm_at_a_time. apply alarm_raised_twice_reachable. Defined.

Lemma alarm_ticks_silent n h w :
  alarm_timers w = [] -> exec (Main.alarm_ticks n h) w = w.
Proof.
  intros Hnone. induction n as [|n IH]; [done|].
  rewrite alarm_ticks_succ.
  assert (Htick : exec (Main.alarm_tick h) w = w); [|by rewrite Htick].
  unfold Main.alarm_tick. cbv [exec bind read].
  destruct (Main.find_timer h (timers w)) as [[h' ms cb]|] eqn:Hfind; [|done].
  apply find_timer_Some in Hfind as [Hin _].
  destruct cb; try done.
  assert (Hal : mkTimer h' ms (AlarmTick beepCount) ∈ alarm_timers w)
    by (by apply list_elem_of_filter).
  rewrite Hnone in Hal. by apply elem_of_nil in Hal.
Qed.

(** X15.  [stopAlarm] silences the page: afterwards [alarmInterval] is [null],
    no alarm interval is running, so no later firing plays a beep; the
    polling intervals keep running, and a second [stopAlarm] changes
    nothing. *)
Theorem stopAlarm_silences (w : World) :
  reachable w ->
  let w' := exec Main.stopAlarm w in
  alarmInterval w' = None /\
  alarm_timers w' = [] /\
  (forall n h, exec (Main.alarm_ticks n h) w' = w') /\
  (forall t, t ∈ timers w -> is_alarm (callback t) = false -> t ∈ timers w') /\
  exec Main.stopAlarm w' = w'.
Proof.
  intros Hr w'.
  pose proof (reachable_AlarmInv w Hr) as HI.
  destruct (clear_alarm_timers w HI) as (_ & _ & Hsub & Hkeep).
  assert (Hw' : w' = match alarmInterval w with
                     | Some _ => with_alarmInterval None (clear_alarm w)
                     | None => w
                     end).
  { subst w'. unfold Main.stopAlarm, clear_alarm. cbv [exec bind read modify ret snd].
    by destruct (alarmInterval w). }
  assert (Ha : alarmInterval w' = None).
  { rewrite Hw'. by destruct (alarmInterval w) eqn:E. }
  assert (Hnone : alarm_timers w' = []).
  { destruct (alarm_timers w') as [|t l] eqn:Hl; [done|].
    assert (Hin : t ∈ alarm_timers w') by (rewrite Hl; constructor).
    apply list_elem_of_filter in Hin as [Ht Hin].
    assert (HI' : AlarmInv w') by (by apply AlarmInv_stopAlarm).
    pose proof (alarm_tracked w' HI' t Hin Ht). congruence. }
  split; [done|]. split; [done|]. split; [|split].
  - intros n h. by apply alarm_ticks_silent.
  - intros t Hin Ht. rewrite Hw'. unfold clear_alarm in *.
    destruct (alarmInterval w); [|done]. by apply Hkeep.
  - unfold Main.stopAlarm at 1. cbv [exec bind read modify ret snd]. by rewrite Ha.
Qed.

Lemma stopAlarm_silences_witness :
  let w' := exec Main.stopAlarm alarm_raised_twice in
  alarmInterval w' = None /\
  alarm_timers w' = [] /\
  (forall n h, exec (Main.alarm_ticks n h) w' = w') /\
  (forall t, t ∈ timers alarm_raised_twice -> is_alarm (callback t) = false -> t ∈ timers w') /\
  exec Main.stopAlarm w' = w'.
Proof. apply stopAlarm_silences. apply alarm_raised_twice_reachable. Defined.

(** X16.  [playAlertSound] keeps every failure to itself.  Without the Web
    Audio API nothing is played or scheduled and one line goes to the
    console.  Without the Notification API the siren is started all the same
    (first beep, interval, [alarmInterval]), and the console line it writes
    says that audio is not supported. *)
Theorem playAlertSound_without_browser_support (env : Env) (w : World) :
  (audioContext env = false ->
   exists message,
     exec (Main.playAlertSound env) w =
       record (Console "log" ("Audio not supported: " +:+ message)) w) /\
  (audioContext env = true -> notification env = None ->
   alarmInterval (exec (Main.playAlertSound env) w) = Some (nextHandle w) /\
   mkTimer (nextHandle w) 200 (AlarmTick 1) ∈ timers (exec (Main.playAlertSound env) w) /\
   beeps (emitted (Main.playAlertSound env) w) = [880] /\
   exists message,
     Console "log" ("Audio not supported: " +:+ message)
       ∈ emitted (Main.playAlertSound env) w).
Proof.
  split.
  - intros Ha. unfold Main.playAlertSound.
    cbv [exec try_catch bind console_log emit modify throw snd]. rewrite Ha.
    by eexists.
  - intros Ha Hn. unfold Main.playAlertSound, Main.playBeep.
    cbv [exec try_catch bind read modify emit ret throw console_log snd].
    rewrite Ha, Hn.
    assert (Hem : forall w1 : World,
              (exists evs, log w1 = log w ++ evs /\ beeps evs = []) ->
              nextHandle w1 = nextHandle w ->
              let w2 := record (Console "log" "Audio not supported: Notification is not defined")
                          (with_alarmInterval (Some (nextHandle (record (Beep 880 0.15) w1)))
                             (register_timer (AlarmTick (0 + 1)) 200
                                (record (Beep 880 0.15) w1))) in
              alarmInterval w2 = Some (nextHandle w) /\
              mkTimer (nextHandle w) 200 (AlarmTick 1) ∈ timers w2 /\
              beeps (drop (length (log w)) (log w2)) = [880] /\
              exists message,
                Console "log" ("Audio not supported: " +:+ message)
                  ∈ drop (length (log w)) (log w2)).
    { intros w1 (evs & Hlog & Hb) Hh w2. subst w2. cbn. rewrite Hh, Hlog.
      split; [done|]. split; [apply elem_of_app; right; by apply list_elem_of_singleton|].
      rewrite <- !app_assoc, drop_app_length. split.
      - unfold beeps in *. rewrite omap_app, Hb. reflexivity.
      - exists "Notification is not defined". apply elem_of_app. right. repeat constructor. }
    unfold emitted, exec.
    destruct (alarmInterval w) as [a|]; cbv [clearInterval modify setInterval];
      cbv beta iota; cbn [snd]; apply Hem; try done.
    + exists [ClearInterval a]. by split.
    + exists []. split; [by rewrite app_nil_r | done].
Qed.

Lemma playAlertSound_without_browser_support_witness :
  (exists message,
     exec (Main.playAlertSound no_audio) alarm_raised_twice =
       record (Console "log" ("Audio not supported: " +:+ message)) alarm_raised_twice) /\
  alarmInterval (exec (Main.playAlertSound no_notifications) empty_page) = Some 1%positive.
Proof.
  split.
  - apply (proj1 (playAlertSound_without_browser_support no_audio alarm_raised_twice)).
    reflexivity.
  - apply (proj2 (playAlertSound_without_browser_support no_notifications empty_page));
      reflexivity.
Defined.

(** ** The operator dashboard *)

(** X17.  [addActivityItem] does nothing on a page without an activity list,
    and on a list it removes at most one entry for the one it adds: a list
    that holds more than five items keeps its number of items (the trimming
    to five holds only for lists that started within the bound). *)
Theorem addActivityItem_trims_one (title time type : jsval) (w : World) :
  (activity_list w = None -> exec (Main.addActivityItem title time type) w = w) /\
  (forall l,
     activity_list w = Some l ->
     (5 <= length (activity_items l))%nat ->
     exists l',
       activity_list (exec (Main.addActivityItem title time type) w) = Some l' /\
       length (activity_items l') = length (activity_items l)).
Proof.
  split.
  - intros Hnone. unfold Main.addActivityItem. cbv [exec bind read]. by rewrite Hnone.
  - intros l Hl Hlen. unfold Main.addActivityItem. cbv [exec bind read]. rewrite Hl.
    cbv [modify snd]. cbn [activity_list with_activity_list].
    set (new := {| node_class := ["activity-item"]; icon_color := _; icon := _;
                   title_text := _; time_label := _ |}).
    assert (Hnew : filter (fun n => is_activity_item n = true) (new :: l)
                   = new :: activity_items l) by (by rewrite filter_cons_True).
    rewrite Hnew.
    destruct (Z.ltb_spec 5 (Z.of_nat (length (new :: activity_items l)))) as [_|Hle];
      [|simpl in Hle; lia].
    eexists. split; [reflexivity|].
    pose proof (remove_last_length is_activity_item (new :: l)) as Hrm.
    rewrite Hnew in Hrm. specialize (Hrm ltac:(done)).
    unfold activity_items in *. cbn [length] in Hrm. by injection Hrm.
Qed.

Lemma addActivityItem_trims_one_witness :
  exec (Main.addActivityItem (VStr "Fall Detected") (VStr "Just now") (VStr "danger")) empty_page
    = empty_page /\
  exists l',
    activity_list (exec (Main.addActivityItem (VStr "Fall Detected") (VStr "Just now")
                           (VStr "danger")) operator_view) = Some l' /\
    length (activity_items l') = length (activity_items five_entries).
Proof.
  split.
  - apply (proj1 (addActivityItem_trims_one _ _ _ empty_page)). reflexivity.
  - apply (proj2 (addActivityItem_trims_one _ _ _ operator_view) five_entries).
    + reflexivity.
    + vm_compute. lia.
Defined.

Lemma plain_fetch_bind {B} env req failure (k : jsval -> M B) w :
  bind (fetch env req)
    (fun response =>
       bind (if negb (ok response) then throw (mkError Error failure) else ret tt)
         (fun _ => bind (json response) k)) w
  = match plain_outcome env req failure with
    | Ok data => k data (record (Fetch req) w)
    | Throw e => (Throw e, record (Fetch req) w)
    end.
Proof.
  unfold bind. rewrite fetch_run. unfold plain_outcome.
  destruct (net env req) as [e|r]; [done|].
  destruct (ok r); cbn; [|done]. unfold json. by destruct (json_body r).
Qed.




(** X19.  When the stats request fails (no answer, a status outside 200-299, or
    a body that is not JSON) [loadDashboardStats] leaves every card as it is
    and writes one line to the console; the user is not told. *)
Theorem dashboard_stats_failure (env : Env) (w : World) (e : JsError) :
  plain_outcome env stats_request "Failed to fetch stats" = Throw e ->
  exec (Main.loadDashboardStats env) w =
    with_log (log w ++ [Fetch stats_request;
                        Console "log" ("Stats API not available: " +:+ emessage e)]) w.
Proof.
  intros He. unfold Main.loadDashboardStats. unfold exec, try_catch.
  fold stats_request. rewrite plain_fetch_bind, He.
  cbv [console_log emit modify snd]. unfold record at 1.
  cbn [log record with_log]. by rewrite <- app_assoc.
Qed.

Lemma dashboard_stats_failure_witness :
  exec (Main.loadDashboardStats (replying 503 None)) kpi_view =
    with_log (log kpi_view ++
                [Fetch stats_request;
                 Console "log" "Stats API not available: Failed to fetch stats"]) kpi_view.
Proof.
  apply (dashboard_stats_failure (replying 503 None) kpi_view
           (mkError Error "Failed to fetch stats")).
  reflexivity.
Defined.

(** X20.  [loadAlerts] of the operator dashboard returns the [alerts] field of
    a 2xx answer as it is, [undefined] when the answer has none, and the
    empty array when the request fails or the answer is [null]; it never
    throws. *)
Theorem recent_alerts_result (env : Env) (w : World) :
  result (Main.loadAlerts env) w =
    match plain_outcome env recent_alerts_request "Failed to fetch alerts" with
    | Ok data =>
        match get data "alerts" with
        | Ok alerts => Ok alerts
        | Throw _ => Ok (VArr [])
        end
    | Throw _ => Ok (VArr [])
    end.
Proof.
  unfold Main.loadAlerts. unfold result, try_catch.
  fold recent_alerts_request. rewrite plain_fetch_bind.
  destruct (plain_outcome env recent_alerts_request "Failed to fetch alerts") as [data|e];
    [|reflexivity].
  unfold lift. by destruct (get data "alerts").
Qed.

(** ** The emergency page *)

Lemma pretty_N_go_length x s :
  (String.length s <= String.length (pretty_N_go x s))%nat.
Proof.
  revert s. induction (N.lt_wf_0 x) as [x _ IH]; intros s.
  assert (x = 0 \/ 0 < x)%N as [->|Hx] by lia; [by rewrite pretty_N_go_0|].
  rewrite pretty_N_go_step by done.
  etrans; [|apply IH; by apply N.div_lt]. simpl. lia.
Qed.

Lemma pretty_one_digit n : 0 <= n < 10 -> String.length (pretty n) = 1%nat.
Proof.
  intros Hn. rewrite <- (Z2Nat.id n) by lia.
  assert (Hk : (Z.to_nat n < 10)%nat) by lia.
  destruct (Z.to_nat n) as [|[|[|[|[|[|[|[|[|[|k]]]]]]]]]]; try reflexivity. lia.
Qed.

Lemma pretty_more_digits n : 10 <= n -> (2 <= String.length (pretty n))%nat.
Proof.
  intros Hn. destruct n as [|p|p]; try lia.
  unfold pretty, pretty_Z, pretty, pretty_positive, pretty, pretty_N.
  destruct (decide (N.pos p = 0%N)) as [|_]; [done|].
  rewrite pretty_N_go_step by lia.
  rewrite pretty_N_go_step by (apply N.div_str_pos_iff; lia).
  etrans; [|apply pretty_N_go_length]. simpl. lia.
Qed.

Lemma pretty_two_digits n : 10 <= n < 100 -> String.length (pretty n) = 2%nat.
Proof.
  intros Hn. destruct n as [|p|p]; try lia.
  unfold pretty, pretty_Z, pretty, pretty_positive, pretty, pretty_N.
  destruct (decide (N.pos p = 0%N)) as [|_]; [done|].
  rewrite pretty_N_go_step by lia.
  rewrite pretty_N_go_step by (apply N.div_str_pos_iff; lia).
  replace ((N.pos p `div` 10) `div` 10)%N with 0%N; [by rewrite pretty_N_go_0|].
  symmetry. rewrite N.Div0.div_div. apply N.div_small. lia.
Qed.

Lemma two_digits_pad n :
  0 <= n -> two_digits n = if n <? 10 then "0" +:+ pretty n else pretty n.
Proof.
  intros Hn. unfold two_digits, padStart.
  destruct (Z.ltb_spec n 10) as [Hlt|Hge].
  - by rewrite pretty_one_digit by lia.
  - pose proof (pretty_more_digits n Hge) as Hlen.
    by replace (2 - String.length (pretty n))%nat with 0%nat by lia.
Qed.

Lemma two_digits_length n : 0 <= n < 100 -> String.length (two_digits n) = 2%nat.
Proof.
  intros Hn. rewrite two_digits_pad by lia.
  destruct (Z.ltb_spec n 10) as [Hlt|Hge].
  - change (String.length ("0" +:+ pretty n)) with (S (String.length (pretty n))).
    by rewrite pretty_one_digit by lia.
  - apply pretty_two_digits. lia.
Qed.

(** X21.  Each second the emergency page shows the time since it was opened as
    [HH:MM:SS]: hours, minutes below sixty and seconds below sixty that add up
    to the whole seconds elapsed, minutes and seconds always in two digits,
    hours padded to two digits below ten and written out in full from a
    hundred on. *)
Theorem elapsed_clock (startTime now : Z) (w : World) :
  startTime <= now ->
  is_Some (dom w !! "timeElapsed") ->
  exists hours minutes seconds,
    textContent <$> (dom (exec (EmergencyUI.timer_callback startTime now) w) !! "timeElapsed")
      = Some (two_digits hours +:+ ":" +:+ two_digits minutes +:+ ":" +:+ two_digits seconds) /\
    hours * 3600 + minutes * 60 + seconds = (now - startTime) / 1000 /\
    0 <= hours /\ 0 <= minutes < 60 /\ 0 <= seconds < 60 /\
    String.length (two_digits minutes) = 2%nat /\
    String.length (two_digits seconds) = 2%nat /\
    two_digits hours = (if hours <? 10 then "0" +:+ pretty hours else pretty hours).
Proof.
  intros Hle [e He].
  set (elapsed := (now - startTime) / 1000).
  assert (Hel : 0 <= elapsed) by (apply Z.div_pos; lia).
  exists (elapsed / 3600), (Z.rem elapsed 3600 / 60), (Z.rem elapsed 60).
  rewrite !Z.rem_mod_nonneg by lia.
  assert (Hm : 0 <= elapsed mod 3600 / 60 < 60).
  { pose proof (Z.mod_pos_bound elapsed 3600 ltac:(lia)).
    split; [apply Z.div_pos; lia | apply Z.div_lt_upper_bound; lia]. }
  assert (Hs : 0 <= elapsed mod 60 < 60) by (apply Z.mod_pos_bound; lia).
  assert (Hh : 0 <= elapsed / 3600) by (apply Z.div_pos; lia).
  split.
  - unfold EmergencyUI.timer_callback, setTextContent, exec. fold elapsed.
    rewrite (update_element_run _ _ _ _ e) by exact He.
    cbn [snd dom with_dom]. rewrite lookup_insert_eq.
    rewrite !Z.rem_mod_nonneg by lia. reflexivity.
  - split.
    { pose proof (Z.div_mod elapsed 3600 ltac:(lia)) as H1.
      pose proof (Z.div_mod (elapsed mod 3600) 60 ltac:(lia)) as H2.
      assert (H3 : (elapsed mod 3600) mod 60 = elapsed mod 60).
      { apply Z.mod_mod_divide. by exists 60. }
      lia. }
    split; [done|]. split; [done|]. split; [done|].
    split; [apply two_digits_length; lia|].
    split; [apply two_digits_length; lia|].
    by apply two_digits_pad.
Qed.

Lemma elapsed_clock_witness :
  exists hours minutes seconds,
    textContent <$> (dom (exec (EmergencyUI.timer_callback 1000 3726500) emergency_view)
                       !! "timeElapsed")
      = Some (two_digits hours +:+ ":" +:+ two_digits minutes +:+ ":" +:+ two_digits seconds) /\
    hours * 3600 + minutes * 60 + seconds = (3726500 - 1000) / 1000 /\
    0 <= hours /\ 0 <= minutes < 60 /\ 0 <= seconds < 60 /\
    String.length (two_digits minutes) = 2%nat /\
    String.length (two_digits seconds) = 2%nat /\
    two_digits hours = (if hours <? 10 then "0" +:+ pretty hours else pretty hours).
Proof.
  apply (elapsed_clock 1000 3726500 emergency_view).
  - lia.
  - by exists blank.
Defined.

(** X22.  [sendReassurance] brackets its one request between loading on and
    loading off and never touches the page.  The responder is told of
    success and of a failed request; an answer with a falsy [success] ends
    without any toast. *)
Theorem reassurance_feedback (env : Env) (emergencyId : jsval) (w : World) :
  let req := reassure_request emergencyId in
  let shown :=
    match fetch_outcome env (reassure_url emergencyId) reassure_options with
    | Ok payload =>
        match get payload "success" with
        | Ok s => if truthy s then [Toast "Reassurance message sent to patient" "success"]
                  else []
        | Throw _ => [Toast "Failed to send reassurance" "error"]
        end
    | Throw e => [Console "error" ("API Error: " +:+ emessage e);
                  Toast "Failed to send reassurance" "error"]
    end in
  exec (EmergencyUI.sendReassurance env emergencyId) w =
    with_log (log w ++ [Loading true; Fetch req] ++ shown ++ [Loading false]) w.
Proof.
  intros req shown. subst req shown.
  unfold EmergencyUI.sendReassurance, EmergencyAPI.sendReassurance.
  change (EmergencyAPI._fetch env) with (api_fetch Emergency env).
  cbv [exec try_finally try_catch bind showLoading showToast emit modify snd].
  rewrite api_fetch_run.
  change (EmergencyAPI.baseURL +:+ "/emergency/" +:+ toString emergencyId +:+ "/reassure")
    with (reassure_url emergencyId).
  fold reassure_options. fold (reassure_request emergencyId).
  destruct (fetch_outcome env _ _) as [payload|e]; cbn [lift].
  - destruct (get payload "success") as [s|e]; [destruct (truthy s)|];
      unfold ret, record, with_log; cbn; rewrite <- ?app_assoc; reflexivity.
  - unfold record, with_log; cbn; rewrite <- ?app_assoc; reflexivity.
Qed.

(** ** The vitals badges *)

(** X23.  For a status that is a string [updateStatusBadge] leaves exactly one
    colour pair on the badge: green when the status is [normal] in any
    capitalisation, orange when it is [warning], red for everything else;
    the badge's other classes and its text stay. *)
Theorem status_badge_colour (elementId status : string) (w : World) (badge : Element) :
  dom w !! elementId = Some badge ->
  exists badge',
    dom (exec (HealthProfessionalUI.updateStatusBadge elementId (VStr status)) w) !! elementId
      = Some badge' /\
    textContent badge' = textContent badge /\
    (forall t, t ∈ ["bg-accent-green/20"; "text-accent-green"] ->
               t ∈ classList badge' <-> toLowerCase status = "normal") /\
    (forall t, t ∈ ["bg-accent-orange/20"; "text-accent-orange"] ->
               t ∈ classList badge' <-> toLowerCase status = "warning") /\
    (forall t, t ∈ ["bg-accent-red/20"; "text-accent-red"] ->
               t ∈ classList badge' <->
               toLowerCase status <> "normal" /\ toLowerCase status <> "warning") /\
    (forall t, t ∉ ["bg-accent-green/20"; "text-accent-green"; "bg-accent-orange/20";
                    "text-accent-orange"; "bg-accent-red/20"; "text-accent-red"] ->
               t ∈ classList badge' <-> t ∈ classList badge).
Proof.
  intros Hb.
  set (six := ["bg-accent-green/20"; "text-accent-green"; "bg-accent-orange/20";
               "text-accent-orange"; "bg-accent-red/20"; "text-accent-red"]).
  set (lowered := toLowerCase status).
  assert (Hrun : exists pair,
            dom (exec (HealthProfessionalUI.updateStatusBadge elementId (VStr status)) w)
              !! elementId =
              Some (set_classList (classList_add pair (classList_remove six (classList badge)))
                      badge) /\
            pair = if String.eqb lowered "normal"
                   then ["bg-accent-green/20"; "text-accent-green"]
                   else if String.eqb lowered "warning"
                        then ["bg-accent-orange/20"; "text-accent-orange"]
                        else ["bg-accent-red/20"; "text-accent-red"]).
  { unfold HealthProfessionalUI.updateStatusBadge, classListRemove, classListAdd.
    cbv [exec bind lift call_toLowerCase]. fold lowered.
    rewrite (update_element_run _ _ _ _ badge) by exact Hb.
    destruct (String.eqb lowered "normal"); [|destruct (String.eqb lowered "warning")];
      (erewrite update_element_run by (cbn [dom with_dom]; by rewrite lookup_insert_eq));
      cbn [snd dom with_dom]; rewrite lookup_insert_eq; eexists; split; reflexivity. }
  destruct Hrun as (pair & Hrun & Hpair).
  eexists. split; [exact Hrun|]. cbn [textContent classList set_classList].
  split; [done|].
  assert (Hmem : forall t,
            t ∈ classList_add pair (classList_remove six (classList badge)) <->
            (t ∈ classList badge /\ t ∉ six) \/ t ∈ pair).
  { intros t. by rewrite elem_of_classList_add, elem_of_classList_remove. }
  assert (Hcolour : forall t P,
            t ∈ six ->
            (t ∈ pair -> P) -> (P -> t ∈ pair) ->
            t ∈ classList_add pair (classList_remove six (classList badge)) <-> P).
  { intros t P Hsix Hin Hout. rewrite Hmem. split; [|auto]. intros [[_ Hx]|Hx]; [done|auto]. }
  assert (Hsub : forall t, t ∈ pair -> t ∈ six).
  { intros t Ht. subst pair.
    destruct (String.eqb lowered "normal"); [|destruct (String.eqb lowered "warning")];
      apply elem_of_cons in Ht as [->|Ht];
      try apply list_elem_of_singleton in Ht as ->; repeat constructor. }
  split; [|split; [|split]].
  - intros t Ht. apply Hcolour.
    + apply elem_of_cons in Ht as [->|Ht];
        [|apply list_elem_of_singleton in Ht as ->]; repeat constructor.
    + subst pair. destruct (String.eqb_spec lowered "normal") as [Hn|Hn]; [done|].
      intros Hin. exfalso.
      destruct (String.eqb lowered "warning");
        apply elem_of_cons in Ht as [->|Ht];
        try apply list_elem_of_singleton in Ht as ->;
        repeat (apply elem_of_cons in Hin as [Hin|Hin]; [discriminate|]);
        by apply elem_of_nil in Hin.
    + intros Hn. subst pair. rewrite (proj2 (String.eqb_eq _ _) Hn). exact Ht.
  - intros t Ht. apply Hcolour.
    + apply elem_of_cons in Ht as [->|Ht];
        [|apply list_elem_of_singleton in Ht as ->]; repeat constructor.
    + subst pair. destruct (String.eqb_spec lowered "warning") as [Hw|Hw]; [done|].
      intros Hin. exfalso.
      destruct (String.eqb lowered "normal");
        apply elem_of_cons in Ht as [->|Ht];
        try apply list_elem_of_singleton in Ht as ->;
        repeat (apply elem_of_cons in Hin as [Hin|Hin]; [discriminate|]);
        by apply elem_of_nil in Hin.
    + intros Hw. subst pair.
      destruct (String.eqb_spec lowered "normal") as [Hn|Hn]; [congruence|].
      rewrite (proj2 (String.eqb_eq _ _) Hw). exact Ht.
  - intros t Ht. apply Hcolour.
    + apply elem_of_cons in Ht as [->|Ht];
        [|apply list_elem_of_singleton in Ht as ->]; repeat constructor.
    + subst pair.
      destruct (String.eqb_spec lowered "normal") as [Hn|Hn];
        [|destruct (String.eqb_spec lowered "warning") as [Hw|Hw]]; [| |done];
        intros Hin; exfalso;
        apply elem_of_cons in Ht as [->|Ht];
        try apply list_elem_of_singleton in Ht as ->;
        repeat (apply elem_of_cons in Hin as [Hin|Hin]; [discriminate|]);
        by apply elem_of_nil in Hin.
    + intros [Hn Hw]. subst pair.
      destruct (String.eqb_spec lowered "normal"); [done|].
      destruct (String.eqb_spec lowered "warning"); [done|]. exact Ht.
  - intros t Ht. rewrite Hmem. split.
    + intros [[Hin _]|Hin]; [done|]. destruct Ht. by apply Hsub.
    + intros Hin. left. by split.
Qed.

Lemma status_badge_colour_witness :
  exists badge',
    dom (exec (HealthProfessionalUI.updateStatusBadge "hrStatus" (VStr "Warning"))
           emergency_view) !! "hrStatus" = Some badge' /\
    textContent badge' = textContent blank /\
    (forall t, t ∈ ["bg-accent-green/20"; "text-accent-green"] ->
               t ∈ classList badge' <-> toLowerCase "Warning" = "normal") /\
    (forall t, t ∈ ["bg-accent-orange/20"; "text-accent-orange"] ->
               t ∈ classList badge' <-> toLowerCase "Warning" = "warning") /\
    (forall t, t ∈ ["bg-accent-red/20"; "text-accent-red"] ->
               t ∈ classList badge' <->
               toLowerCase "Warning" <> "normal" /\ toLowerCase "Warning" <> "warning") /\
    (forall t, t ∉ ["bg-accent-green/20"; "text-accent-green"; "bg-accent-orange/20";
                    "text-accent-orange"; "bg-accent-red/20"; "text-accent-red"] ->
               t ∈ classList badge' <-> t ∈ classList blank).
Proof. by apply (status_badge_colour "hrStatus" "Warning" emergency_view blank). Defined.

(** X24.  [updateStatusBadge] takes the colours off before it looks at the
    status: for a status that is not a string (a vitals record without the
    field, say) it throws a [TypeError] and leaves the badge without any of
    the three colour pairs. *)
Theorem status_badge_needs_string (elementId : string) (status : jsval) (w : World)
    (badge : Element) :
  dom w !! elementId = Some badge ->
  (forall s, status <> VStr s) ->
  (exists message,
     result (HealthProfessionalUI.updateStatusBadge elementId status) w
       = Throw (mkError TypeError message)) /\
  exists badge',
    dom (exec (HealthProfessionalUI.updateStatusBadge elementId status) w) !! elementId
      = Some badge' /\
    forall t, t ∈ ["bg-accent-green/20"; "text-accent-green"; "bg-accent-orange/20";
                   "text-accent-orange"; "bg-accent-red/20"; "text-accent-red"] ->
              t ∉ classList badge'.
Proof.
  intros Hb Hstr.
  unfold HealthProfessionalUI.updateStatusBadge, classListRemove, classListAdd.
  cbv [exec result bind lift].
  rewrite (update_element_run _ _ _ _ badge) by exact Hb.
  assert (Hthrow : exists message, call_toLowerCase status = Throw (mkError TypeError message)).
  { destruct status; try (by eexists). by destruct (Hstr s). }
  destruct Hthrow as (message & ->). cbn [fst snd dom with_dom].
  split; [by exists message|].
  rewrite lookup_insert_eq. eexists. split; [reflexivity|].
  cbn [classList set_classList]. intros t Ht [_ Hn]%elem_of_classList_remove. done.
Qed.

Lemma status_badge_needs_string_witness :
  (exists message,
     result (HealthProfessionalUI.updateStatusBadge "hrStatus" VUndefined) emergency_view
       = Throw (mkError TypeError message)) /\
  exists badge',
    dom (exec (HealthProfessionalUI.updateStatusBadge "hrStatus" VUndefined) emergency_view)
      !! "hrStatus" = Some badge' /\
    forall t, t ∈ ["bg-accent-green/20"; "text-accent-green"; "bg-accent-orange/20";
                   "text-accent-orange"; "bg-accent-red/20"; "text-accent-red"] ->
              t ∉ classList badge'.
Proof. by apply (status_badge_needs_string "hrStatus" VUndefined emergency_view blank). Defined.

(** ** The fetch wrappers, once more *)

(** X25.  A call of a fetch wrapper sends exactly its one request, writes
    [API Error: ...] to the console exactly when it throws, with the message
    of the error it throws, and changes nothing else on the page. *)
Theorem fetch_wrapper_log (c : Controller) (env : Env) (u : string) (options : Options)
    (w : World) :
  emitted (api_fetch c env u options) w =
    Fetch (fetch_init u options) ::
    match result (api_fetch c env u options) w with
    | Ok _ => []
    | Throw e => [Console "error" ("API Error: " +:+ emessage e)]
    end /\
  exists evs, exec (api_fetch c env u options) w = with_log (log w ++ evs) w.
Proof.
  unfold emitted, exec, result. rewrite api_fetch_run. cbn [fst snd log with_log].
  split; [by rewrite drop_app_length | by eexists].
Qed.





